(** * Desktop pet: animation scheduler and resource cache

    A shallow embedding of [src/.res/r.py] (the PyQt5 desktop pet): the
    animation catalogue, the run state of the animation that is playing,
    the frame / image / sound caches of [ResourceManager], and the
    scheduler methods of [DesktopPet] that start, advance, end and preempt
    animations, together with the sleep entry and the click-burst detector.

    Conventions of the embedding.
    - Python methods that mutate [self] become functions that take the
      object and return the new object (and the returned value, if any).
    - Python [float]s (time stamps of [time.time()], [size_scale]) are
      exact rationals [Q]; [int(x)] truncates toward zero.  The catalogue
      only uses the scales 1.0, 0.5 and 1.5, for which the product with a
      window dimension is exact in binary floating point as well.
    - The file system and the image decoder are a fixed environment
      ([FileSystem]); Qt objects are kept symbolic ([QPixmap]) or reduced
      to the part of their state that the program reads back ([QTimer],
      [QMediaPlayer], the window size).
    - Commands sent to Qt widgets are appended to an event log, most
      recent first.  Console output ([print]) is not modelled. *)

From Stdlib Require Import ZArith QArith Lia Lqa Ascii String.
From stdpp Require Import base option list gmap strings pretty.

Local Open Scope Z_scope.

(** ** Enumerations ([AnimationType], [AnimationPriority]) *)

Inductive AnimationType : Type :=
| MAIN | BLINK | ANGER | WALK_AWAY | SLEEP | HEIXIU | HEIXIU_SLEEP
| DRINK_MILK | CONFUSED | EAT_BURGER | EAT_CHICKEN | SHAKE | ROLL
| GUITAR | PLAY_HEIXIU | BURP | ANXIETY | LEFT_WALK | RIGHT_WALK | SIT.

#[global] Instance AnimationType_eq_dec : EqDecision AnimationType.
Proof. solve_decision. Defined.

Inductive AnimationPriority : Type :=
| IDLE | BACKGROUND | INTERACTION | SPECIAL | SYSTEM | FORCE.

(** [AnimationPriority] is an [IntEnum]: comparisons are those of the
    integer values. *)
Definition priority_value (p : AnimationPriority) : Z :=
  match p with
  | IDLE => 0
  | BACKGROUND => 10
  | INTERACTION => 20
  | SPECIAL => 30
  | SYSTEM => 40
  | FORCE => 50
  end.

Definition priority_gt (p q : AnimationPriority) : bool :=
  priority_value q <? priority_value p.

(** ** Qt values *)

Record QSize : Type := mkQSize { width : Z; height : Z }.

Definition QSize_eqb (a b : QSize) : bool :=
  (width a =? width b) && (height a =? height b).

(** Truth value of a [QSize] in PyQt5: [QSize.__bool__] is [isValid()]. *)
Definition QSize_bool (s : QSize) : bool :=
  (0 <=? width s) && (0 <=? height s).

(** [QSize.scaled(s, Qt.KeepAspectRatio)]. *)
Definition QSize_scaled (self s : QSize) : QSize :=
  if (width self =? 0) || (height self =? 0) then s
  else
    let rw := Z.quot (height s * width self) (height self) in
    if rw <=? width s then mkQSize rw (height s)
    else mkQSize (width s) (Z.quot (width s * height self) (width self)).

(** Pixmaps are symbolic: a pixmap is either the decoded base image of a
    file, or the result of [scaled(w, h, Qt.KeepAspectRatio,
    Qt.SmoothTransformation)] on another pixmap, or a pixmap of a given
    size painted by the program: the text shown by [_enter_sleep] without
    a sleep image, and the placeholder of [_load_basic_resources]. *)
Inductive QPixmap : Type :=
| fromImage (path : string) (sz : QSize)
| scaled (base : QPixmap) (w h : Z)
| sleep_text (sz : QSize)
| default_image (sz : QSize).

#[global] Instance QSize_eq_dec : EqDecision QSize.
Proof. solve_decision. Defined.

#[global] Instance QPixmap_eq_dec : EqDecision QPixmap.
Proof. solve_decision. Defined.

(** [QPixmap.scaled] returns a null pixmap when the requested size is
    empty; a pixmap made from a non-null image is not null. *)
Fixpoint QPixmap_isNull (p : QPixmap) : bool :=
  match p with
  | fromImage _ _ => false
  | scaled b w h => QPixmap_isNull b || (w <=? 0) || (h <=? 0)
  | sleep_text sz | default_image sz => (width sz <=? 0) || (height sz <=? 0)
  end.

Fixpoint QPixmap_size (p : QPixmap) : QSize :=
  match p with
  | fromImage _ sz => sz
  | scaled b w h => QSize_scaled (QPixmap_size b) (mkQSize w h)
  | sleep_text sz | default_image sz => sz
  end.

(** [int(x)] on a Python float. *)
Definition int (x : Q) : Z := Z.quot (Qnum x) (Z.pos (Qden x)).

(** ** [AnimationConfig] *)

Record AnimationConfig : Type := mkAnimationConfig {
  folder : string;
  frames : Z;
  timer_interval : Z;
  loops : Z;
  has_sound : bool;
  sound_file : option string;
  priority : AnimationPriority;
  interruptible : bool;
  size_scale : Q;
  (** [on_complete] is an optional callable; it is identified by a handle
      and calling it is recorded in the event log. *)
  on_complete : option nat
}.

(** ** [AnimationState] *)

Module AnimationState.

Record t : Type := mk {
  current_animation : option AnimationType;
  current_priority : AnimationPriority;
  is_playing : bool;
  current_index : Z;
  loop_count : Z;
  start_time : Q;
  direction : Z;
  cached_frames : option (list QPixmap);
  original_size : option QSize
}.

(** [AnimationState.__init__] *)
Definition init : t :=
  mk None IDLE false 0 0 0%Q 1 None None.

Definition can_interrupt (self : t) (new_priority : AnimationPriority) : bool :=
  if negb (is_playing self) then true
  else priority_gt new_priority (current_priority self).

Definition reset (self : t) : t :=
  mk None IDLE false 0 0 (start_time self) (direction self) None
     (original_size self).

Definition set_original_size (v : option QSize) (self : t) : t :=
  mk (current_animation self) (current_priority self) (is_playing self)
     (current_index self) (loop_count self) (start_time self)
     (direction self) (cached_frames self) v.

Definition set_current_index (v : Z) (self : t) : t :=
  mk (current_animation self) (current_priority self) (is_playing self)
     v (loop_count self) (start_time self)
     (direction self) (cached_frames self) (original_size self).

Definition set_loop_count (v : Z) (self : t) : t :=
  mk (current_animation self) (current_priority self) (is_playing self)
     (current_index self) v (start_time self)
     (direction self) (cached_frames self) (original_size self).

End AnimationState.

(** ** The environment: files and the image decoder *)

Record FileSystem : Type := mkFileSystem {
  (** [sys._MEIPASS], or the directory of the script *)
  base_path : string;
  (** [os.path.exists] *)
  os_path_exists : string -> bool;
  (** [QImage(path)]: [None] when the image is null (it cannot be read or
      decoded), otherwise the size of the decoded image *)
  QImage : string -> option QSize
}.

Definition starts_with_slash (s : string) : bool :=
  match s with
  | String c _ => bool_decide (c = "/"%char)
  | EmptyString => false
  end.

Fixpoint ends_with_slash (s : string) : bool :=
  match s with
  | EmptyString => false
  | String c EmptyString => bool_decide (c = "/"%char)
  | String _ rest => ends_with_slash rest
  end.

(** [os.path.join(a, b)] on POSIX. *)
Definition os_path_join (a b : string) : string :=
  if starts_with_slash b then b
  else if bool_decide (a = "") || ends_with_slash a then a +:+ b
  else a +:+ "/" +:+ b.

(** Python [range(a, b)]. *)
Definition range (a b : Z) : list Z := seqZ a (b - a).

(** ** [ResourceManager] *)

Module ResourceManager.

Record t : Type := mk {
  frame_cache : gmap string (list QPixmap);
  image_cache : gmap string QPixmap;
  sound_cache : gmap string string;
  base_pixmap_cache : gmap string QPixmap;
  (** Instrumentation, not read by the program: the paths handed to
      [QImage(...)], most recent first.  Each entry is one decode from
      disk. *)
  decodes : list string
}.

(** [ResourceManager.__init__] on the fresh singleton *)
Definition init : t := mk ∅ ∅ ∅ ∅ [].

Definition _get_cache_key (folder : string) (filename : option string)
    (size : option QSize) : string :=
  let key := folder in
  let key :=
    match filename with
    | Some f => if bool_decide (f = "") then key else key +:+ "/" +:+ f
    | None => key
    end in
  match size with
  | Some s =>
      if QSize_bool s
      then key +:+ "_" +:+ pretty (width s) +:+ "x" +:+ pretty (height s)
      else key
  | None => key
  end.

Section with_fs.

Variable fs : FileSystem.

Definition get_resource_path (relative_path : string) : string :=
  os_path_join (base_path fs) relative_path.

(** The block [if img_path not in self.base_pixmap_cache: ...] of
    [_load_and_scale_pixmap]; the flag is [false] when the block returns
    [None] from the method (null image). *)
Definition fill_base_pixmap_cache (self : t) (img_path : string) : bool * t :=
  match base_pixmap_cache self !! img_path with
  | Some _ => (true, self)
  | None =>
      let self := mk (frame_cache self) (image_cache self) (sound_cache self)
                     (base_pixmap_cache self) (img_path :: decodes self) in
      match QImage fs img_path with
      | None => (false, self)
      | Some sz =>
          (true,
           mk (frame_cache self) (image_cache self) (sound_cache self)
              (<[img_path := fromImage img_path sz]> (base_pixmap_cache self))
              (decodes self))
      end
  end.

Definition _load_and_scale_pixmap (self : t) (img_path : string)
    (size : QSize) : option QPixmap * t :=
  let '(ok, self) := fill_base_pixmap_cache self img_path in
  if negb ok then (None, self)
  else
    match base_pixmap_cache self !! img_path with
    | None => (None, self)
    | Some base_pixmap =>
        if QSize_eqb (QPixmap_size base_pixmap) size
        then (Some base_pixmap, self)
        else (Some (scaled base_pixmap (width size) (height size)), self)
    end.

(** One iteration of the [for i in range(1, total_frames + 1)] loop of
    [load_frames]. *)
Definition load_frames_step (resource_dir : string) (size : QSize)
    (acc : list QPixmap * t) (i : Z) : list QPixmap * t :=
  let '(frames, self) := acc in
  let img_path := os_path_join resource_dir (pretty i +:+ ".png") in
  if os_path_exists fs img_path then
    let '(pixmap, self) := _load_and_scale_pixmap self img_path size in
    match pixmap with
    | Some p => if negb (QPixmap_isNull p) then (frames ++ [p], self)
                else (frames, self)
    | None => (frames, self)
    end
  else (frames, self).

Definition load_frames (self : t) (folder_name : string) (total_frames : Z)
    (size : QSize) : list QPixmap * t :=
  let cache_key := _get_cache_key folder_name None (Some size) in
  match frame_cache self !! cache_key with
  | Some cached => (cached, self)
  | None =>
      let resource_dir := get_resource_path folder_name in
      if negb (os_path_exists fs resource_dir) then ([], self)
      else
        let '(frames, self) :=
          fold_left (load_frames_step resource_dir size)
                    (range 1 (total_frames + 1)) ([], self) in
        (frames,
         mk (<[cache_key := frames]> (frame_cache self)) (image_cache self)
            (sound_cache self) (base_pixmap_cache self) (decodes self))
  end.

Definition load_single_image (self : t) (folder_name filename : string)
    (size : QSize) : option QPixmap * t :=
  let cache_key := _get_cache_key folder_name (Some filename) (Some size) in
  match image_cache self !! cache_key with
  | Some cached => (Some cached, self)
  | None =>
      let resource_dir := get_resource_path folder_name in
      let img_path := os_path_join resource_dir filename in
      if os_path_exists fs img_path then
        let '(pixmap, self) := _load_and_scale_pixmap self img_path size in
        match pixmap with
        | Some p =>
            if negb (QPixmap_isNull p) then
              (Some p,
               mk (frame_cache self) (<[cache_key := p]> (image_cache self))
                  (sound_cache self) (base_pixmap_cache self) (decodes self))
            else (None, self)
        | None => (None, self)
        end
      else (None, self)
  end.

(** A [QMediaContent] is identified by the path of its file. *)
Definition load_sound (self : t) (folder_name filename : string)
    : option string * t :=
  let cache_key := _get_cache_key folder_name (Some filename) None in
  match sound_cache self !! cache_key with
  | Some cached => (Some cached, self)
  | None =>
      let resource_dir := get_resource_path folder_name in
      let sound_path := os_path_join resource_dir filename in
      if os_path_exists fs sound_path then
        (Some sound_path,
         mk (frame_cache self) (image_cache self)
            (<[cache_key := sound_path]> (sound_cache self))
            (base_pixmap_cache self) (decodes self))
      else (None, self)
  end.

Definition priority_animations : list AnimationType :=
  [MAIN; BLINK; SLEEP; ANGER; ANXIETY].

(** Body of the [for anim_type in priority_animations] loop of
    [preload_resources]. *)
Definition preload_step
    (animations : AnimationType -> option AnimationConfig)
    (default_size : QSize) (self : t) (anim_type : AnimationType) : t :=
  match animations anim_type with
  | Some config =>
      let size :=
        mkQSize (int (inject_Z (width default_size) * size_scale config))
                (int (inject_Z (height default_size) * size_scale config)) in
      snd (load_frames self (folder config) (Z.min 1 (frames config)) size)
  | None => self
  end.

Definition preload_resources (self : t)
    (animations : AnimationType -> option AnimationConfig)
    (default_size : QSize) : t :=
  fold_left (preload_step animations default_size) priority_animations self.

Definition clear_cache (self : t) : t :=
  mk ∅ ∅ ∅ ∅ (decodes self).

(** Histories of loading calls on the manager, used to state properties
    that hold across all calls. *)
Inductive call : Type :=
| call_load_frames (folder_name : string) (total_frames : Z) (size : QSize)
| call_load_single_image (folder_name filename : string) (size : QSize)
| call_load_sound (folder_name filename : string)
| call_preload_resources
    (animations : AnimationType -> option AnimationConfig)
    (default_size : QSize).

Definition run_call (self : t) (c : call) : t :=
  match c with
  | call_load_frames f n sz => snd (load_frames self f n sz)
  | call_load_single_image f name sz => snd (load_single_image self f name sz)
  | call_load_sound f name => snd (load_sound self f name)
  | call_preload_resources animations sz =>
      preload_resources self animations sz
  end.

Definition run_calls (cs : list call) (self : t) : t :=
  fold_left run_call cs self.

(** Number of decodes of [path] from disk so far. *)
Definition decode_count (path : string) (self : t) : nat :=
  length (filter (λ p, p = path) (decodes self)).

End with_fs.

End ResourceManager.

(** ** [DesktopPet] *)

(** Commands sent to the Qt objects owned by the pet.  The last two are
    markers: [call_on_complete h] is the call of the completion callback
    with handle [h], and [enter_end_current_animation] records that
    [_end_current_animation] has been entered. *)
Inductive Event : Type :=
| setPixmap (p : QPixmap)
| resize (s : QSize)
| setGeometry (x y w h : Z)
| animation_timer_start (ms : Z)
| animation_timer_stop
| free_active_timer_stop
| media_player_stop
| media_player_setMedia (sound : string)
| media_player_play
| call_on_complete (h : nat)
| enter_end_current_animation.

#[global] Instance Event_eq_dec : EqDecision Event.
Proof. solve_decision. Defined.

(** A [QTimer] is [Some interval] while it is active. *)
Definition QTimer : Type := option Z.

Record QMediaPlayer : Type := mkQMediaPlayer {
  (** [state() == QMediaPlayer.PlayingState] *)
  PlayingState : bool;
  media : option string
}.

(** Python indexing [l[i]], with negative indices counted from the end;
    [None] stands for [IndexError]. *)
Definition py_index {A : Type} (l : list A) (i : Z) : option A :=
  if 0 <=? i then l !! Z.to_nat i
  else if - Z.of_nat (length l) <=? i then l !! Z.to_nat (Z.of_nat (length l) + i)
  else None.

Module DesktopPet.

Record t : Type := mk {
  resource_manager : ResourceManager.t;
  animation_state : AnimationState.t;
  original_size : QSize;
  is_force_sleeping : bool;
  click_timestamps : list Q;
  main_frames : list QPixmap;
  sleep_image : option QPixmap;
  (** [self.size()] *)
  window_size : QSize;
  animation_timer : QTimer;
  free_active_timer : QTimer;
  (** [None] when the media player could not be created *)
  media_player : option QMediaPlayer;
  (** the reading of [time.time()] *)
  clock : Q;
  (** the random source: [rng k] is the raw value behind the [k]-th draw *)
  rng : nat -> Z;
  rng_pos : nat;
  log : list Event
}.

Definition set_resource_manager (v : ResourceManager.t) (self : t) : t :=
  mk v (animation_state self) (original_size self) (is_force_sleeping self)
     (click_timestamps self) (main_frames self) (sleep_image self)
     (window_size self) (animation_timer self) (free_active_timer self)
     (media_player self) (clock self) (rng self) (rng_pos self) (log self).

Definition set_animation_state (v : AnimationState.t) (self : t) : t :=
  mk (resource_manager self) v (original_size self) (is_force_sleeping self)
     (click_timestamps self) (main_frames self) (sleep_image self)
     (window_size self) (animation_timer self) (free_active_timer self)
     (media_player self) (clock self) (rng self) (rng_pos self) (log self).

Definition set_click_timestamps (v : list Q) (self : t) : t :=
  mk (resource_manager self) (animation_state self) (original_size self)
     (is_force_sleeping self) v (main_frames self) (sleep_image self)
     (window_size self) (animation_timer self) (free_active_timer self)
     (media_player self) (clock self) (rng self) (rng_pos self) (log self).

Definition set_window_size (v : QSize) (self : t) : t :=
  mk (resource_manager self) (animation_state self) (original_size self)
     (is_force_sleeping self) (click_timestamps self) (main_frames self)
     (sleep_image self) v (animation_timer self) (free_active_timer self)
     (media_player self) (clock self) (rng self) (rng_pos self) (log self).

Definition set_animation_timer (v : QTimer) (self : t) : t :=
  mk (resource_manager self) (animation_state self) (original_size self)
     (is_force_sleeping self) (click_timestamps self) (main_frames self)
     (sleep_image self) (window_size self) v (free_active_timer self)
     (media_player self) (clock self) (rng self) (rng_pos self) (log self).

Definition set_free_active_timer (v : QTimer) (self : t) : t :=
  mk (resource_manager self) (animation_state self) (original_size self)
     (is_force_sleeping self) (click_timestamps self) (main_frames self)
     (sleep_image self) (window_size self) (animation_timer self) v
     (media_player self) (clock self) (rng self) (rng_pos self) (log self).

Definition set_media_player (v : option QMediaPlayer) (self : t) : t :=
  mk (resource_manager self) (animation_state self) (original_size self)
     (is_force_sleeping self) (click_timestamps self) (main_frames self)
     (sleep_image self) (window_size self) (animation_timer self)
     (free_active_timer self) v (clock self) (rng self) (rng_pos self)
     (log self).

Definition set_clock (v : Q) (self : t) : t :=
  mk (resource_manager self) (animation_state self) (original_size self)
     (is_force_sleeping self) (click_timestamps self) (main_frames self)
     (sleep_image self) (window_size self) (animation_timer self)
     (free_active_timer self) (media_player self) v (rng self) (rng_pos self)
     (log self).

Definition set_rng_pos (v : nat) (self : t) : t :=
  mk (resource_manager self) (animation_state self) (original_size self)
     (is_force_sleeping self) (click_timestamps self) (main_frames self)
     (sleep_image self) (window_size self) (animation_timer self)
     (free_active_timer self) (media_player self) (clock self) (rng self) v
     (log self).

Definition emit (e : Event) (self : t) : t :=
  mk (resource_manager self) (animation_state self) (original_size self)
     (is_force_sleeping self) (click_timestamps self) (main_frames self)
     (sleep_image self) (window_size self) (animation_timer self)
     (free_active_timer self) (media_player self) (clock self) (rng self)
     (rng_pos self) (e :: log self).

(** [random.randint(lo, hi)] *)
Definition randint (lo hi : Z) (self : t) : Z * t :=
  (lo + rng self (rng_pos self) mod (hi - lo + 1),
   set_rng_pos (S (rng_pos self)) self).

(** [self.resize(size)] *)
Definition do_resize (size : QSize) (self : t) : t :=
  emit (resize size) (set_window_size size self).

(** [self.image_label.setPixmap(self.main_frames[-1])] under
    [if self.main_frames:] *)
Definition show_last_main_frame (self : t) : t :=
  match last (main_frames self) with
  | Some p => emit (setPixmap p) self
  | None => self
  end.

Section with_environment.

(** The file system, and the class attribute [ANIMATIONS]: the theorems
    of this section hold for every catalogue; the one of the program is
    [DesktopPet.ANIMATIONS] below. *)
Variable fs : FileSystem.
Variable ANIMATIONS : AnimationType -> option AnimationConfig.

Definition _get_animation_frames (self : t) (animation_type : AnimationType)
    : list QPixmap * t :=
  match ANIMATIONS animation_type with
  | None => ([], self)
  | Some config =>
      let current_size := window_size self in
      let scaled_size :=
        mkQSize (int (inject_Z (width current_size) * size_scale config))
                (int (inject_Z (height current_size) * size_scale config)) in
      let '(frames, rm) :=
        ResourceManager.load_frames fs (resource_manager self)
          (folder config) (frames config) scaled_size in
      (frames, set_resource_manager rm self)
  end.

Definition _stop_current_animation (self : t) : t :=
  let self := emit animation_timer_stop (set_animation_timer None self) in
  let self := emit free_active_timer_stop (set_free_active_timer None self) in
  let self :=
    match media_player self with
    | Some mp =>
        if PlayingState mp
        then emit media_player_stop
               (set_media_player (Some (mkQMediaPlayer false (media mp))) self)
        else self
    | None => self
    end in
  match AnimationState.original_size (animation_state self) with
  | Some sz =>
      if QSize_bool sz then
        let self := do_resize sz self in
        let self := emit (setGeometry 0 0 (width sz) (height sz)) self in
        set_animation_state
          (AnimationState.set_original_size None (animation_state self)) self
      else self
  | None => self
  end.

(** The block [if config.has_sound and config.sound_file and
    self.media_player: ...] of [_start_animation]. *)
Definition play_sound (config : AnimationConfig) (self : t) : t :=
  match has_sound config, sound_file config, media_player self with
  | true, Some file, Some mp =>
      if bool_decide (file = "") then self
      else
        let '(sound, rm) :=
          ResourceManager.load_sound fs (resource_manager self)
            (folder config) file in
        let self := set_resource_manager rm self in
        match sound with
        | Some snd =>
            let self :=
              emit (media_player_setMedia snd)
                (set_media_player
                   (Some (mkQMediaPlayer (PlayingState mp) (Some snd))) self) in
            emit media_player_play
              (set_media_player (Some (mkQMediaPlayer true (Some snd))) self)
        | None => self
        end
  | _, _, _ => self
  end.

Definition _start_animation (self : t) (animation_type : AnimationType)
    (force : bool) : bool * t :=
  match ANIMATIONS animation_type with
  | None => (false, self)
  | Some config =>
      if negb force &&
         negb (AnimationState.can_interrupt (animation_state self)
                 (priority config))
      then (false, self)
      else
        let self := _stop_current_animation self in
        let '(frames, self) := _get_animation_frames self animation_type in
        match frames with
        | [] => (false, self)
        | frame0 :: _ =>
            let st := animation_state self in
            let self :=
              set_animation_state
                (AnimationState.mk (Some animation_type) (priority config)
                   true 0 0 (clock self) (AnimationState.direction st)
                   (Some frames) (AnimationState.original_size st)) self in
            let self :=
              if negb (Qeq_bool (size_scale config) 1) then
                let self :=
                  set_animation_state
                    (AnimationState.set_original_size
                       (Some (window_size self)) (animation_state self))
                    self in
                let new_size :=
                  mkQSize
                    (int (inject_Z (width (original_size self))
                          * size_scale config))
                    (int (inject_Z (height (original_size self))
                          * size_scale config)) in
                let self := do_resize new_size self in
                emit (setGeometry 0 0 (width new_size) (height new_size)) self
              else self in
            let self := emit (setPixmap frame0) self in
            let self := play_sound config self in
            let self :=
              emit (animation_timer_start (timer_interval config))
                (set_animation_timer (Some (timer_interval config)) self) in
            (true, self)
        end
  end.

(** The block [if current_type in self.ANIMATIONS: ...] of
    [_end_current_animation].  A completion callback is an opaque call:
    it is logged and assumed not to touch the pet. *)
Definition call_completion_callback (current_type : option AnimationType)
    (self : t) : t :=
  match current_type with
  | Some a =>
      match ANIMATIONS a with
      | Some config =>
          match on_complete config with
          | Some h => emit (call_on_complete h) self
          | None => self
          end
      | None => self
      end
  | None => self
  end.

Definition _end_current_animation (self : t) : t :=
  let current_type := AnimationState.current_animation (animation_state self) in
  let self := emit enter_end_current_animation self in
  let self := call_completion_callback current_type self in
  let fallback (self : t) : t :=
    let self := _stop_current_animation self in
    let self :=
      set_animation_state (AnimationState.reset (animation_state self)) self in
    show_last_main_frame self in
  if bool_decide (current_type = Some ANGER) then
    snd (_start_animation self WALK_AWAY true)
  else if bool_decide (current_type ∈ [Some DRINK_MILK; Some EAT_BURGER;
                                        Some EAT_CHICKEN]) then
    let '(r, self) := randint 1 100 self in
    if r <=? 30 then snd (_start_animation self BURP true)
    else fallback self
  else fallback self.

(** [_update_current_animation], the slot of [animation_timer].  [None]
    stands for an exception ([KeyError] on [ANIMATIONS], [IndexError] on
    the frame list). *)
Definition _update_current_animation (self : t) : option t :=
  let st := animation_state self in
  match AnimationState.is_playing st, AnimationState.cached_frames st with
  | true, Some ((_ :: _) as frames) =>
      match AnimationState.current_animation st with
      | None => None
      | Some a =>
          match ANIMATIONS a with
          | None => None
          | Some config =>
              if AnimationState.current_index st <? Z.of_nat (length frames)
              then
                match py_index frames (AnimationState.current_index st) with
                | None => None
                | Some frame =>
                    let self := emit (setPixmap frame) self in
                    Some (set_animation_state
                            (AnimationState.set_current_index
                               (AnimationState.current_index st + 1)
                               (animation_state self)) self)
                end
              else if loops config =? -1 then
                Some (set_animation_state
                        (AnimationState.set_current_index 0 st) self)
              else
                let st := AnimationState.set_current_index 0 st in
                let st :=
                  AnimationState.set_loop_count
                    (AnimationState.loop_count st + 1) st in
                let self := set_animation_state st self in
                if loops config <=? AnimationState.loop_count st
                then Some (_end_current_animation self)
                else Some self
          end
      end
  | _, _ => Some self
  end.

Definition _is_sleeping (self : t) : bool :=
  bool_decide (AnimationState.current_animation (animation_state self)
               ∈ [Some SLEEP; Some HEIXIU_SLEEP]).

Definition _enter_sleep (self : t) : t :=
  if _is_sleeping self || is_force_sleeping self then self
  else
    let self := _stop_current_animation self in
    let st := animation_state self in
    let self :=
      set_animation_state
        (AnimationState.mk (Some SLEEP) SYSTEM (AnimationState.is_playing st)
           (AnimationState.current_index st) (AnimationState.loop_count st)
           (AnimationState.start_time st) (AnimationState.direction st)
           (AnimationState.cached_frames st)
           (AnimationState.original_size st)) self in
    match sleep_image self with
    | Some img => emit (setPixmap img) self
    | None => emit (setPixmap (sleep_text (window_size self))) self
    end.

Definition _check_anger_condition (self : t) : t :=
  let current_time := clock self in
  let self :=
    set_click_timestamps
      (filter (fun t => Qle_bool (current_time - t) 10) (click_timestamps self))
      self in
  let self :=
    set_click_timestamps (click_timestamps self ++ [current_time]) self in
  if 15 <=? Z.of_nat (length (click_timestamps self)) then
    let self := set_click_timestamps [] self in
    snd (_start_animation self ANGER true)
  else self.

(** [n] timeouts of [animation_timer], each running the slot
    [_update_current_animation]. *)
Fixpoint ticks (n : nat) (self : t) : option t :=
  match n with
  | O => Some self
  | S n => ticks n self ≫= _update_current_animation
  end.

(** A counted click at time [now]: the clock reads [now] when
    [_check_anger_condition] runs. *)
Definition click (self : t) (now : Q) : t :=
  _check_anger_condition (set_clock now self).

Definition clicks (times : list Q) (self : t) : t :=
  fold_left click times self.

(** [DesktopPet.__init__]: window and label set-up, preload, basic
    resources, timers and media player.  The main, status and idle timers
    and the labels other than [image_label] are not part of the model. *)
Definition init (rng : nat -> Z) (now : Q) : t :=
  let original_size := mkQSize 200 200 in
  let self :=
    mk ResourceManager.init AnimationState.init original_size false []
       [] None original_size None None None now rng O [] in
  let self := do_resize original_size self in
  let self :=
    emit (setGeometry 0 0 (width original_size) (height original_size)) self in
  let self :=
    set_resource_manager
      (ResourceManager.preload_resources fs (resource_manager self)
         ANIMATIONS original_size) self in
  let '(frames, self) := _get_animation_frames self MAIN in
  let '(sleep, rm) :=
    ResourceManager.load_single_image fs (resource_manager self)
      "shuijiao" "1.png" original_size in
  let '(_, rm) :=
    ResourceManager.load_single_image fs rm
      "heixiushuijiao" "1.png" original_size in
  let self := set_resource_manager rm self in
  let self :=
    mk (resource_manager self) (animation_state self) (original_size)
       (is_force_sleeping self) (click_timestamps self) frames sleep
       (window_size self) (animation_timer self) (free_active_timer self)
       (Some (mkQMediaPlayer false None)) (clock self) (DesktopPet.rng self)
       (rng_pos self) (log self) in
  match frames with
  | frame0 :: _ => emit (setPixmap frame0) self
  | [] => emit (setPixmap (default_image original_size)) self
  end.

End with_environment.

(** Observations on the event log. *)
Definition is_enter_end (e : Event) : bool :=
  match e with enter_end_current_animation => true | _ => false end.

Definition end_count (self : t) : nat :=
  length (filter is_enter_end (log self)).

Definition is_call_on_complete (e : Event) : bool :=
  match e with call_on_complete _ => true | _ => false end.

Definition on_complete_count (self : t) : nat :=
  length (filter is_call_on_complete (log self)).

Definition is_setPixmap (e : Event) : bool :=
  match e with setPixmap _ => true | _ => false end.

Definition shown_count (self : t) : nat :=
  length (filter is_setPixmap (log self)).

(** The class attribute [DesktopPet.ANIMATIONS]. *)
Definition ANIMATIONS (a : AnimationType) : option AnimationConfig :=
  let cfg f n i l s sf p b sc := Some (mkAnimationConfig f n i l s sf p b sc None) in
  match a with
  | MAIN => cfg "xiaoheichuchang2" 34 100 1 false None IDLE true 1%Q
  | BLINK => cfg "zhayan" 2 100 1 false None BACKGROUND true 1%Q
  | ANGER => cfg "shengqi" 2 100 3 false None SPECIAL false 1%Q
  | WALK_AWAY => cfg "zoukai" 20 100 1 false None SPECIAL false 1%Q
  | HEIXIU => cfg "heixiu" 39 33 1 true (Some "heixiu.mp3") INTERACTION true (1 # 2)%Q
  | DRINK_MILK => cfg "henai" 163 33 3 false None INTERACTION true 1%Q
  | CONFUSED => cfg "yihuo" 39 33 1 true (Some "yihuo.mp3") INTERACTION true 1%Q
  | EAT_BURGER => cfg "chihanbao" 112 33 3 false None INTERACTION true 1%Q
  | EAT_CHICKEN => cfg "chijitui" 45 33 3 false None INTERACTION true 1%Q
  | SHAKE => cfg "yao" 28 33 1 false None INTERACTION true 1%Q
  | ROLL => cfg "gun1" 118 33 1 false None INTERACTION true (3 # 2)%Q
  | GUITAR => cfg "tanjita" 30 33 3 false None INTERACTION true 1%Q
  | PLAY_HEIXIU => cfg "wanheixiu" 33 33 3 false None INTERACTION true 1%Q
  | BURP => cfg "dage1" 45 33 1 false None INTERACTION false 1%Q
  | ANXIETY => cfg "jiaolv" 2 100 (-1) false None SYSTEM false 1%Q
  | LEFT_WALK => cfg "left_walk" 30 33 (-1) false None SPECIAL true 1%Q
  | RIGHT_WALK => cfg "right_walk" 30 33 (-1) false None SPECIAL true 1%Q
  | SIT => cfg "sit" 1 100 (-1) false None SPECIAL true 1%Q
  | SLEEP | HEIXIU_SLEEP => None
  end.

End DesktopPet.

(** ** A concrete installation

    The assets of the catalogue laid out under one root, with some
    animations possibly missing and some files possibly unreadable. *)

Definition install_root : string := "/opt/pet".

Definition all_animation_types : list AnimationType :=
  [MAIN; BLINK; ANGER; WALK_AWAY; SLEEP; HEIXIU; HEIXIU_SLEEP; DRINK_MILK;
   CONFUSED; EAT_BURGER; EAT_CHICKEN; SHAKE; ROLL; GUITAR; PLAY_HEIXIU;
   BURP; ANXIETY; LEFT_WALK; RIGHT_WALK; SIT].

Definition asset_files (c : AnimationConfig) : list string :=
  let dir := os_path_join install_root (folder c) in
  dir :: map (λ i, os_path_join dir (pretty i +:+ ".png"))
             (range 1 (frames c + 1))
      ++ match sound_file c with
         | Some f => [os_path_join dir f]
         | None => []
         end.

Definition installed_files (missing : list AnimationType) : list string :=
  concat
    (map (λ a, if bool_decide (a ∈ missing) then []
               else match DesktopPet.ANIMATIONS a with
                    | Some c => asset_files c
                    | None => []
                    end)
         all_animation_types)
  ++ [os_path_join install_root "shuijiao";
      os_path_join (os_path_join install_root "shuijiao") "1.png"].

Definition installation (missing : list AnimationType)
    (unreadable : list string) : FileSystem :=
  let files := installed_files missing in
  mkFileSystem install_root
    (λ p, bool_decide (p ∈ files))
    (λ p, if bool_decide (p ∈ files) && negb (bool_decide (p ∈ unreadable))
          then Some (mkQSize 200 200) else None).

(** The pet right after start-up on an installation. *)
Definition started_pet (fs : FileSystem) : DesktopPet.t :=
  DesktopPet.init fs DesktopPet.ANIMATIONS (λ _, 0) 0%Q.

(** The pet after a forced request for [a] right after start-up. *)
Definition pet_playing (fs : FileSystem) (a : AnimationType) : DesktopPet.t :=
  snd (DesktopPet._start_animation fs DesktopPet.ANIMATIONS (started_pet fs)
         a true).

(** The installations used in the examples: complete, without the
    walk-away frames, without the anxiety frames, and with an unreadable
    first frame of the shake animation. *)
Definition fs_full : FileSystem := installation [] [].
Definition fs_no_walk_away : FileSystem := installation [WALK_AWAY] [].
Definition fs_no_anxiety : FileSystem := installation [ANXIETY] [].
Definition fs_unreadable : FileSystem :=
  installation [] ["/opt/pet/yao/1.png"].

(** Fifteen clicks, half a second apart. *)
Definition fifteen_clicks : list Q :=
  map (λ k : Z, (k # 2)%Q) (seqZ 0 15).

(** The frames that a request for [a], once past the priority check in
    state [self], obtains: they are loaded after the current animation
    has been stopped, at the window size restored by the stop. *)
Definition frames_after_stop (fs : FileSystem)
    (ANIMATIONS : AnimationType -> option AnimationConfig)
    (self : DesktopPet.t) (a : AnimationType) : list QPixmap :=
  fst (DesktopPet._get_animation_frames fs ANIMATIONS
         (DesktopPet._stop_current_animation self) a).

(** [quiet lg lg'] : the log [lg'] extends [lg] with commands to the
    widgets only, with no entry into [_end_current_animation] and no call
    of a completion callback. *)
Inductive quiet (lg : list Event) : list Event -> Prop :=
| quiet_same : quiet lg lg
| quiet_cons e lg' :
    DesktopPet.is_enter_end e = false ->
    DesktopPet.is_call_on_complete e = false ->
    quiet lg lg' -> quiet lg (e :: lg').

(** The run state of an animation [a] in progress on the frames [frs],
    with the frame cursor at [i] and [l] loops completed. *)
Definition running (a : AnimationType) (frs : list QPixmap) (i l : Z)
    (self : DesktopPet.t) : Prop :=
  let st := DesktopPet.animation_state self in
  AnimationState.is_playing st = true
  /\ AnimationState.cached_frames st = Some frs
  /\ AnimationState.current_animation st = Some a
  /\ AnimationState.current_index st = i
  /\ AnimationState.loop_count st = l.

(** The decode log agrees with the base-pixmap cache: the cache holds
    the decoded image of each of its paths, a readable file has been
    decoded at most once, and once decoded it is in the cache. *)
Definition decodes_consistent (fs : FileSystem) (rm : ResourceManager.t)
    : Prop :=
  forall p : string,
    (forall b, ResourceManager.base_pixmap_cache rm !! p = Some b ->
               exists sz, QImage fs p = Some sz /\ b = fromImage p sz)
    /\ (is_Some (QImage fs p) ->
        (ResourceManager.decode_count p rm <= 1)%nat
        /\ (p ∈ ResourceManager.decodes rm ->
            is_Some (ResourceManager.base_pixmap_cache rm !! p))).

(** Every cached frame sequence holds at most one frame. *)
Definition short_entries (rm : ResourceManager.t) : Prop :=
  forall k fr, ResourceManager.frame_cache rm !! k = Some fr ->
               (length fr <= 1)%nat.

(** The run state is sound for the timer slot: when an animation is
    playing on a non-empty frame list, it is an animation of the catalogue
    and the cursor lies between 0 and the number of frames. *)
Definition cursor_in_range
    (ANIMATIONS : AnimationType -> option AnimationConfig)
    (st : AnimationState.t) : Prop :=
  AnimationState.is_playing st = true ->
  forall frs, AnimationState.cached_frames st = Some frs -> frs <> [] ->
    (exists a config, AnimationState.current_animation st = Some a
                      /\ ANIMATIONS a = Some config)
    /\ 0 <= AnimationState.current_index st <= Z.of_nat (length frs).

(** What [_load_and_scale_pixmap] makes of a base pixmap. *)
Definition scaled_to (size : QSize) (base_pixmap : QPixmap) : QPixmap :=
  if QSize_eqb (QPixmap_size base_pixmap) size then base_pixmap
  else scaled base_pixmap (width size) (height size).

(** The path of frame [i] of a folder. *)
Definition frame_path (fs : FileSystem) (folder_name : string) (i : Z)
    : string :=
  os_path_join (ResourceManager.get_resource_path fs folder_name)
    (pretty i +:+ ".png").

(** Two managers hold the same caches (their decode logs may differ). *)
Definition same_caches (rm rm' : ResourceManager.t) : Prop :=
  ResourceManager.frame_cache rm = ResourceManager.frame_cache rm'
  /\ ResourceManager.image_cache rm = ResourceManager.image_cache rm'
  /\ ResourceManager.sound_cache rm = ResourceManager.sound_cache rm'
  /\ ResourceManager.base_pixmap_cache rm
     = ResourceManager.base_pixmap_cache rm'.

(** No cached frame sequence holds a null pixmap. *)
Definition no_null_frames (rm : ResourceManager.t) : Prop :=
  forall k fr, ResourceManager.frame_cache rm !! k = Some fr ->
               Forall (λ p, QPixmap_isNull p = false) fr.

(** ** Points and rectangles *)

Record QPoint : Type := mkQPoint { QPoint_x : Z; QPoint_y : Z }.

Definition QPoint_sub (a b : QPoint) : QPoint :=
  mkQPoint (QPoint_x a - QPoint_x b) (QPoint_y a - QPoint_y b).

(** Truth value of a [QPoint] in PyQt5: [not isNull()]. *)
Definition QPoint_bool (p : QPoint) : bool :=
  negb ((QPoint_x p =? 0) && (QPoint_y p =? 0)).

Definition manhattanLength (p : QPoint) : Z :=
  Z.abs (QPoint_x p) + Z.abs (QPoint_y p).

Record QRect : Type := mkQRect {
  QRect_x : Z; QRect_y : Z; QRect_width : Z; QRect_height : Z
}.

Definition QRect_left (r : QRect) : Z := QRect_x r.

(** [QRect.right()] is [x + width - 1]. *)
Definition QRect_right (r : QRect) : Z := QRect_x r + QRect_width r - 1.

(** [Qt.LeftButton] *)
Definition LeftButton : Z := 1.

(** [a > b] on floats. *)
Definition Qgt_bool (a b : Q) : bool := negb (Qle_bool a b).

(** ** [SystemMonitor] *)

Module SystemMonitor.

Record t : Type := mk {
  gpu_usage_cache : Q;
  cpu_usage_cache : Q;
  last_gpu_update : Q;
  last_cpu_update : Q;
  update_interval : Q
}.

Definition init : t := mk 0 0 0 0 2.

(** [cpu_percent] is the outcome of [psutil.cpu_percent(interval=0.1)],
    [None] when it raises. *)
Definition get_cpu_usage (self : t) (current_time : Q)
    (cpu_percent : option Q) : Q * t :=
  let self :=
    if Qgt_bool (current_time - last_cpu_update self) (update_interval self)
    then
      mk (gpu_usage_cache self)
         (match cpu_percent with Some v => v | None => 0 end)
         (last_gpu_update self) current_time (update_interval self)
    else self in
  (cpu_usage_cache self, self).

(** [GPUtil] tells whether the module could be imported; [getGPUs] is the
    outcome of [GPUtil.getGPUs()], reduced to the loads of the GPUs, [None]
    when it raises. *)
Definition get_gpu_usage (GPUtil : bool) (self : t) (current_time : Q)
    (getGPUs : option (list Q)) : Q * t :=
  if negb GPUtil then (0%Q, self)
  else
    let self :=
      if Qgt_bool (current_time - last_gpu_update self) (update_interval self)
      then
        mk (match getGPUs with
            | Some (gpu0 :: _) => gpu0 * 100
            | Some [] => 0
            | None => 0
            end)
           (cpu_usage_cache self) current_time (last_cpu_update self)
           (update_interval self)
      else self in
    (gpu_usage_cache self, self).

End SystemMonitor.

(** ** The whole widget

    [DesktopPet.t] holds the part of the widget that the scheduler reads
    and writes.  [PetWidget.t] adds the rest of the attributes of the
    class: the modes, the free roaming, the mouse state, the position of
    the window, the system monitor.  The methods of the scheduler are used
    through [lift].  The commands to the widgets that are new here are
    kept as state (the position of the window, the visibility of the
    sleep hint, the timers); the text of the status label is not
    modelled. *)

Module PetWidget.

Record t : Type := mk {
  pet : DesktopPet.t;
  system_monitor : SystemMonitor.t;
  is_heixiu_mode : bool;
  last_interaction_time : Q;
  free_active_type : option string;
  free_active_direction : Z;
  free_active_start_time : Q;
  free_active_duration : Z;
  drag_position : option QPoint;
  mouse_press_pos : option QPoint;
  heixiu_sleep_image : option QPixmap;
  (** [self.pos()], which is also [self.frameGeometry().topLeft()] *)
  pos : QPoint;
  (** [sleep_hint_label] is shown *)
  sleep_hint_label_visible : bool;
  main_timer : QTimer
}.

Definition set_pet (v : DesktopPet.t) (self : t) : t :=
  mk v (system_monitor self) (is_heixiu_mode self)
     (last_interaction_time self) (free_active_type self)
     (free_active_direction self) (free_active_start_time self)
     (free_active_duration self) (drag_position self) (mouse_press_pos self)
     (heixiu_sleep_image self) (pos self) (sleep_hint_label_visible self)
     (main_timer self).

Definition set_system_monitor (v : SystemMonitor.t) (self : t) : t :=
  mk (pet self) v (is_heixiu_mode self)
     (last_interaction_time self) (free_active_type self)
     (free_active_direction self) (free_active_start_time self)
     (free_active_duration self) (drag_position self) (mouse_press_pos self)
     (heixiu_sleep_image self) (pos self) (sleep_hint_label_visible self)
     (main_timer self).

Definition set_is_heixiu_mode (v : bool) (self : t) : t :=
  mk (pet self) (system_monitor self) v
     (last_interaction_time self) (free_active_type self)
     (free_active_direction self) (free_active_start_time self)
     (free_active_duration self) (drag_position self) (mouse_press_pos self)
     (heixiu_sleep_image self) (pos self) (sleep_hint_label_visible self)
     (main_timer self).

Definition set_last_interaction_time (v : Q) (self : t) : t :=
  mk (pet self) (system_monitor self) (is_heixiu_mode self)
     v (free_active_type self)
     (free_active_direction self) (free_active_start_time self)
     (free_active_duration self) (drag_position self) (mouse_press_pos self)
     (heixiu_sleep_image self) (pos self) (sleep_hint_label_visible self)
     (main_timer self).

Definition set_free_active_type (v : option string) (self : t) : t :=
  mk (pet self) (system_monitor self) (is_heixiu_mode self)
     (last_interaction_time self) v
     (free_active_direction self) (free_active_start_time self)
     (free_active_duration self) (drag_position self) (mouse_press_pos self)
     (heixiu_sleep_image self) (pos self) (sleep_hint_label_visible self)
     (main_timer self).

Definition set_free_active_direction (v : Z) (self : t) : t :=
  mk (pet self) (system_monitor self) (is_heixiu_mode self)
     (last_interaction_time self) (free_active_type self)
     v (free_active_start_time self)
     (free_active_duration self) (drag_position self) (mouse_press_pos self)
     (heixiu_sleep_image self) (pos self) (sleep_hint_label_visible self)
     (main_timer self).

Definition set_free_active_start_time (v : Q) (self : t) : t :=
  mk (pet self) (system_monitor self) (is_heixiu_mode self)
     (last_interaction_time self) (free_active_type self)
     (free_active_direction self) v
     (free_active_duration self) (drag_position self) (mouse_press_pos self)
     (heixiu_sleep_image self) (pos self) (sleep_hint_label_visible self)
     (main_timer self).

Definition set_free_active_duration (v : Z) (self : t) : t :=
  mk (pet self) (system_monitor self) (is_heixiu_mode self)
     (last_interaction_time self) (free_active_type self)
     (free_active_direction self) (free_active_start_time self)
     v (drag_position self) (mouse_press_pos self)
     (heixiu_sleep_image self) (pos self) (sleep_hint_label_visible self)
     (main_timer self).

Definition set_drag_position (v : option QPoint) (self : t) : t :=
  mk (pet self) (system_monitor self) (is_heixiu_mode self)
     (last_interaction_time self) (free_active_type self)
     (free_active_direction self) (free_active_start_time self)
     (free_active_duration self) v (mouse_press_pos self)
     (heixiu_sleep_image self) (pos self) (sleep_hint_label_visible self)
     (main_timer self).

Definition set_mouse_press_pos (v : option QPoint) (self : t) : t :=
  mk (pet self) (system_monitor self) (is_heixiu_mode self)
     (last_interaction_time self) (free_active_type self)
     (free_active_direction self) (free_active_start_time self)
     (free_active_duration self) (drag_position self) v
     (heixiu_sleep_image self) (pos self) (sleep_hint_label_visible self)
     (main_timer self).

(** [self.move(p)] *)
Definition move (v : QPoint) (self : t) : t :=
  mk (pet self) (system_monitor self) (is_heixiu_mode self)
     (last_interaction_time self) (free_active_type self)
     (free_active_direction self) (free_active_start_time self)
     (free_active_duration self) (drag_position self) (mouse_press_pos self)
     (heixiu_sleep_image self) v (sleep_hint_label_visible self)
     (main_timer self).

Definition set_sleep_hint_label_visible (v : bool) (self : t) : t :=
  mk (pet self) (system_monitor self) (is_heixiu_mode self)
     (last_interaction_time self) (free_active_type self)
     (free_active_direction self) (free_active_start_time self)
     (free_active_duration self) (drag_position self) (mouse_press_pos self)
     (heixiu_sleep_image self) (pos self) v
     (main_timer self).

Definition set_main_timer (v : QTimer) (self : t) : t :=
  mk (pet self) (system_monitor self) (is_heixiu_mode self)
     (last_interaction_time self) (free_active_type self)
     (free_active_direction self) (free_active_start_time self)
     (free_active_duration self) (drag_position self) (mouse_press_pos self)
     (heixiu_sleep_image self) (pos self) (sleep_hint_label_visible self)
     v.

(** A method of the scheduler, run on the widget. *)
Definition lift (f : DesktopPet.t -> DesktopPet.t) (self : t) : t :=
  set_pet (f (pet self)) self.

(** An update of [self.animation_state]. *)
Definition with_state (f : AnimationState.t -> AnimationState.t)
    (self : t) : t :=
  lift (fun p => DesktopPet.set_animation_state
                   (f (DesktopPet.animation_state p)) p) self.

Definition set_is_force_sleeping (v : bool) (p : DesktopPet.t)
    : DesktopPet.t :=
  DesktopPet.mk (DesktopPet.resource_manager p) (DesktopPet.animation_state p)
    (DesktopPet.original_size p) v (DesktopPet.click_timestamps p)
    (DesktopPet.main_frames p) (DesktopPet.sleep_image p)
    (DesktopPet.window_size p) (DesktopPet.animation_timer p)
    (DesktopPet.free_active_timer p) (DesktopPet.media_player p)
    (DesktopPet.clock p) (DesktopPet.rng p) (DesktopPet.rng_pos p)
    (DesktopPet.log p).

(** [state.current_animation = a; state.current_priority = p] *)
Definition set_current (a : AnimationType) (p : AnimationPriority)
    (st : AnimationState.t) : AnimationState.t :=
  AnimationState.mk (Some a) p (AnimationState.is_playing st)
    (AnimationState.current_index st) (AnimationState.loop_count st)
    (AnimationState.start_time st) (AnimationState.direction st)
    (AnimationState.cached_frames st) (AnimationState.original_size st).

(** Truth value of [self.free_active_type]. *)
Definition free_active_type_bool (self : t) : bool :=
  match free_active_type self with
  | Some s => negb (bool_decide (s = ""))
  | None => false
  end.

Definition current_animation (self : t) : option AnimationType :=
  AnimationState.current_animation (DesktopPet.animation_state (pet self)).

Definition is_playing (self : t) : bool :=
  AnimationState.is_playing (DesktopPet.animation_state (pet self)).

Definition is_force_sleeping (self : t) : bool :=
  DesktopPet.is_force_sleeping (pet self).

Definition _is_sleeping (self : t) : bool := DesktopPet._is_sleeping (pet self).

(** [time.time()] *)
Definition time (self : t) : Q := DesktopPet.clock (pet self).

(** [random.randint(lo, hi)] *)
Definition randint (lo hi : Z) (self : t) : Z * t :=
  let '(r, p) := DesktopPet.randint lo hi (pet self) in (r, set_pet p self).

Definition _stop_current_animation (self : t) : t :=
  lift DesktopPet._stop_current_animation self.

Definition reset (self : t) : t := with_state AnimationState.reset self.

Definition show_last_main_frame (self : t) : t :=
  lift DesktopPet.show_last_main_frame self.

(** The menu entries of the sub-menu of interactions. *)
Definition interaction_menu : list AnimationType :=
  [DRINK_MILK; EAT_BURGER; EAT_CHICKEN; SHAKE; ROLL; GUITAR; PLAY_HEIXIU].

(** The callables that [_create_context_menu] attaches to menu entries
    (closing the window apart). *)
Inductive action : Type :=
| action_end_free_active
| action_set_main_timer_speed (speed : Z)
| action_restart_animation
| action_start_free_active
| action_toggle_heixiu_mode
| action_start_animation (a : AnimationType).

(** What the event loop delivers to the widget: the time-outs of the five
    timers, the mouse events, and the entry picked in the context menu.
    The status update comes with what it reads from the system: the hour
    of [datetime.now()] and the outcomes of the CPU and GPU probes. *)
Inductive input : Type :=
| main_timer_timeout
| animation_timer_timeout
| free_active_timer_timeout
| status_timer_timeout (hour : Z) (cpu_percent : option Q)
    (getGPUs : option (list Q))
| idle_timer_timeout
| mousePress (button : Z) (globalPos pos : QPoint)
| mouseMove (buttons : Z) (globalPos : QPoint)
| mouseRelease (button : Z) (pos : QPoint)
| triggered (a : action).

Section with_environment.

Variable fs : FileSystem.
Variable ANIMATIONS : AnimationType -> option AnimationConfig.
(** whether [import GPUtil] succeeded *)
Variable GPUtil : bool.
(** [QApplication.desktop().availableGeometry()], [None] when it raises *)
Variable availableGeometry : option QRect.

(** [self._start_animation(a, force)], the result being dropped. *)
Definition _start_animation (a : AnimationType) (force : bool) (self : t)
    : t :=
  lift (fun p => snd (DesktopPet._start_animation fs ANIMATIONS p a force))
    self.

Definition _get_animation_frames (self : t) (a : AnimationType)
    : list QPixmap * t :=
  let '(frames, p) := DesktopPet._get_animation_frames fs ANIMATIONS
                        (pet self) a in
  (frames, set_pet p self).

Definition _end_current_animation (self : t) : t :=
  lift (DesktopPet._end_current_animation fs ANIMATIONS) self.

Definition _is_in_special_state (self : t) : bool :=
  is_force_sleeping self
  || match free_active_type self with Some _ => true | None => false end
  || bool_decide (current_animation self ∈ [Some SLEEP; Some HEIXIU_SLEEP]).

Definition _on_main_timer (self : t) : t :=
  if is_playing self || _is_in_special_state self then self
  else
    let '(r, self) := randint 1 1000 self in
    if r <=? 5 then _start_animation BLINK false self else self.

Definition _reverse_walk_direction (self : t) : t :=
  let self :=
    set_free_active_direction (free_active_direction self * -1) self in
  let self :=
    if bool_decide (free_active_type self = Some "left_walk")
    then set_free_active_type (Some "right_walk") self
    else if bool_decide (free_active_type self = Some "right_walk")
    then set_free_active_type (Some "left_walk") self
    else self in
  with_state (AnimationState.set_current_index 0) self.

Definition _end_free_active (self : t) : t :=
  let self :=
    lift (fun p => DesktopPet.emit free_active_timer_stop
                     (DesktopPet.set_free_active_timer None p)) self in
  let self := set_free_active_type None self in
  let self := with_state (AnimationState.set_current_index 0) self in
  show_last_main_frame self.

(** [None] stands for an [IndexError] on the frame list. *)
Definition _update_walk_animation (self : t) : option t :=
  let animation_type :=
    if bool_decide (free_active_type self = Some "left_walk")
    then LEFT_WALK else RIGHT_WALK in
  let '(frames, self) := _get_animation_frames self animation_type in
  match frames with
  | [] => Some self
  | _ :: _ =>
      let current_index :=
        AnimationState.current_index (DesktopPet.animation_state (pet self)) in
      let frame_index := current_index mod Z.of_nat (length frames) in
      match py_index frames frame_index with
      | None => None
      | Some frame =>
          let self := lift (DesktopPet.emit (setPixmap frame)) self in
          Some (with_state
                  (AnimationState.set_current_index (current_index + 1)) self)
      end
  end.

Definition _move_window_horizontally (step : Z) (self : t) : t :=
  let current_pos := pos self in
  let new_x := QPoint_x current_pos + step in
  let screen_geometry :=
    match availableGeometry with
    | Some g => g
    | None => mkQRect 0 0 1920 1080
    end in
  let self_width := width (DesktopPet.window_size (pet self)) in
  let '(new_x, self) :=
    if new_x <? QRect_left screen_geometry then
      (QRect_left screen_geometry, _reverse_walk_direction self)
    else if QRect_right screen_geometry - self_width <? new_x then
      (QRect_right screen_geometry - self_width, _reverse_walk_direction self)
    else (new_x, self) in
  move (mkQPoint new_x (QPoint_y current_pos)) self.

(** [_update_free_active], the slot of [free_active_timer]. *)
Definition _update_free_active (self : t) : option t :=
  if negb (free_active_type_bool self) then Some self
  else if (0 <? free_active_duration self)
          && Qgt_bool (time self - free_active_start_time self)
               (inject_Z (free_active_duration self))
  then Some (_end_free_active self)
  else if bool_decide (free_active_type self
                       ∈ [Some "left_walk"; Some "right_walk"]) then
    match _update_walk_animation self with
    | None => None
    | Some self =>
        Some (_move_window_horizontally (free_active_direction self * 5) self)
    end
  else if bool_decide (free_active_type self = Some "sit") then
    let '(frames, self) := _get_animation_frames self SIT in
    match frames with
    | frame0 :: _ => Some (lift (DesktopPet.emit (setPixmap frame0)) self)
    | [] => Some self
    end
  else Some self.

Definition _enter_sleep (self : t) : t := lift DesktopPet._enter_sleep self.

Definition _enter_heixiu_sleep (self : t) : t :=
  if negb (is_heixiu_mode self) then self
  else
    let self := _stop_current_animation self in
    let self := with_state (set_current HEIXIU_SLEEP SYSTEM) self in
    match heixiu_sleep_image self with
    | Some img => lift (DesktopPet.emit (setPixmap img)) self
    | None => _enter_sleep self
    end.

Definition _enter_force_sleep (self : t) : t :=
  let self := lift (set_is_force_sleeping true) self in
  let self := _enter_sleep self in
  set_sleep_hint_label_visible true self.

Definition _exit_force_sleep (self : t) : t :=
  let self := lift (set_is_force_sleeping false) self in
  let self := reset self in
  let self := set_sleep_hint_label_visible false self in
  show_last_main_frame self.

Definition _wake_up (self : t) : t :=
  if negb (_is_sleeping self) || is_force_sleeping self then self
  else show_last_main_frame (reset self).

(** [_update_status], the slot of [status_timer]. *)
Definition _update_status (hour : Z) (cpu_percent : option Q)
    (getGPUs : option (list Q)) (self : t) : t :=
  let '(cpu_usage, sm) :=
    SystemMonitor.get_cpu_usage (system_monitor self) (time self)
      cpu_percent in
  let '(gpu_usage, sm) :=
    SystemMonitor.get_gpu_usage GPUtil sm (time self) getGPUs in
  let self := set_system_monitor sm self in
  let self :=
    if (hour =? 1) && negb (is_force_sleeping self)
    then _enter_force_sleep self
    else if negb (hour =? 1) && is_force_sleeping self
    then _exit_force_sleep self
    else self in
  let is_high_usage := Qgt_bool cpu_usage 90 || Qgt_bool gpu_usage 90 in
  let is_currently_anxious :=
    bool_decide (current_animation self = Some ANXIETY) in
  if is_high_usage && negb is_currently_anxious
     && negb (is_force_sleeping self)
  then _start_animation ANXIETY true self
  else if negb is_high_usage && is_currently_anxious
  then _end_current_animation self
  else self.

(** [_check_idle_time], the slot of [idle_timer]. *)
Definition _check_idle_time (self : t) : t :=
  let idle_seconds := (time self - last_interaction_time self)%Q in
  if Qgt_bool idle_seconds 600 then
    if is_heixiu_mode self && negb (_is_sleeping self)
    then _enter_heixiu_sleep self
    else if negb (_is_sleeping self) && negb (is_force_sleeping self)
    then _enter_sleep self
    else self
  else self.

Definition _check_anger_condition (self : t) : t :=
  lift (DesktopPet._check_anger_condition fs ANIMATIONS) self.

Definition start_free_active (self : t) : t :=
  if is_force_sleeping self then self
  else
    let self := _stop_current_animation self in
    let self := reset self in
    let self := with_state (AnimationState.set_current_index 0) self in
    let self := set_free_active_start_time (time self) self in
    let '(rand_val, self) := randint 1 100 self in
    let self :=
      if rand_val <=? 48 then
        set_free_active_duration 0
          (set_free_active_direction (-1)
             (set_free_active_type (Some "left_walk") self))
      else if rand_val <=? 96 then
        set_free_active_duration 0
          (set_free_active_direction 1
             (set_free_active_type (Some "right_walk") self))
      else
        set_free_active_duration 300
          (set_free_active_type (Some "sit") self) in
    lift (DesktopPet.set_free_active_timer (Some 33)) self.

(** [self.resize(self.original_size)] and the [setGeometry] of the image
    label that follows it. *)
Definition restore_original_size (self : t) : t :=
  lift (fun p =>
          let sz := DesktopPet.original_size p in
          DesktopPet.emit (setGeometry 0 0 (width sz) (height sz))
            (DesktopPet.do_resize sz p)) self.

Definition toggle_heixiu_mode (self : t) : t :=
  let self := set_is_heixiu_mode (negb (is_heixiu_mode self)) self in
  if is_heixiu_mode self then _start_animation HEIXIU true self
  else
    let self := _stop_current_animation self in
    let self := reset self in
    let self := restore_original_size self in
    show_last_main_frame self.

Definition mousePressEvent (button : Z) (globalPos event_pos : QPoint)
    (self : t) : t :=
  if is_force_sleeping self then self
  else
    let self := set_last_interaction_time (time self) self in
    if button =? LeftButton then
      let self :=
        set_drag_position (Some (QPoint_sub globalPos (pos self))) self in
      set_mouse_press_pos (Some event_pos) self
    else self.

Definition mouseMoveEvent (buttons : Z) (globalPos : QPoint) (self : t) : t :=
  if is_force_sleeping self then self
  else
    let self := set_last_interaction_time (time self) self in
    match drag_position self with
    | Some drag =>
        if (buttons =? LeftButton) && QPoint_bool drag
        then move (QPoint_sub globalPos drag) self
        else self
    | None => self
    end.

Definition mouseReleaseEvent (button : Z) (event_pos : QPoint) (self : t)
    : t :=
  if is_force_sleeping self then self
  else
    let self := set_last_interaction_time (time self) self in
    if button =? LeftButton then
      if _is_sleeping self then _wake_up self
      else
        let self :=
          match mouse_press_pos self with
          | Some press =>
              if QPoint_bool press
                 && (manhattanLength (QPoint_sub event_pos press) <? 5)
              then
                if is_heixiu_mode self
                then _start_animation HEIXIU false self
                else
                  let '(rand_val, self) := randint 1 100 self in
                  let self :=
                    if rand_val <? 10 then _start_animation SHAKE false self
                    else if rand_val <? 20
                    then _start_animation CONFUSED false self
                    else _start_animation BLINK false self in
                  _check_anger_condition self
              else self
          | None => self
          end in
        set_drag_position None (set_mouse_press_pos None self)
    else self.

Definition _set_main_timer_speed (speed : Z) (self : t) : t :=
  set_main_timer (Some speed) (set_main_timer None self).

Definition _restart_animation (self : t) : t :=
  let self := _stop_current_animation self in
  let self := reset self in
  let self := set_is_heixiu_mode false self in
  let self := set_free_active_type None self in
  let self := set_last_interaction_time (time self) self in
  let self := restore_original_size self in
  let self :=
    match DesktopPet.main_frames (pet self) with
    | frame0 :: _ => lift (DesktopPet.emit (setPixmap frame0)) self
    | [] => self
    end in
  set_main_timer (Some 100) self.

Definition trigger (a : action) (self : t) : t :=
  match a with
  | action_end_free_active => _end_free_active self
  | action_set_main_timer_speed speed => _set_main_timer_speed speed self
  | action_restart_animation => _restart_animation self
  | action_start_free_active => start_free_active self
  | action_toggle_heixiu_mode => toggle_heixiu_mode self
  | action_start_animation a =>
      if bool_decide (a ∈ interaction_menu)
      then _start_animation a false self
      else self
  end.

(** One event at time [now].  The time-out of a timer that is not active
    is not delivered.  An entry of the context menu can be triggered in
    any state: the menu is modal, but the timers go on while it is open.
    [None] stands for an exception that leaves a slot. *)
Definition handle (now : Q) (i : input) (self : t) : option t :=
  let self := lift (DesktopPet.set_clock now) self in
  match i with
  | main_timer_timeout =>
      match main_timer self with
      | Some _ => Some (_on_main_timer self)
      | None => Some self
      end
  | animation_timer_timeout =>
      match DesktopPet.animation_timer (pet self) with
      | Some _ =>
          match DesktopPet._update_current_animation fs ANIMATIONS
                  (pet self) with
          | Some p => Some (set_pet p self)
          | None => None
          end
      | None => Some self
      end
  | free_active_timer_timeout =>
      match DesktopPet.free_active_timer (pet self) with
      | Some _ => _update_free_active self
      | None => Some self
      end
  | status_timer_timeout hour cpu_percent getGPUs =>
      Some (_update_status hour cpu_percent getGPUs self)
  | idle_timer_timeout => Some (_check_idle_time self)
  | mousePress button globalPos event_pos =>
      Some (mousePressEvent button globalPos event_pos self)
  | mouseMove buttons globalPos =>
      Some (mouseMoveEvent buttons globalPos self)
  | mouseRelease button event_pos =>
      Some (mouseReleaseEvent button event_pos self)
  | triggered a => Some (trigger a self)
  end.

(** A run of the event loop on time-stamped events. *)
Fixpoint run (events : list (Q * input)) (self : t) : option t :=
  match events with
  | [] => Some self
  | (now, i) :: events =>
      match handle now i self with
      | Some self => run events self
      | None => None
      end
  end.

(** [DesktopPet.__init__] for the whole widget; [pos0] is where the
    window system puts the window. *)
Definition init (rng : nat -> Z) (now : Q) (pos0 : QPoint) : t :=
  let p := DesktopPet.init fs ANIMATIONS rng now in
  let heixiu_sleep_image :=
    fst (ResourceManager.load_single_image fs (DesktopPet.resource_manager p)
           "heixiushuijiao" "1.png" (DesktopPet.original_size p)) in
  mk p SystemMonitor.init false now None 1 0%Q 0 None None
     heixiu_sleep_image pos0 false (Some 100).

End with_environment.

End PetWidget.

(** The timers of a pet are sound when the slot of each active timer
    finds the run state it expects: an active animation timer comes with a
    cursor in range, and nothing plays while the free-roaming timer is
    active. *)
Definition timers_sound
    (ANIMATIONS : AnimationType -> option AnimationConfig)
    (p : DesktopPet.t) : Prop :=
  (DesktopPet.animation_timer p <> None ->
   cursor_in_range ANIMATIONS (DesktopPet.animation_state p))
  /\ (DesktopPet.free_active_timer p <> None ->
      AnimationState.is_playing (DesktopPet.animation_state p) = false).

(** The direction of a walk is the one of its name. *)
Definition walk_consistent (w : PetWidget.t) : Prop :=
  (PetWidget.free_active_type w = Some "left_walk" ->
   PetWidget.free_active_direction w = -1)
  /\ (PetWidget.free_active_type w = Some "right_walk" ->
      PetWidget.free_active_direction w = 1).

(** [same_walk w w']: the free roaming of [w'] has the type and the
    direction of the one of [w]. *)
Definition same_walk (w w' : PetWidget.t) : Prop :=
  PetWidget.free_active_type w' = PetWidget.free_active_type w
  /\ PetWidget.free_active_direction w' = PetWidget.free_active_direction w.

(** [kept p q]: from [p] to [q] the force-sleep flag is the same, and the
    free-roaming timer has not been started. *)
Definition kept (p q : DesktopPet.t) : Prop :=
  DesktopPet.is_force_sleeping q = DesktopPet.is_force_sleeping p
  /\ (DesktopPet.free_active_timer p = None ->
      DesktopPet.free_active_timer q = None).

(** The geometry of the screen that [_move_window_horizontally] uses. *)
Definition screen_geometry (availableGeometry : option QRect) : QRect :=
  match availableGeometry with
  | Some g => g
  | None => mkQRect 0 0 1920 1080
  end.

(** A pet that walks: the free roaming is a walk to the left or to the
    right, without a time limit, and its timer is active. *)
Definition walking (w : PetWidget.t) : Prop :=
  PetWidget.free_active_type w ∈ [Some "left_walk"; Some "right_walk"]
  /\ PetWidget.free_active_duration w = 0
  /\ DesktopPet.free_active_timer (PetWidget.pet w) <> None.

(** The window lies between the left and the right edge of the screen. *)
Definition on_screen (g : QRect) (w : PetWidget.t) : Prop :=
  QRect_left g <= QPoint_x (PetWidget.pos w)
  <= QRect_right g - width (DesktopPet.window_size (PetWidget.pet w)).

(** The widget right after start-up at time [now] on an installation,
    with draws that all give the least value and a window at (100, 100). *)
Definition started_widget (fs : FileSystem) (now : Q) : PetWidget.t :=
  PetWidget.init fs DesktopPet.ANIMATIONS (fun _ => 0) now (mkQPoint 100 100).

(** * Properties of the scheduler *)

Section scheduler.

Import DesktopPet.

Variable fs : FileSystem.
Variable ANIMATIONS : AnimationType -> option AnimationConfig.

Implicit Types (self : DesktopPet.t) (a : AnimationType)
  (config : AnimationConfig).

Local Abbreviation start := (_start_animation fs ANIMATIONS).
Local Abbreviation playing self := (AnimationState.is_playing (animation_state self)).
Local Abbreviation active self := (AnimationState.current_animation (animation_state self)).
Local Abbreviation active_priority self :=
  (AnimationState.current_priority (animation_state self)).

(** *** Basic facts on the helpers *)

Lemma can_interrupt_playing st p :
  AnimationState.is_playing st = true ->
  AnimationState.can_interrupt st p
  = (priority_value (AnimationState.current_priority st) <? priority_value p).
Proof. intros H. unfold AnimationState.can_interrupt, priority_gt. now rewrite H. Qed.

Lemma can_interrupt_not_playing st p :
  AnimationState.is_playing st = false -> AnimationState.can_interrupt st p = true.
Proof. intros H. unfold AnimationState.can_interrupt. now rewrite H. Qed.

(** Stopping touches the timers, the media player, the window size, the
    log and the saved size, and nothing else. *)
Lemma stop_animation_state self :
  AnimationState.set_original_size None
    (animation_state (_stop_current_animation self))
  = AnimationState.set_original_size None (animation_state self).
Proof.
  unfold _stop_current_animation.
  destruct self as [rm st os fsl cl mf si ws at_ ft mp ck rg rp lg]; simpl.
  destruct st as [ca cp ip ci lc stt dr cf osz]; simpl.
  destruct mp as [[ps md]|]; simpl; try destruct ps; simpl;
    destruct osz as [sz|]; simpl; try destruct (QSize_bool sz); reflexivity.
Qed.

Lemma stop_timers self :
  animation_timer (_stop_current_animation self) = None
  /\ free_active_timer (_stop_current_animation self) = None.
Proof.
  unfold _stop_current_animation.
  destruct self as [rm st os fsl cl mf si ws at_ ft mp ck rg rp lg]; simpl.
  destruct st as [ca cp ip ci lc stt dr cf osz]; simpl.
  destruct mp as [[ps md]|]; simpl; try destruct ps; simpl;
    destruct osz as [sz|]; simpl; try destruct (QSize_bool sz); split; reflexivity.
Qed.

Lemma stop_media_player self mp :
  media_player (_stop_current_animation self) = Some mp ->
  PlayingState mp = false.
Proof.
  unfold _stop_current_animation.
  destruct self as [rm st os fsl cl mf si ws at_ ft mp0 ck rg rp lg]; simpl.
  destruct st as [ca cp ip ci lc stt dr cf osz]; simpl.
  destruct mp0 as [[ps md]|]; simpl; try destruct ps; simpl;
    destruct osz as [sz|]; simpl; try destruct (QSize_bool sz); simpl;
    intros [= <-]; reflexivity.
Qed.

Lemma stop_window_size self sz :
  AnimationState.original_size (animation_state self) = Some sz ->
  QSize_bool sz = true ->
  window_size (_stop_current_animation self) = sz
  /\ AnimationState.original_size
       (animation_state (_stop_current_animation self)) = None.
Proof.
  unfold _stop_current_animation.
  destruct self as [rm st os fsl cl mf si ws at_ ft mp0 ck rg rp lg]; simpl.
  destruct st as [ca cp ip ci lc stt dr cf osz]; simpl.
  intros -> Hv.
  destruct mp0 as [[ps md]|]; simpl; try destruct ps; simpl;
    rewrite Hv; simpl; split; reflexivity.
Qed.

Lemma stop_preserves self :
  resource_manager (_stop_current_animation self) = resource_manager self
  /\ click_timestamps (_stop_current_animation self) = click_timestamps self
  /\ rng_pos (_stop_current_animation self) = rng_pos self
  /\ main_frames (_stop_current_animation self) = main_frames self
  /\ original_size (_stop_current_animation self) = original_size self
  /\ clock (_stop_current_animation self) = clock self.
Proof.
  unfold _stop_current_animation.
  destruct self as [rm st os fsl cl mf si ws at_ ft mp0 ck rg rp lg]; simpl.
  destruct st as [ca cp ip ci lc stt dr cf osz]; simpl.
  destruct mp0 as [[ps md]|]; simpl; try destruct ps; simpl;
    destruct osz as [sz|]; simpl; try destruct (QSize_bool sz); simpl;
    repeat split.
Qed.

(** Loading frames only touches the resource manager. *)
Lemma get_animation_frames_state self a :
  exists rm,
    snd (_get_animation_frames fs ANIMATIONS self a)
    = set_resource_manager rm self.
Proof.
  unfold _get_animation_frames.
  destruct (ANIMATIONS a) as [config|].
  - destruct (ResourceManager.load_frames _ _ _ _ _) as [fr rm]. now exists rm.
  - exists (resource_manager self). now destruct self.
Qed.

(** A forced request, or one that passes the priority check, returns
    [true] exactly when the frames it loads are not empty. *)
Lemma start_animation_accepted self a config force :
  ANIMATIONS a = Some config ->
  force = true
  \/ AnimationState.can_interrupt (animation_state self) (priority config) = true ->
  fst (start self a force) = negb (bool_decide (frames_after_stop fs ANIMATIONS self a = [])).
Proof.
  intros Hc Hf. unfold _start_animation, frames_after_stop. rewrite Hc.
  assert (negb force
          && negb (AnimationState.can_interrupt (animation_state self)
                     (priority config)) = false) as ->.
  { destruct Hf as [-> | ->]; [reflexivity | now rewrite andb_false_r]. }
  destruct (_get_animation_frames fs ANIMATIONS _ a) as [[|f0 fr] s1];
    reflexivity.
Qed.

(** When it is accepted with frames, the requested animation is the one
    that plays. *)
Lemma start_animation_plays self a config force :
  ANIMATIONS a = Some config ->
  fst (start self a force) = true ->
  active (snd (start self a force)) = Some a
  /\ playing (snd (start self a force)) = true
  /\ active_priority (snd (start self a force)) = priority config
  /\ AnimationState.current_index (animation_state (snd (start self a force))) = 0
  /\ AnimationState.loop_count (animation_state (snd (start self a force))) = 0
  /\ AnimationState.cached_frames (animation_state (snd (start self a force)))
     = Some (frames_after_stop fs ANIMATIONS self a)
  /\ animation_timer (snd (start self a force)) = Some (timer_interval config).
Proof.
  intros Hc. unfold _start_animation, frames_after_stop. rewrite Hc.
  destruct (negb force && _); [discriminate|].
  destruct (_get_animation_frames fs ANIMATIONS _ a) as [[|f0 fr] s1];
    [discriminate|].
  intros _. simpl.
  assert (forall s, animation_state (play_sound fs config s) = animation_state s) as Hps.
  { intros s. unfold play_sound.
    destruct (has_sound config), (sound_file config) as [f|], (media_player s) as [mp|];
      try reflexivity.
    destruct (bool_decide (f = "")); [reflexivity|].
    destruct (ResourceManager.load_sound _ _ _ _) as [[sn|] rm]; reflexivity. }
  rewrite Hps.
  destruct (negb (Qeq_bool (size_scale config) 1)); simpl; repeat split.
Qed.

Lemma start_animation_rejected self a config :
  ANIMATIONS a = Some config ->
  playing self = true ->
  (priority_value (priority config) <= priority_value (active_priority self))%Z ->
  start self a false = (false, self).
Proof.
  intros Hc Hp Hle. unfold _start_animation. rewrite Hc.
  rewrite can_interrupt_playing by assumption.
  replace (_ <? _) with false by (symmetry; apply Z.ltb_ge; exact Hle).
  reflexivity.
Qed.

(** C4. A request with [force = false] made while an animation is
    playing, for a descriptor whose priority is less than or equal to the
    active priority, returns [false] and leaves the whole pet unchanged:
    run state, timers, media player, window size and event log (so no
    frame, size or audio command is emitted). *)
Theorem start_animation_rejects_not_higher_priority self a config :
  ANIMATIONS a = Some config ->
  playing self = true ->
  (priority_value (priority config) <= priority_value (active_priority self))%Z ->
  start self a false = (false, self).
Proof. exact (start_animation_rejected self a config). Qed.

(** C1 (amended). While a non-interruptible animation is playing, a
    request with [force = false] is decided by the priorities alone: it
    returns [false] and changes nothing when the requested priority is
    less than or equal to the active one, and when it is strictly greater
    it is handled exactly as a forced request (the [interruptible] flag is
    never read), returning [true] whenever the frames loaded are not
    empty. *)
Theorem start_animation_ignores_interruptible self cur cur_config a config :
  active self = Some cur ->
  ANIMATIONS cur = Some cur_config ->
  interruptible cur_config = false ->
  playing self = true ->
  ANIMATIONS a = Some config ->
  ((priority_value (priority config) <= priority_value (active_priority self))%Z ->
   start self a false = (false, self))
  /\ ((priority_value (active_priority self) < priority_value (priority config))%Z ->
      start self a false = start self a true
      /\ (frames_after_stop fs ANIMATIONS self a <> [] ->
          fst (start self a false) = true
          /\ active (snd (start self a false)) = Some a)).
Proof.
  intros _ _ _ Hp Hc. split.
  - intros Hle.
    now apply (start_animation_rejected self a config).
  - intros Hlt.
    assert (AnimationState.can_interrupt (animation_state self) (priority config)
            = true) as Hci.
    { rewrite can_interrupt_playing by assumption. now apply Z.ltb_lt. }
    assert (start self a false = start self a true) as Heq.
    { unfold _start_animation. rewrite Hc, Hci. reflexivity. }
    split; [exact Heq|]. intros Hne.
    assert (fst (start self a false) = true) as Hok.
    { rewrite (start_animation_accepted self a config false Hc)
        by (right; exact Hci).
      rewrite bool_decide_eq_false_2 by assumption. reflexivity. }
    split; [exact Hok|].
    now apply (start_animation_plays self a config false Hc Hok).
Qed.

(** What a request leaves alone, whatever its outcome. *)
Lemma play_sound_preserves config self :
  animation_state (play_sound fs config self) = animation_state self
  /\ click_timestamps (play_sound fs config self) = click_timestamps self
  /\ rng_pos (play_sound fs config self) = rng_pos self
  /\ animation_timer (play_sound fs config self) = animation_timer self.
Proof.
  unfold play_sound.
  destruct (has_sound config), (sound_file config) as [f|],
    (media_player self) as [mp|]; try (repeat split; reflexivity).
  destruct (bool_decide (f = "")); [repeat split; reflexivity|].
  destruct (ResourceManager.load_sound _ _ _ _) as [[sn|] rm];
    repeat split; reflexivity.
Qed.

Lemma start_animation_preserves self a force :
  click_timestamps (snd (start self a force)) = click_timestamps self
  /\ rng_pos (snd (start self a force)) = rng_pos self.
Proof.
  unfold _start_animation.
  destruct (ANIMATIONS a) as [config|]; [|split; reflexivity].
  destruct (negb force && _); [split; reflexivity|].
  destruct (stop_preserves self) as (_ & Hcl & Hrp & _).
  destruct (get_animation_frames_state (_stop_current_animation self) a)
    as [rm Hrm].
  destruct (_get_animation_frames fs ANIMATIONS _ a) as [[|f0 fr] s1];
    simpl in Hrm; subst s1.
  - simpl. split; assumption.
  - simpl.
    match goal with
    | |- context [play_sound fs config ?s] =>
        destruct (play_sound_preserves config s) as (_ & -> & -> & _)
    end.
    destruct (negb (Qeq_bool (size_scale config) 1)); simpl; split; assumption.
Qed.

(** The frames a request obtains do not depend on the event log. *)
Lemma frames_after_stop_emit e self a :
  frames_after_stop fs ANIMATIONS (emit e self) a
  = frames_after_stop fs ANIMATIONS self a.
Proof.
  unfold frames_after_stop, _get_animation_frames, _stop_current_animation.
  destruct (ANIMATIONS a) as [config|]; [|reflexivity].
  destruct self as [rm st os fsl cl mf si ws at_ ft mp0 ck rg rp lg]; simpl.
  destruct st as [ca cp ip ci lc stt dr cf osz]; simpl.
  destruct mp0 as [[ps md]|]; simpl; try destruct ps; simpl;
    destruct osz as [sz|]; simpl; try destruct (QSize_bool sz); simpl;
    destruct (ResourceManager.load_frames _ _ _ _ _); reflexivity.
Qed.

Lemma frames_after_stop_callback cur self a :
  frames_after_stop fs ANIMATIONS
    (call_completion_callback ANIMATIONS cur self) a
  = frames_after_stop fs ANIMATIONS self a.
Proof.
  unfold call_completion_callback.
  destruct cur as [c|]; [|reflexivity].
  destruct (ANIMATIONS c) as [config|]; [|reflexivity].
  destruct (on_complete config); [apply frames_after_stop_emit | reflexivity].
Qed.

(** C2 (amended). When a request is accepted (forced, or allowed by
    the priority check) and its frame load is empty, [_start_animation]
    returns [false] and the run-state fields [current_animation],
    [current_priority], [is_playing], [current_index], [loop_count],
    [start_time] and [cached_frames] are as before; but the previous
    animation has already been stopped: the animation timer and the
    free-activity timer are inactive, the media player is not playing, and
    a saved window size has been restored and cleared. *)
Theorem start_animation_without_frames self a config force :
  ANIMATIONS a = Some config ->
  force = true
  \/ AnimationState.can_interrupt (animation_state self) (priority config) = true ->
  frames_after_stop fs ANIMATIONS self a = [] ->
  fst (start self a force) = false
  /\ AnimationState.set_original_size None
       (animation_state (snd (start self a force)))
     = AnimationState.set_original_size None (animation_state self)
  /\ animation_timer (snd (start self a force)) = None
  /\ free_active_timer (snd (start self a force)) = None
  /\ (forall mp, media_player (snd (start self a force)) = Some mp ->
       PlayingState mp = false)
  /\ (forall sz,
        AnimationState.original_size (animation_state self) = Some sz ->
        QSize_bool sz = true ->
        window_size (snd (start self a force)) = sz
        /\ AnimationState.original_size
             (animation_state (snd (start self a force))) = None).
Proof.
  intros Hc Hf He.
  assert (start self a force
          = (false, snd (_get_animation_frames fs ANIMATIONS
                           (_stop_current_animation self) a))) as ->.
  { unfold _start_animation, frames_after_stop in *. rewrite Hc.
    assert (negb force
            && negb (AnimationState.can_interrupt (animation_state self)
                       (priority config)) = false) as ->.
    { destruct Hf as [-> | ->]; [reflexivity | now rewrite andb_false_r]. }
    destruct (_get_animation_frames fs ANIMATIONS _ a) as [fr s1].
    simpl in He. subst fr. reflexivity. }
  destruct (get_animation_frames_state (_stop_current_animation self) a)
    as [rm ->].
  cbn [fst snd].
  split; [reflexivity|].
  split; [apply stop_animation_state|].
  split; [apply stop_timers|].
  split; [apply stop_timers|].
  split; [intros mp; apply stop_media_player|].
  intros sz Hsz Hv. now apply stop_window_size.
Qed.

(** C5 (amended). When [_end_current_animation] is entered with the
    anger animation active, it force-starts the walk-away animation
    without consuming any random draw; walk-away then is the active
    animation with [is_playing = true] provided that the frames loaded for
    it are not empty. *)
Theorem anger_end_starts_walk_away self :
  active self = Some ANGER ->
  _end_current_animation fs ANIMATIONS self
  = snd (start (call_completion_callback ANIMATIONS (Some ANGER)
                  (emit enter_end_current_animation self))
               WALK_AWAY true)
  /\ rng_pos (_end_current_animation fs ANIMATIONS self) = rng_pos self
  /\ (forall config,
        ANIMATIONS WALK_AWAY = Some config ->
        frames_after_stop fs ANIMATIONS self WALK_AWAY <> [] ->
        active (_end_current_animation fs ANIMATIONS self) = Some WALK_AWAY
        /\ playing (_end_current_animation fs ANIMATIONS self) = true
        /\ active_priority (_end_current_animation fs ANIMATIONS self)
           = priority config).
Proof.
  intros Ha.
  assert (_end_current_animation fs ANIMATIONS self
          = snd (start (call_completion_callback ANIMATIONS (Some ANGER)
                          (emit enter_end_current_animation self))
                       WALK_AWAY true)) as Heq.
  { unfold _end_current_animation. rewrite Ha.
    rewrite bool_decide_eq_true_2 by reflexivity. reflexivity. }
  split; [exact Heq|]. rewrite Heq. split.
  - destruct (start_animation_preserves
                (call_completion_callback ANIMATIONS (Some ANGER)
                   (emit enter_end_current_animation self)) WALK_AWAY true)
      as [_ ->].
    unfold call_completion_callback.
    destruct (ANIMATIONS ANGER) as [c|]; [|reflexivity].
    destruct (on_complete c); reflexivity.
  - intros config Hc Hne.
    set (s := call_completion_callback ANIMATIONS (Some ANGER)
                (emit enter_end_current_animation self)).
    assert (fst (start s WALK_AWAY true) = true) as Hok.
    { rewrite (start_animation_accepted s WALK_AWAY config true Hc)
        by (left; reflexivity).
      subst s. rewrite frames_after_stop_callback, frames_after_stop_emit.
      rewrite bool_decide_eq_false_2 by assumption. reflexivity. }
    destruct (start_animation_plays s WALK_AWAY config true Hc Hok)
      as (H1 & H2 & H3 & _).
    repeat split; assumption.
Qed.

(** C10 (amended). When [_enter_sleep] goes through (the pet is
    neither sleeping nor force-sleeping), it sets [current_animation] to
    [SLEEP] and [current_priority] to [SYSTEM] and does not write
    [is_playing]; entered while nothing is playing, [is_playing] stays
    [false], so [can_interrupt] returns [true] for every priority and a
    request that is not forced, of any priority, passes the check. *)
Theorem enter_sleep_keeps_is_playing self :
  _is_sleeping self = false ->
  is_force_sleeping self = false ->
  active (_enter_sleep self) = Some SLEEP
  /\ active_priority (_enter_sleep self) = SYSTEM
  /\ playing (_enter_sleep self) = playing self
  /\ (playing self = false ->
      forall p,
        AnimationState.can_interrupt (animation_state (_enter_sleep self)) p
        = true).
Proof.
  intros Hs Hf.
  assert (active (_enter_sleep self) = Some SLEEP
          /\ active_priority (_enter_sleep self) = SYSTEM
          /\ playing (_enter_sleep self) = playing self) as (H1 & H2 & H3).
  { pose proof (f_equal AnimationState.is_playing (stop_animation_state self))
      as Hst.
    change (playing (_stop_current_animation self) = playing self) in Hst.
    unfold _enter_sleep. rewrite Hs, Hf. simpl.
    match goal with
    | |- context [match ?x with Some _ => _ | None => _ end] => destruct x
    end; simpl; repeat split; exact Hst. }
  repeat split; try assumption.
  intros Hp p. apply can_interrupt_not_playing. now rewrite H3.
Qed.

(** *** The event log along the tick path *)

Lemma quiet_trans lg1 lg2 lg3 :
  quiet lg1 lg2 -> quiet lg2 lg3 -> quiet lg1 lg3.
Proof.
  intros H12 H23. induction H23 as [|e lg' He Hc _ IH];
    [assumption | now constructor].
Qed.

Lemma quiet_filter_end lg lg' :
  quiet lg lg' -> filter is_enter_end lg' = filter is_enter_end lg.
Proof.
  induction 1 as [|e lg' He Hc _ IH]; [reflexivity|].
  rewrite filter_cons, He. simpl. exact IH.
Qed.

Lemma quiet_filter_callback lg lg' :
  quiet lg lg' ->
  filter is_call_on_complete lg' = filter is_call_on_complete lg.
Proof.
  induction 1 as [|e lg' He Hc _ IH]; [reflexivity|].
  rewrite filter_cons, Hc. simpl. exact IH.
Qed.

Ltac quiet_steps :=
  repeat first [ apply quiet_same
               | apply quiet_cons; [reflexivity | reflexivity |] ].

Lemma stop_quiet self : quiet (log self) (log (_stop_current_animation self)).
Proof.
  unfold _stop_current_animation.
  destruct self as [rm st os fsl cl mf si ws at_ ft mp0 ck rg rp lg]; simpl.
  destruct st as [ca cp ip ci lc stt dr cf osz]; simpl.
  destruct mp0 as [[ps md]|]; simpl; try destruct ps; simpl;
    destruct osz as [sz|]; simpl; try destruct (QSize_bool sz); simpl;
    quiet_steps.
Qed.

Lemma play_sound_quiet config self :
  quiet (log self) (log (play_sound fs config self)).
Proof.
  unfold play_sound.
  destruct (has_sound config), (sound_file config) as [f|],
    (media_player self) as [mp|]; try apply quiet_same.
  destruct (bool_decide (f = "")); [apply quiet_same|].
  destruct (ResourceManager.load_sound _ _ _ _) as [[sn|] rm]; simpl;
    quiet_steps.
Qed.

Lemma start_animation_quiet self a force :
  quiet (log self) (log (snd (start self a force))).
Proof.
  unfold _start_animation.
  destruct (ANIMATIONS a) as [config|]; [|apply quiet_same].
  destruct (negb force && _); [apply quiet_same|].
  pose proof (stop_quiet self) as Hq.
  destruct (get_animation_frames_state (_stop_current_animation self) a)
    as [rm Hrm].
  destruct (_get_animation_frames fs ANIMATIONS _ a) as [[|f0 fr] s1];
    simpl in Hrm; subst s1; simpl; [exact Hq|].
  apply quiet_cons; [reflexivity | reflexivity |].
  eapply quiet_trans; [|apply play_sound_quiet]. simpl.
  apply quiet_cons; [reflexivity | reflexivity |].
  destruct (negb (Qeq_bool (size_scale config) 1)); simpl; quiet_steps;
    exact Hq.
Qed.

Lemma show_last_main_frame_quiet self :
  quiet (log self) (log (show_last_main_frame self)).
Proof.
  unfold show_last_main_frame.
  destruct (last (main_frames self)); simpl; quiet_steps.
Qed.

(** Entering [_end_current_animation] is recorded exactly once. *)
Lemma end_current_animation_count self :
  end_count (_end_current_animation fs ANIMATIONS self) = S (end_count self).
Proof.
  assert (forall s, end_count (call_completion_callback ANIMATIONS
                                 (active self) s) = end_count s) as Hcb.
  { intros s. unfold call_completion_callback.
    destruct (active self) as [c|]; [|reflexivity].
    destruct (ANIMATIONS c) as [config|]; [|reflexivity].
    destruct (on_complete config); reflexivity. }
  assert (forall s, end_count (_stop_current_animation s) = end_count s) as Hst.
  { intros s. unfold end_count. now rewrite (quiet_filter_end _ _ (stop_quiet s)). }
  assert (forall s b f, end_count (snd (start s b f)) = end_count s) as Hsa.
  { intros s b f. unfold end_count.
    now rewrite (quiet_filter_end _ _ (start_animation_quiet s b f)). }
  assert (forall s,
            end_count (show_last_main_frame
                         (set_animation_state
                            (AnimationState.reset
                               (animation_state (_stop_current_animation s)))
                            (_stop_current_animation s)))
            = end_count s) as Hfb.
  { intros s. unfold end_count.
    rewrite (quiet_filter_end _ _ (show_last_main_frame_quiet _)). simpl.
    apply Hst. }
  unfold _end_current_animation.
  set (s1 := call_completion_callback ANIMATIONS (active self)
               (emit enter_end_current_animation self)).
  assert (end_count s1 = S (end_count self)) as H1.
  { subst s1. rewrite Hcb. reflexivity. }
  destruct (bool_decide (active self = Some ANGER)); [now rewrite Hsa|].
  destruct (bool_decide (_ ∈ _)); [|now rewrite Hfb].
  unfold randint. simpl.
  destruct (_ <=? 30); [rewrite Hsa | rewrite Hfb]; exact H1.
Qed.

(** *** One tick *)

Ltac tick_prelude Hc Hne Hr :=
  let Hp := fresh "Hp" in let Hcf := fresh "Hcf" in
  let Ha := fresh "Ha" in let Hi := fresh "Hi" in let Hl := fresh "Hl" in
  destruct Hr as (Hp & Hcf & Ha & Hi & Hl);
  unfold _update_current_animation; rewrite Hp, Hcf;
  match goal with
  | frs : list QPixmap |- _ =>
      destruct frs as [|?f0 ?fr]; [now contradict Hne|]
  end;
  rewrite Ha, Hc, Hi.

(** The cursor is inside the frame list: the frame is shown and the
    cursor advances. *)
Lemma tick_show a config (frs : list QPixmap) i l self :
  ANIMATIONS a = Some config ->
  frs <> [] ->
  running a frs i l self ->
  0 <= i < Z.of_nat (length frs) ->
  exists s,
    _update_current_animation fs ANIMATIONS self = Some s
    /\ running a frs (i + 1) l s
    /\ end_count s = end_count self
    /\ on_complete_count s = on_complete_count self
    /\ shown_count s = S (shown_count self).
Proof.
  intros Hc Hne Hr Hi0.
  assert (exists x, py_index frs i = Some x) as [x Hx].
  { unfold py_index. replace (0 <=? i) with true by (symmetry; apply Z.leb_le; lia).
    apply lookup_lt_is_Some_2. lia. }
  pose proof Hr as (Hp' & Hcf' & Ha' & Hi' & Hl').
  tick_prelude Hc Hne Hr.
  replace (i <? _) with true by (symmetry; apply Z.ltb_lt; apply Hi0).
  rewrite Hx. eexists. split; [reflexivity|].
  split; [|repeat split].
  unfold running. simpl. rewrite Hp', Hcf', Ha', Hl'. repeat split.
Qed.

(** The cursor has reached the frame count under the forever sentinel:
    it goes back to 0, and nothing else changes. *)
Lemma tick_wrap_forever a config (frs : list QPixmap) i l self :
  ANIMATIONS a = Some config ->
  frs <> [] ->
  running a frs i l self ->
  Z.of_nat (length frs) <= i ->
  loops config = -1 ->
  exists s,
    _update_current_animation fs ANIMATIONS self = Some s
    /\ running a frs 0 l s
    /\ log s = log self.
Proof.
  intros Hc Hne Hr Hi0 Hloops.
  pose proof Hr as (Hp' & Hcf' & Ha' & Hi' & Hl').
  tick_prelude Hc Hne Hr.
  replace (i <? _) with false by (symmetry; apply Z.ltb_ge; exact Hi0).
  rewrite Hloops. simpl. eexists. split; [reflexivity|].
  split; [|reflexivity].
  unfold running. simpl. rewrite Hp', Hcf', Ha', Hl'. repeat split.
Qed.

(** The cursor has reached the frame count and loops remain: the cursor
    goes back to 0 and the loop counter is incremented. *)
Lemma tick_wrap_continue a config (frs : list QPixmap) i l self :
  ANIMATIONS a = Some config ->
  frs <> [] ->
  running a frs i l self ->
  Z.of_nat (length frs) <= i ->
  loops config <> -1 ->
  l + 1 < loops config ->
  exists s,
    _update_current_animation fs ANIMATIONS self = Some s
    /\ running a frs 0 (l + 1) s
    /\ log s = log self.
Proof.
  intros Hc Hne Hr Hi0 Hfin Hlt.
  pose proof Hr as (Hp' & Hcf' & Ha' & Hi' & Hl').
  tick_prelude Hc Hne Hr.
  replace (i <? _) with false by (symmetry; apply Z.ltb_ge; exact Hi0).
  replace (loops config =? -1) with false by (symmetry; now apply Z.eqb_neq).
  simpl. rewrite Hl'.
  replace (loops config <=? l + 1) with false by (symmetry; apply Z.leb_gt; lia).
  eexists. split; [reflexivity|]. split; [|reflexivity].
  unfold running. simpl. rewrite Hp', Hcf', Ha'. repeat split.
Qed.

(** The cursor has reached the frame count on the last loop: the tick
    enters [_end_current_animation]. *)
Lemma tick_wrap_end a config (frs : list QPixmap) i l self :
  ANIMATIONS a = Some config ->
  frs <> [] ->
  running a frs i l self ->
  Z.of_nat (length frs) <= i ->
  loops config <> -1 ->
  loops config <= l + 1 ->
  exists s,
    _update_current_animation fs ANIMATIONS self = Some s
    /\ end_count s = S (end_count self).
Proof.
  intros Hc Hne Hr Hi0 Hfin Hle.
  pose proof Hr as (Hp' & Hcf' & Ha' & Hi' & Hl').
  tick_prelude Hc Hne Hr.
  replace (i <? _) with false by (symmetry; apply Z.ltb_ge; exact Hi0).
  replace (loops config =? -1) with false by (symmetry; now apply Z.eqb_neq).
  simpl. rewrite Hl'.
  replace (loops config <=? l + 1) with true by (symmetry; apply Z.leb_le; lia).
  eexists. split; [reflexivity|].
  rewrite end_current_animation_count. reflexivity.
Qed.

(** Nothing is playing, or there are no frames: the tick does nothing. *)
Lemma tick_idle self :
  playing self = false
  \/ AnimationState.cached_frames (animation_state self) = None
  \/ AnimationState.cached_frames (animation_state self) = Some [] ->
  _update_current_animation fs ANIMATIONS self = Some self.
Proof.
  unfold _update_current_animation.
  intros [-> | [-> | ->]]; [reflexivity | |];
    destruct (playing self); reflexivity.
Qed.

(** *** Sequences of ticks *)

(** Position of a finite animation after [k] ticks, as long as it has not
    ended: [k = l * (F + 1) + i] with cursor [i] and [l] completed loops,
    and [l * F + i] frames have been shown. *)
Lemma ticks_position a config (frs : list QPixmap) self :
  ANIMATIONS a = Some config ->
  frs <> [] ->
  1 <= loops config ->
  running a frs 0 0 self ->
  forall k : nat,
    Z.of_nat k < loops config * (Z.of_nat (length frs) + 1) ->
    exists s i l,
      ticks fs ANIMATIONS k self = Some s
      /\ running a frs i l s
      /\ Z.of_nat k = l * (Z.of_nat (length frs) + 1) + i
      /\ 0 <= i <= Z.of_nat (length frs)
      /\ 0 <= l < loops config
      /\ end_count s = end_count self
      /\ Z.of_nat (shown_count s)
         = Z.of_nat (shown_count self) + l * Z.of_nat (length frs) + i.
Proof.
  intros Hc Hne HN Hr0.
  set (F := Z.of_nat (length frs)).
  assert (0 <= F) as HF by (subst F; lia).
  induction k as [|k IH]; intros Hk.
  - exists self, 0, 0.
    split; [reflexivity|]. split; [exact Hr0|]. repeat split; lia.
  - destruct IH as (s & i & l & Ht & Hr & Hpos & Hi & Hl & He & Hs); [nia|].
    simpl. rewrite Ht. simpl.
    destruct (Z_lt_le_dec i F) as [Hlt | Hge].
    + destruct (tick_show a config frs i l s Hc Hne Hr ltac:(subst F; lia))
        as (s' & Hu & Hr' & He' & _ & Hs').
      exists s', (i + 1), l.
      split; [exact Hu|]. split; [exact Hr'|].
      split; [lia|]. split; [lia|]. split; [lia|].
      split; [congruence | lia].
    + assert (i = F) as -> by lia.
      assert (l + 1 < loops config) as Hl' by nia.
      destruct (tick_wrap_continue a config frs F l s Hc Hne Hr
                  ltac:(subst F; lia) ltac:(lia) Hl')
        as (s' & Hu & Hr' & Hlog).
      exists s', 0, (l + 1).
      split; [exact Hu|]. split; [exact Hr'|].
      split; [lia|]. split; [lia|]. split; [lia|]. split.
      * unfold end_count. rewrite Hlog. exact He.
      * unfold shown_count in *. rewrite Hlog. lia.
Qed.

(** C3 (amended). For an animation with a finite loop count [N >= 1]
    whose request was accepted with [F >= 1] frames, the run from
    acceptance to natural termination takes exactly [N * (F + 1)]
    invocations of [_update_current_animation]: each loop takes [F] ticks
    that show a frame and advance the cursor, and one more tick that wraps
    the cursor.  No earlier tick enters [_end_current_animation], the
    tick number [N * (F + 1)] enters it once, and exactly [N * F] of the
    ticks showed a frame. *)
Theorem finite_animation_tick_count self0 a config force :
  ANIMATIONS a = Some config ->
  1 <= loops config ->
  fst (start self0 a force) = true ->
  let self := snd (start self0 a force) in
  let F := length (frames_after_stop fs ANIMATIONS self0 a) in
  let N := Z.to_nat (loops config) in
  (1 <= F)%nat
  /\ (forall k, (k < N * (F + 1))%nat ->
       exists s, ticks fs ANIMATIONS k self = Some s
                 /\ end_count s = end_count self
                 /\ playing s = true
                 /\ active s = Some a)
  /\ (exists s, ticks fs ANIMATIONS (N * (F + 1)) self = Some s
                /\ end_count s = S (end_count self))
  /\ (exists s, ticks fs ANIMATIONS (N * (F + 1) - 1) self = Some s
                /\ shown_count s = (shown_count self + N * F)%nat).
Proof.
  intros Hc HN Hok self F N.
  destruct (start_animation_plays self0 a config force Hc Hok)
    as (Ha & Hp & _ & Hi & Hl & Hcf & _).
  set (frs := frames_after_stop fs ANIMATIONS self0 a) in *.
  assert (frs <> []) as Hne.
  { intros He. unfold _start_animation in Hok. rewrite Hc in Hok.
    destruct (negb force && _); [discriminate|].
    subst frs. unfold frames_after_stop in He.
    destruct (_get_animation_frames fs ANIMATIONS _ a) as [[|f0 fr] s1];
      [discriminate | discriminate He]. }
  assert (running a frs 0 0 self) as Hr0 by (repeat split; assumption).
  assert (1 <= F)%nat as HF1.
  { subst F. destruct frs; [now contradict Hne | simpl; lia]. }
  assert (Z.of_nat (N * (F + 1))
          = loops config * (Z.of_nat (length frs) + 1)) as HNF.
  { subst N F. rewrite Nat2Z.inj_mul, Nat2Z.inj_add, Z2Nat.id by lia. lia. }
  split; [exact HF1|]. split; [|split].
  - intros k Hk.
    destruct (ticks_position a config frs self Hc Hne HN Hr0 k ltac:(lia))
      as (s & i & l & Ht & Hr & _ & _ & _ & He & _).
    exists s. destruct Hr as (Hp' & _ & Ha' & _). repeat split; assumption.
  - assert (N * (F + 1) = S (N * (F + 1) - 1))%nat as -> by nia.
    destruct (ticks_position a config frs self Hc Hne HN Hr0
                (N * (F + 1) - 1)%nat ltac:(lia))
      as (s & i & l & Ht & Hr & Hpos & Hi' & Hl' & He & _).
    assert (l = loops config - 1 /\ i = Z.of_nat (length frs)) as [-> ->].
    { assert (Z.of_nat (N * (F + 1) - 1)
              = loops config * (Z.of_nat (length frs) + 1) - 1) by lia.
      nia. }
    destruct (tick_wrap_end a config frs _ _ s Hc Hne Hr ltac:(lia)
                ltac:(lia) ltac:(lia)) as (s' & Hu & He').
    exists s'. simpl. rewrite Ht. simpl. split; [exact Hu | congruence].
  - destruct (ticks_position a config frs self Hc Hne HN Hr0
                (N * (F + 1) - 1)%nat ltac:(lia))
      as (s & i & l & Ht & Hr & Hpos & Hi' & Hl' & _ & Hs).
    assert (l = loops config - 1 /\ i = Z.of_nat (length frs)) as [-> ->].
    { assert (Z.of_nat (N * (F + 1) - 1)
              = loops config * (Z.of_nat (length frs) + 1) - 1) by lia.
      nia. }
    exists s. split; [exact Ht|].
    apply Nat2Z.inj. rewrite Hs, Nat2Z.inj_add, Nat2Z.inj_mul.
    subst N F. rewrite Z2Nat.id by lia. lia.
Qed.

(** C7. An animation whose descriptor has the forever sentinel
    ([loops = -1]) is never ended by the tick path: after any number of
    ticks there has been no entry into [_end_current_animation] and no
    call of a completion callback, the animation is still the active one,
    [is_playing] is as it was and the loop counter has not moved; and a
    tick that finds the cursor at the frame count puts it back to 0
    without touching the loop counter. *)
Theorem forever_animation_never_ends self a config :
  active self = Some a ->
  ANIMATIONS a = Some config ->
  loops config = -1 ->
  0 <= AnimationState.current_index (animation_state self) ->
  (forall k : nat,
     exists s,
       ticks fs ANIMATIONS k self = Some s
       /\ end_count s = end_count self
       /\ on_complete_count s = on_complete_count self
       /\ active s = Some a
       /\ playing s = playing self
       /\ AnimationState.loop_count (animation_state s)
          = AnimationState.loop_count (animation_state self))
  /\ (forall frs : list QPixmap,
        playing self = true ->
        AnimationState.cached_frames (animation_state self) = Some frs ->
        frs <> [] ->
        Z.of_nat (length frs)
        <= AnimationState.current_index (animation_state self) ->
        exists s,
          _update_current_animation fs ANIMATIONS self = Some s
          /\ AnimationState.current_index (animation_state s) = 0
          /\ AnimationState.loop_count (animation_state s)
             = AnimationState.loop_count (animation_state self)
          /\ playing s = true
          /\ log s = log self).
Proof.
  intros Ha Hc Hloops Hi0. split.
  - assert (forall k : nat,
              exists s,
                ticks fs ANIMATIONS k self = Some s
                /\ end_count s = end_count self
                /\ on_complete_count s = on_complete_count self
                /\ active s = Some a
                /\ playing s = playing self
                /\ AnimationState.loop_count (animation_state s)
                   = AnimationState.loop_count (animation_state self)
                /\ AnimationState.cached_frames (animation_state s)
                   = AnimationState.cached_frames (animation_state self)
                /\ 0 <= AnimationState.current_index (animation_state s))
      as Hinv.
    { induction k as [|k IH].
      - exists self. repeat split; assumption.
      - destruct IH as (s & Ht & He & Ho & Ha' & Hp & Hl & Hcf & Hi).
        simpl. rewrite Ht. simpl.
        destruct (playing s) eqn:Eplay;
          [|exists s; rewrite tick_idle by (left; exact Eplay);
            repeat split; first [assumption | congruence]].
        destruct (AnimationState.cached_frames (animation_state s))
          as [[|f0 fr]|] eqn:Ecf;
          [exists s; rewrite tick_idle by (right; right; exact Ecf);
           repeat split; first [assumption | congruence]
          | |exists s; rewrite tick_idle by (right; left; exact Ecf);
             repeat split; first [assumption | congruence]].
        assert (running a (f0 :: fr)
                  (AnimationState.current_index (animation_state s))
                  (AnimationState.loop_count (animation_state s)) s) as Hr
          by (repeat split; first [assumption | congruence]).
        destruct (Z_lt_le_dec
                    (AnimationState.current_index (animation_state s))
                    (Z.of_nat (length (f0 :: fr)))) as [Hlt | Hge].
        + destruct (tick_show a config (f0 :: fr) _ _ s Hc ltac:(discriminate)
                      Hr ltac:(lia))
            as (s' & Hu & (Hp' & Hcf' & Ha'' & Hi' & Hl') & He' & Ho' & _).
          exists s'. repeat split; try congruence. lia.
        + destruct (tick_wrap_forever a config (f0 :: fr) _ _ s Hc
                      ltac:(discriminate) Hr Hge Hloops)
            as (s' & Hu & (Hp' & Hcf' & Ha'' & Hi' & Hl') & Hlog).
          exists s'. unfold end_count, on_complete_count in *.
          rewrite Hlog. repeat split; try congruence. lia. }
    intros k. destruct (Hinv k) as (s & H1 & H2 & H3 & H4 & H5 & H6 & _).
    exists s. repeat split; assumption.
  - intros frs Hp Hcf Hne Hge.
    destruct (tick_wrap_forever a config frs _ _ self Hc Hne
                ltac:(repeat split; [exact Hp | exact Hcf | exact Ha])
                Hge Hloops)
      as (s & Hu & (Hp' & _ & _ & Hi' & Hl') & Hlog).
    exists s. repeat split; assumption.
Qed.

(** *** The click-burst detector *)

Local Abbreviation click_at := (click fs ANIMATIONS).
Local Abbreviation click_all := (clicks fs ANIMATIONS).

(** The time stamps of the buffer that a click at [now] keeps. *)
Local Abbreviation kept now self :=
  (filter (λ t : Q, Qle_bool (now - t) 10) (click_timestamps self)).

Lemma filter_all {A} (P : A -> Prop) `{!forall x, Decision (P x)} (l : list A) :
  Forall P l -> filter P l = l.
Proof.
  induction 1 as [|x l Hx _ IH]; [reflexivity|].
  rewrite filter_cons_True by assumption. now rewrite IH.
Qed.

Lemma click_below self now :
  (length (kept now self) < 14)%nat ->
  click_at self now
  = set_click_timestamps (kept now self ++ [now]) (set_clock now self).
Proof.
  intros Hlen. unfold click, _check_anger_condition. simpl.
  rewrite length_app. simpl.
  replace (15 <=? _) with false by (symmetry; apply Z.leb_gt; lia).
  reflexivity.
Qed.

Lemma click_trigger self now :
  (14 <= length (kept now self))%nat ->
  click_at self now
  = snd (start (set_click_timestamps [] (set_clock now self)) ANGER true).
Proof.
  intros Hlen. unfold click, _check_anger_condition. simpl.
  rewrite length_app. simpl.
  replace (15 <=? _) with true by (symmetry; apply Z.leb_le; lia).
  reflexivity.
Qed.

Lemma last_cons_default {A} (c x : A) (l : list A) :
  default c (last (x :: l)) = default x (last l).
Proof.
  destruct l as [|y l]; [reflexivity|].
  rewrite last_cons_cons.
  destruct (last (y :: l)) eqn:E; [reflexivity|].
  now apply last_None in E.
Qed.

Lemma clicks_cons now times self :
  click_all (now :: times) self = click_all times (click_at self now).
Proof. reflexivity. Qed.

Lemma clicks_snoc times now self :
  click_all (times ++ [now]) self = click_at (click_all times self) now.
Proof. unfold clicks. now rewrite fold_left_app. Qed.

(** Fewer than 15 clicks in all cannot fill the buffer: they only change
    the buffer and the clock. *)
Lemma clicks_few times : forall self,
  (length (click_timestamps self) + length times < 15)%nat ->
  exists buf,
    click_all times self
    = set_click_timestamps buf
        (set_clock (default (clock self) (last times)) self)
    /\ (length buf <= length (click_timestamps self) + length times)%nat.
Proof.
  induction times as [|now times IH]; intros self Hlen.
  - exists (click_timestamps self). split; [now destruct self | simpl; lia].
  - pose proof (length_filter (λ t : Q, Qle_bool (now - t) 10)
                  (click_timestamps self)) as Hk.
    simpl in Hlen. rewrite clicks_cons, click_below by lia.
    destruct (IH (set_click_timestamps (kept now self ++ [now])
                    (set_clock now self))) as (buf & Heq & Hb).
    { simpl. rewrite length_app. simpl. lia. }
    exists buf. split.
    + rewrite Heq, last_cons_default. now destruct self.
    + simpl in Hb |- *. rewrite length_app in Hb. simpl in Hb. lia.
Qed.

(** Clicks that all fall in a window of 9 seconds are all kept. *)
Lemma clicks_in_window (t0 : Q) times : forall self,
  Forall (λ t, (t0 <= t /\ t <= t0 + 9)%Q) (click_timestamps self) ->
  Forall (λ t, (t0 <= t /\ t <= t0 + 9)%Q) times ->
  (length (click_timestamps self) + length times < 15)%nat ->
  click_all times self
  = set_click_timestamps (click_timestamps self ++ times)
      (set_clock (default (clock self) (last times)) self).
Proof.
  induction times as [|now times IH]; intros self Hbuf Htimes Hlen.
  - rewrite app_nil_r. now destruct self.
  - apply Forall_cons in Htimes as [Hnow Htimes].
    assert (kept now self = click_timestamps self) as Hkept.
    { apply filter_all. eapply Forall_impl; [exact Hbuf|].
      intros t Ht. simpl in Ht. apply Is_true_true, Qle_bool_iff. lra. }
    simpl in Hlen. rewrite clicks_cons, click_below by (rewrite Hkept; lia).
    rewrite Hkept, IH.
    + rewrite last_cons_default. simpl. rewrite <- app_assoc. simpl.
      now destruct self.
    + simpl. apply Forall_app. split; [exact Hbuf | now repeat constructor].
    + exact Htimes.
    + simpl. rewrite length_app. simpl. lia.
Qed.

(** C6. Each counted click first drops the time stamps older than 10
    seconds and then appends the current time; when the buffer then holds
    15 or more time stamps it is cleared and anger is force-started, once.
    In particular 15 clicks within 9 seconds, from an empty buffer, amount
    to one forced start of anger (the first 14 only fill the buffer) and
    leave the buffer empty, 14 clicks or fewer from an empty buffer only
    change the buffer and the clock, and a click after the clear leaves
    exactly its own time stamp in the buffer. *)
Theorem click_burst_detector self :
  (forall now,
     (forall t, t ∈ kept now self
                <-> t ∈ click_timestamps self /\ (now - t <= 10)%Q)
     /\ ((length (kept now self) < 14)%nat ->
         click_at self now
         = set_click_timestamps (kept now self ++ [now]) (set_clock now self))
     /\ ((14 <= length (kept now self))%nat ->
         click_at self now
         = snd (start (set_click_timestamps [] (set_clock now self))
                  ANGER true)
         /\ click_timestamps (click_at self now) = []))
  /\ (forall times t0,
        click_timestamps self = [] ->
        length times = 15%nat ->
        Forall (λ t, (t0 <= t /\ t <= t0 + 9)%Q) times ->
        exists early final,
          times = early ++ [final]
          /\ click_all early self
             = set_click_timestamps early
                 (set_clock (default (clock self) (last early)) self)
          /\ click_all times self
             = snd (start (set_click_timestamps [] (set_clock final self))
                      ANGER true)
          /\ click_timestamps (click_all times self) = []
          /\ forall t, click_timestamps (click_at (click_all times self) t)
                       = [t])
  /\ (forall times,
        click_timestamps self = [] ->
        (length times <= 14)%nat ->
        exists buf,
          click_all times self
          = set_click_timestamps buf
              (set_clock (default (clock self) (last times)) self)).
Proof.
  split; [|split].
  - intros now. split; [|split].
    + intros t. rewrite list_elem_of_filter.
      rewrite Is_true_true, Qle_bool_iff. tauto.
    + apply click_below.
    + intros Hlen. rewrite click_trigger by assumption.
      split; [reflexivity|].
      now destruct (start_animation_preserves
                      (set_click_timestamps [] (set_clock now self))
                      ANGER true) as [-> _].
  - intros times t0 Hempty Hlen Hwin.
    destruct (exists_last (l := times)) as (early & final & ->);
      [intros ->; discriminate|].
    rewrite length_app in Hlen. simpl in Hlen.
    rewrite Forall_app, Forall_singleton in Hwin.
    destruct Hwin as [Hearly Hfinal].
    assert (click_all early self
            = set_click_timestamps early
                (set_clock (default (clock self) (last early)) self)) as He.
    { rewrite (clicks_in_window t0 early self); rewrite ?Hempty;
        [reflexivity | constructor | assumption | simpl; lia]. }
    assert (click_all (early ++ [final]) self
            = snd (start (set_click_timestamps [] (set_clock final self))
                     ANGER true)) as Hall.
    { rewrite clicks_snoc, He, click_trigger.
      - now destruct self.
      - simpl. rewrite filter_all; [lia|].
        eapply Forall_impl; [exact Hearly|].
        intros t Ht. cbv beta in Ht, Hfinal.
        apply Is_true_true, Qle_bool_iff. lra. }
    assert (click_timestamps (click_all (early ++ [final]) self) = [])
      as Hclear.
    { rewrite Hall.
      now destruct (start_animation_preserves
                      (set_click_timestamps [] (set_clock final self))
                      ANGER true) as [-> _]. }
    exists early, final. repeat split; try assumption.
    intros t. rewrite click_below; rewrite Hclear; [reflexivity | simpl; lia].
  - intros times Hempty Hlen.
    destruct (clicks_few times self) as (buf & Heq & _);
      [rewrite Hempty; simpl; lia|].
    now exists buf.
Qed.

End scheduler.

(** * Properties of the resource cache *)

Section resource_cache.

Import ResourceManager.

Variable fs : FileSystem.

Implicit Types (rm : ResourceManager.t) (size : QSize).

(** *** What each loader touches *)

Lemma fill_base_pixmap_cache_frames rm path :
  frame_cache (snd (fill_base_pixmap_cache fs rm path)) = frame_cache rm.
Proof.
  unfold fill_base_pixmap_cache.
  destruct (base_pixmap_cache rm !! path); [reflexivity|].
  destruct (QImage fs path); reflexivity.
Qed.

Lemma load_and_scale_frames rm path size :
  frame_cache (snd (_load_and_scale_pixmap fs rm path size)) = frame_cache rm.
Proof.
  unfold _load_and_scale_pixmap.
  pose proof (fill_base_pixmap_cache_frames rm path) as H.
  destruct (fill_base_pixmap_cache fs rm path) as [ok rm1]. simpl in H.
  destruct ok; simpl; [|exact H].
  destruct (base_pixmap_cache rm1 !! path) as [b|]; [|exact H].
  destruct (QSize_eqb _ _); exact H.
Qed.

Lemma load_frames_step_frames dir size acc i :
  frame_cache (snd (load_frames_step fs dir size acc i))
  = frame_cache (snd acc).
Proof.
  unfold load_frames_step. destruct acc as [fr rm].
  destruct (os_path_exists fs _); [|reflexivity].
  pose proof (load_and_scale_frames rm
                (os_path_join dir (pretty i +:+ ".png")) size) as H.
  destruct (_load_and_scale_pixmap fs rm _ size) as [[px|] rm1];
    simpl in H; [|exact H].
  destruct (negb (QPixmap_isNull px)); exact H.
Qed.

Lemma load_frames_loop_frames dir size l : forall acc,
  frame_cache (snd (fold_left (load_frames_step fs dir size) l acc))
  = frame_cache (snd acc).
Proof.
  induction l as [|i l IH]; intros acc; [reflexivity|].
  simpl. rewrite IH. apply load_frames_step_frames.
Qed.

(** [load_frames] leaves the cached sequences in place. *)
Lemma load_frames_keeps rm folder_name n size k fr :
  frame_cache rm !! k = Some fr ->
  frame_cache (snd (load_frames fs rm folder_name n size)) !! k = Some fr.
Proof.
  intros Hk. unfold load_frames.
  generalize (_get_cache_key folder_name None (Some size)). intros key.
  destruct (frame_cache rm !! key) eqn:Ekey; [exact Hk|].
  destruct (negb (os_path_exists fs _)); [exact Hk|].
  pose proof (load_frames_loop_frames (get_resource_path fs folder_name) size
                (range 1 (n + 1)) ([], rm)) as H.
  destruct (fold_left _ _ _) as [frs rm1]. simpl in H |- *.
  rewrite lookup_insert_ne; [now rewrite H|].
  intros Heq. rewrite Heq, Hk in Ekey. discriminate.
Qed.

(** A second [load_frames] for the same folder and size, with whatever
    frame count, returns the sequence of the first call and changes
    nothing. *)
Lemma load_frames_again rm folder_name n1 n2 size :
  load_frames fs (snd (load_frames fs rm folder_name n1 size))
    folder_name n2 size
  = load_frames fs rm folder_name n1 size.
Proof.
  unfold load_frames.
  generalize (_get_cache_key folder_name None (Some size)). intros key.
  destruct (frame_cache rm !! key) eqn:Ekey.
  - cbn [snd]. now rewrite Ekey.
  - destruct (os_path_exists fs (get_resource_path fs folder_name)) eqn:Edir;
      cbn [negb snd].
    + destruct (fold_left _ _ _) as [frs rm1]. cbn [snd frame_cache].
      now rewrite lookup_insert_eq.
    + now rewrite Ekey.
Qed.

(** *** Decodes from disk *)

Lemma filter_none {A} (P : A -> Prop) `{!forall x, Decision (P x)}
    (l : list A) :
  (forall x, x ∈ l -> ~ P x) -> filter P l = [].
Proof.
  induction l as [|x l IH]; intros Hall; [reflexivity|].
  rewrite filter_cons_False by (apply Hall; left).
  apply IH. intros y Hy. apply Hall. now right.
Qed.

Lemma consistent_same rm rm' :
  base_pixmap_cache rm' = base_pixmap_cache rm ->
  decodes rm' = decodes rm ->
  decodes_consistent fs rm -> decodes_consistent fs rm'.
Proof.
  unfold decodes_consistent, decode_count. intros -> -> H. exact H.
Qed.

Lemma fill_base_pixmap_cache_consistent rm path :
  decodes_consistent fs rm ->
  decodes_consistent fs (snd (fill_base_pixmap_cache fs rm path)).
Proof.
  intros H. unfold fill_base_pixmap_cache.
  destruct (base_pixmap_cache rm !! path) as [b|] eqn:Eb; [exact H|].
  destruct (QImage fs path) as [sz|] eqn:Eq; simpl.
  - intros p. destruct (H p) as [Hb Hd]. split.
    + intros b. simpl. destruct (decide (path = p)) as [<- | Hne].
      * rewrite lookup_insert_eq. intros [= <-]. now exists sz.
      * rewrite lookup_insert_ne by assumption. apply Hb.
    + intros Hp. destruct (Hd Hp) as [Hc Hin].
      unfold decode_count in *. simpl.
      destruct (decide (path = p)) as [<- | Hne].
      * split; [|intros _; rewrite lookup_insert_eq; eauto].
        rewrite filter_cons_True by reflexivity. simpl.
        assert (path ∉ decodes rm) as Hnot.
        { intros Hi. destruct (Hin Hi) as [x Hx]. congruence. }
        assert (filter (λ q, q = path) (decodes rm) = []) as ->; [|simpl; lia].
        apply filter_none. intros q Hq ->. contradiction.
      * rewrite filter_cons_False by assumption.
        split; [exact Hc|]. rewrite lookup_insert_ne by assumption.
        intros Hi. apply Hin. apply elem_of_cons in Hi as [-> | Hi];
          [contradiction | exact Hi].
  - intros p. destruct (H p) as [Hb Hd]. split; [exact Hb|].
    intros Hp. destruct (Hd Hp) as [Hc Hin].
    assert (path <> p) as Hne by (intros <-; rewrite Eq in Hp; now destruct Hp).
    unfold decode_count in *. simpl.
    rewrite filter_cons_False by assumption. split; [exact Hc|].
    intros Hi. apply Hin. apply elem_of_cons in Hi as [-> | Hi];
      [contradiction | exact Hi].
Qed.

Lemma load_and_scale_state rm path size :
  snd (_load_and_scale_pixmap fs rm path size)
  = snd (fill_base_pixmap_cache fs rm path).
Proof.
  unfold _load_and_scale_pixmap.
  destruct (fill_base_pixmap_cache fs rm path) as [[|] rm1]; [|reflexivity].
  simpl. destruct (base_pixmap_cache rm1 !! path); [|reflexivity].
  destruct (QSize_eqb _ _); reflexivity.
Qed.

Lemma load_and_scale_consistent rm path size :
  decodes_consistent fs rm ->
  decodes_consistent fs (snd (_load_and_scale_pixmap fs rm path size)).
Proof.
  rewrite load_and_scale_state. apply fill_base_pixmap_cache_consistent.
Qed.

Lemma load_frames_step_consistent dir size acc i :
  decodes_consistent fs (snd acc) ->
  decodes_consistent fs (snd (load_frames_step fs dir size acc i)).
Proof.
  intros H. unfold load_frames_step. destruct acc as [fr rm]. simpl in H.
  destruct (os_path_exists fs _); [|exact H].
  pose proof (load_and_scale_consistent rm
                (os_path_join dir (pretty i +:+ ".png")) size H) as H1.
  destruct (_load_and_scale_pixmap fs rm _ size) as [[px|] rm1];
    simpl in H1; [|exact H1].
  destruct (negb (QPixmap_isNull px)); exact H1.
Qed.

Lemma load_frames_loop_consistent dir size l : forall acc,
  decodes_consistent fs (snd acc) ->
  decodes_consistent fs (snd (fold_left (load_frames_step fs dir size) l acc)).
Proof.
  induction l as [|i l IH]; intros acc H; [exact H|].
  simpl. apply IH. now apply load_frames_step_consistent.
Qed.

Lemma load_frames_consistent rm folder_name n size :
  decodes_consistent fs rm ->
  decodes_consistent fs (snd (load_frames fs rm folder_name n size)).
Proof.
  intros H. unfold load_frames.
  destruct (frame_cache rm !! _); [exact H|].
  destruct (negb (os_path_exists fs _)); [exact H|].
  pose proof (load_frames_loop_consistent (get_resource_path fs folder_name)
                size (range 1 (n + 1)) ([], rm) H) as H1.
  destruct (fold_left _ _ _) as [frs rm1]. simpl in H1.
  eapply consistent_same; [| |exact H1]; reflexivity.
Qed.

Lemma load_single_image_consistent rm folder_name filename size :
  decodes_consistent fs rm ->
  decodes_consistent fs
    (snd (load_single_image fs rm folder_name filename size)).
Proof.
  intros H. unfold load_single_image.
  destruct (image_cache rm !! _); [exact H|].
  destruct (os_path_exists fs _); [|exact H].
  match goal with
  | |- context [_load_and_scale_pixmap fs rm ?path size] =>
      pose proof (load_and_scale_consistent rm path size H) as H1;
      destruct (_load_and_scale_pixmap fs rm path size) as [[px|] rm1]
  end; simpl in H1; [|exact H1].
  destruct (negb (QPixmap_isNull px)); [|exact H1].
  eapply consistent_same; [| |exact H1]; reflexivity.
Qed.

Lemma load_sound_consistent rm folder_name filename :
  decodes_consistent fs rm ->
  decodes_consistent fs (snd (load_sound fs rm folder_name filename)).
Proof.
  intros H. unfold load_sound.
  destruct (sound_cache rm !! _); [exact H|].
  destruct (os_path_exists fs _); [|exact H].
  eapply consistent_same; [| |exact H]; reflexivity.
Qed.

Lemma preload_resources_consistent rm animations default_size :
  decodes_consistent fs rm ->
  decodes_consistent fs (preload_resources fs rm animations default_size).
Proof.
  unfold preload_resources. generalize priority_animations.
  intros l. revert rm. induction l as [|a l IH]; intros rm H; [exact H|].
  simpl. apply IH. unfold preload_step.
  destruct (animations a); [|exact H]. now apply load_frames_consistent.
Qed.

Lemma run_calls_consistent cs : forall rm,
  decodes_consistent fs rm -> decodes_consistent fs (run_calls fs cs rm).
Proof.
  induction cs as [|c cs IH]; intros rm H; [exact H|].
  unfold run_calls. simpl. apply IH.
  destruct c; simpl.
  - now apply load_frames_consistent.
  - now apply load_single_image_consistent.
  - now apply load_sound_consistent.
  - now apply preload_resources_consistent.
Qed.

Lemma init_consistent : decodes_consistent fs init.
Proof.
  intros p. split.
  - intros b Hb. simpl in Hb. now rewrite lookup_empty in Hb.
  - intros _. unfold decode_count. simpl. split; [lia|].
    intros Hin. now apply not_elem_of_nil in Hin.
Qed.

(** A file that has been decoded is served from the base-pixmap cache:
    no further decode, at any size. *)
Lemma load_and_scale_cached rm path sz size :
  decodes_consistent fs rm ->
  QImage fs path = Some sz ->
  path ∈ decodes rm ->
  _load_and_scale_pixmap fs rm path size
  = (Some (if QSize_eqb sz size then fromImage path sz
           else scaled (fromImage path sz) (width size) (height size)),
     rm).
Proof.
  intros H Hq Hin. destruct (H path) as [Hb Hd].
  destruct Hd as [_ Hc]; [now rewrite Hq|].
  destruct (Hc Hin) as [b Hbase].
  destruct (Hb b Hbase) as (sz' & Hq' & ->).
  assert (sz' = sz) as -> by congruence.
  unfold _load_and_scale_pixmap, fill_base_pixmap_cache.
  rewrite Hbase. simpl. rewrite Hbase. simpl.
  destruct (QSize_eqb sz size); reflexivity.
Qed.

(** C8 (amended). A second [load_frames] call with the same folder
    and size returns the sequence of the first call and leaves the manager
    as it is, so it performs no decode; and across all loading calls on a
    fresh manager, every file whose image can be decoded is decoded from
    disk at most once: once decoded, later requests at any size are
    served from the cached base-resolution pixmap. *)
Theorem cache_idempotence :
  (forall rm folder_name n size,
     load_frames fs (snd (load_frames fs rm folder_name n size))
       folder_name n size
     = load_frames fs rm folder_name n size)
  /\ (forall cs path,
        is_Some (QImage fs path) ->
        (decode_count path (run_calls fs cs init) <= 1)%nat)
  /\ (forall cs path sz size,
        QImage fs path = Some sz ->
        path ∈ decodes (run_calls fs cs init) ->
        _load_and_scale_pixmap fs (run_calls fs cs init) path size
        = (Some (if QSize_eqb sz size then fromImage path sz
                 else scaled (fromImage path sz) (width size) (height size)),
           run_calls fs cs init)).
Proof.
  split; [|split].
  - intros rm folder_name n size. apply load_frames_again.
  - intros cs path Hq.
    destruct (run_calls_consistent cs init init_consistent path) as [_ Hd].
    now destruct (Hd Hq).
  - intros cs path sz size Hq Hin.
    apply load_and_scale_cached; [|assumption..].
    apply run_calls_consistent, init_consistent.
Qed.

(** *** Preloading *)

(** The size at which [preload_resources] loads the first frame. *)
Local Abbreviation preload_size default_size config :=
  (mkQSize (int (inject_Z (width default_size) * size_scale config))
           (int (inject_Z (height default_size) * size_scale config))).

Local Abbreviation frame_key config size :=
  (_get_cache_key (folder config) None (Some size)).

Lemma load_frames_step_length dir size acc i :
  (length (fst (load_frames_step fs dir size acc i)) <= S (length (fst acc)))%nat.
Proof.
  unfold load_frames_step. destruct acc as [fr rm]. simpl.
  destruct (os_path_exists fs _); [|simpl; lia].
  destruct (_load_and_scale_pixmap fs rm _ size) as [[px|] rm1];
    [|simpl; lia].
  destruct (negb (QPixmap_isNull px)); simpl; [|lia].
  rewrite length_app. simpl. lia.
Qed.

Lemma load_frames_loop_length dir size l : forall acc,
  (length (fst (fold_left (load_frames_step fs dir size) l acc))
   <= length (fst acc) + length l)%nat.
Proof.
  induction l as [|i l IH]; intros acc; simpl; [lia|].
  specialize (IH (load_frames_step fs dir size acc i)).
  pose proof (load_frames_step_length dir size acc i). lia.
Qed.

Lemma load_frames_short rm folder_name n size :
  n <= 1 ->
  short_entries rm ->
  short_entries (snd (load_frames fs rm folder_name n size)).
Proof.
  intros Hn H. unfold load_frames.
  generalize (_get_cache_key folder_name None (Some size)). intros key.
  destruct (frame_cache rm !! key) eqn:Ekey; [exact H|].
  destruct (negb (os_path_exists fs _)); [exact H|].
  pose proof (load_frames_loop_frames (get_resource_path fs folder_name) size
                (range 1 (n + 1)) ([], rm)) as Hfc.
  pose proof (load_frames_loop_length (get_resource_path fs folder_name) size
                (range 1 (n + 1)) ([], rm)) as Hlen.
  destruct (fold_left _ _ _) as [frs rm1]. simpl in Hfc, Hlen |- *.
  unfold range in Hlen. rewrite length_seqZ in Hlen.
  intros k fr. simpl. destruct (decide (key = k)) as [<- | Hne].
  - rewrite lookup_insert_eq. intros [= <-]. lia.
  - rewrite lookup_insert_ne by assumption. rewrite Hfc. apply H.
Qed.

Lemma preload_step_short animations default_size rm a :
  short_entries rm ->
  short_entries (preload_step fs animations default_size rm a).
Proof.
  intros H. unfold preload_step. destruct (animations a) as [config|];
    [|exact H].
  apply load_frames_short; [lia | exact H].
Qed.

Lemma preload_step_keeps animations default_size rm a k :
  is_Some (frame_cache rm !! k) ->
  is_Some (frame_cache (preload_step fs animations default_size rm a) !! k).
Proof.
  intros [fr Hk]. unfold preload_step.
  destruct (animations a) as [config|]; [|now exists fr].
  exists fr. now apply load_frames_keeps.
Qed.

(** When the resource directory exists, [load_frames] leaves a cached
    sequence under the key of its folder and size. *)
Lemma load_frames_caches rm folder_name n size :
  os_path_exists fs (get_resource_path fs folder_name) = true ->
  is_Some (frame_cache (snd (load_frames fs rm folder_name n size))
           !! _get_cache_key folder_name None (Some size)).
Proof.
  intros Hdir. unfold load_frames.
  generalize (_get_cache_key folder_name None (Some size)). intros key.
  destruct (frame_cache rm !! key) eqn:Ekey; [simpl; rewrite Ekey; eauto|].
  rewrite Hdir. simpl.
  destruct (fold_left _ _ _) as [frs rm1]. simpl.
  rewrite lookup_insert_eq. eauto.
Qed.

Lemma preload_loop animations default_size a config l : forall rm,
  a ∈ l ->
  animations a = Some config ->
  os_path_exists fs (get_resource_path fs (folder config)) = true ->
  short_entries rm ->
  exists fr,
    frame_cache (fold_left (preload_step fs animations default_size) l rm)
    !! frame_key config (preload_size default_size config) = Some fr
    /\ (length fr <= 1)%nat.
Proof.
  assert (forall l rm k,
            is_Some (frame_cache rm !! k) ->
            is_Some (frame_cache
                       (fold_left (preload_step fs animations default_size)
                          l rm) !! k)) as Hkeep.
  { clear l. induction l as [|b l IH]; intros rm k Hk; [exact Hk|].
    simpl. apply IH. now apply preload_step_keeps. }
  assert (forall l rm,
            short_entries rm ->
            short_entries
              (fold_left (preload_step fs animations default_size) l rm))
    as Hshort.
  { clear l. induction l as [|b l IH]; intros rm Hs; [exact Hs|].
    simpl. apply IH. now apply preload_step_short. }
  intros rm Hin Hc Hdir Hs.
  assert (is_Some
            (frame_cache (fold_left (preload_step fs animations default_size)
                            l rm)
             !! frame_key config (preload_size default_size config)))
    as [fr Hfr].
  { revert rm Hs. induction l as [|b l IH]; intros rm Hs;
      [now apply elem_of_nil in Hin|].
    apply elem_of_cons in Hin as [<- | Hin].
    - simpl. apply Hkeep. unfold preload_step. rewrite Hc.
      now apply load_frames_caches.
    - simpl. apply IH; [exact Hin|]. now apply preload_step_short. }
  exists fr. split; [exact Hfr|]. exact (Hshort l rm Hs _ _ Hfr).
Qed.

(** C9. The key of the frame cache is made of the folder and the
    size only, so two [load_frames] calls for the same folder and size
    with different frame counts return the sequence of the first call;
    whatever [preload_resources] has cached for a priority animation is
    what every later [load_frames] for that folder and size returns, with
    any frame count; and on a manager whose cached sequences hold at most
    one frame (a fresh one in particular), the sequence that the preload
    caches for a priority animation whose directory exists holds at most
    one frame. *)
Theorem frame_cache_key_ignores_frame_count :
  (forall rm folder_name n1 n2 size,
     load_frames fs (snd (load_frames fs rm folder_name n1 size))
       folder_name n2 size
     = load_frames fs rm folder_name n1 size)
  /\ (forall rm animations default_size a config fr,
        a ∈ priority_animations ->
        animations a = Some config ->
        frame_cache (preload_resources fs rm animations default_size)
        !! frame_key config (preload_size default_size config) = Some fr ->
        forall n,
          load_frames fs (preload_resources fs rm animations default_size)
            (folder config) n (preload_size default_size config)
          = (fr, preload_resources fs rm animations default_size))
  /\ (forall rm animations default_size a config,
        short_entries rm ->
        a ∈ priority_animations ->
        animations a = Some config ->
        os_path_exists fs (get_resource_path fs (folder config)) = true ->
        exists fr,
          frame_cache (preload_resources fs rm animations default_size)
          !! frame_key config (preload_size default_size config) = Some fr
          /\ (length fr <= 1)%nat).
Proof.
  split; [|split].
  - intros rm folder_name n1 n2 size. apply load_frames_again.
  - intros rm animations default_size a config fr _ _ Hfr n.
    unfold load_frames. now rewrite Hfr.
  - intros rm animations default_size a config Hs Hin Hc Hdir.
    now apply (preload_loop animations default_size a config).
Qed.

End resource_cache.

(** * Runs of the program on concrete installations *)

Section examples.

Import DesktopPet.

Local Abbreviation start fs := (_start_animation fs ANIMATIONS).
Local Abbreviation playing self :=
  (AnimationState.is_playing (animation_state self)).
Local Abbreviation active self :=
  (AnimationState.current_animation (animation_state self)).

(** The preload leaves one frame of the main animation in the cache, and
    this is all that the pet then has as [main_frames]. *)
Example main_frames_after_preload :
  length (main_frames (started_pet fs_full)) = 1%nat.
Proof. vm_compute. reflexivity. Qed.

(** The descriptors of the catalogue used below. *)
Local Abbreviation BLINK_config :=
  (mkAnimationConfig "zhayan" 2 100 1 false None BACKGROUND true 1%Q None).
Local Abbreviation BURP_config :=
  (mkAnimationConfig "dage1" 45 33 1 false None INTERACTION false 1%Q None).
Local Abbreviation WALK_AWAY_config :=
  (mkAnimationConfig "zoukai" 20 100 1 false None SPECIAL false 1%Q None).
Local Abbreviation ANXIETY_config :=
  (mkAnimationConfig "jiaolv" 2 100 (-1) false None SYSTEM false 1%Q None).
Local Abbreviation MAIN_config :=
  (mkAnimationConfig "xiaoheichuchang2" 34 100 1 false None IDLE true 1%Q
     None).

(** C4, on the pet playing the burp animation (priority INTERACTION):
    a blink request (priority BACKGROUND) is rejected and nothing
    changes. *)
Lemma blink_rejected_while_burping :
  start fs_full (pet_playing fs_full BURP) BLINK false
  = (false, pet_playing fs_full BURP).
Proof.
  apply (start_animation_rejects_not_higher_priority fs_full ANIMATIONS
           (pet_playing fs_full BURP) BLINK BLINK_config).
  - reflexivity.
  - vm_compute. reflexivity.
  - vm_compute. intros Hn. discriminate Hn.
Defined.

(** C1 fails on the code: the burp animation is not interruptible, and
    a walk-away request that is not forced preempts it, because its
    priority SPECIAL is higher than INTERACTION. *)
Lemma non_interruptible_burp_is_preempted :
  active (pet_playing fs_full BURP) = Some BURP
  /\ playing (pet_playing fs_full BURP) = true
  /\ (interruptible <$> ANIMATIONS BURP) = Some false
  /\ fst (start fs_full (pet_playing fs_full BURP) WALK_AWAY false) = true.
Proof. vm_compute. repeat split. Qed.

Lemma walk_away_request_while_burping :
  fst (start fs_full (pet_playing fs_full BURP) WALK_AWAY false) = true
  /\ active (snd (start fs_full (pet_playing fs_full BURP) WALK_AWAY false))
     = Some WALK_AWAY.
Proof.
  apply (start_animation_ignores_interruptible fs_full ANIMATIONS
           (pet_playing fs_full BURP) BURP BURP_config
           WALK_AWAY WALK_AWAY_config).
  - vm_compute. reflexivity.
  - reflexivity.
  - reflexivity.
  - vm_compute. reflexivity.
  - reflexivity.
  - vm_compute. reflexivity.
  - vm_compute. intros Hn. discriminate Hn.
Defined.

(** C2 fails on the code: the pet plays the heixiu animation (sound,
    window scaled to one half) and a forced request for the anxiety
    animation finds no frames; the request returns [false], but the
    timer is stopped, the sound is stopped and the window is back to its
    full size. *)
Lemma failed_start_stops_previous_animation :
  let self := pet_playing fs_no_anxiety HEIXIU in
  let r := start fs_no_anxiety self ANXIETY true in
  fst r = false
  /\ animation_timer self = Some 33 /\ animation_timer (snd r) = None
  /\ (PlayingState <$> media_player self) = Some true
  /\ (PlayingState <$> media_player (snd r)) = Some false
  /\ window_size self = mkQSize 100 100
  /\ window_size (snd r) = mkQSize 200 200.
Proof. vm_compute. repeat split. Qed.

Lemma anxiety_request_without_frames :
  fst (start fs_no_anxiety (pet_playing fs_no_anxiety HEIXIU) ANXIETY true)
  = false
  /\ animation_timer
       (snd (start fs_no_anxiety (pet_playing fs_no_anxiety HEIXIU)
               ANXIETY true)) = None.
Proof.
  destruct (start_animation_without_frames fs_no_anxiety ANIMATIONS
              (pet_playing fs_no_anxiety HEIXIU) ANXIETY ANXIETY_config true)
    as (H1 & _ & H3 & _).
  - reflexivity.
  - left. reflexivity.
  - vm_compute. reflexivity.
  - split; [exact H1 | exact H3].
Defined.

(** C3 fails on the code: the walk-away animation has 20 frames, all
    loaded, and 1 loop; after 1 * 20 ticks it is still playing and
    [_end_current_animation] has not been entered; the tick number 21
    enters it. *)
Lemma walk_away_not_ended_after_frames_times_loops :
  let self := pet_playing fs_full WALK_AWAY in
  (length <$> AnimationState.cached_frames (animation_state self))
  = Some 20%nat
  /\ (loops <$> ANIMATIONS WALK_AWAY) = Some 1
  /\ (end_count <$> ticks fs_full ANIMATIONS 20 self) = Some (end_count self)
  /\ ((λ s, playing s) <$> ticks fs_full ANIMATIONS 20 self) = Some true
  /\ (end_count <$> ticks fs_full ANIMATIONS 21 self)
     = Some (S (end_count self)).
Proof. vm_compute. repeat split. Qed.

Lemma walk_away_tick_count :
  let self := snd (start fs_full (started_pet fs_full) WALK_AWAY true) in
  let F := length (frames_after_stop fs_full ANIMATIONS
                     (started_pet fs_full) WALK_AWAY) in
  let N := Z.to_nat (loops WALK_AWAY_config) in
  (1 <= F)%nat
  /\ (forall k, (k < N * (F + 1))%nat ->
       exists s, ticks fs_full ANIMATIONS k self = Some s
                 /\ end_count s = end_count self
                 /\ playing s = true
                 /\ active s = Some WALK_AWAY)
  /\ (exists s, ticks fs_full ANIMATIONS (N * (F + 1)) self = Some s
                /\ end_count s = S (end_count self))
  /\ (exists s, ticks fs_full ANIMATIONS (N * (F + 1) - 1) self = Some s
                /\ shown_count s = (shown_count self + N * F)%nat).
Proof.
  apply (finite_animation_tick_count fs_full ANIMATIONS
           (started_pet fs_full) WALK_AWAY WALK_AWAY_config true).
  - reflexivity.
  - vm_compute. intros Hn. discriminate Hn.
  - vm_compute. reflexivity.
Defined.

(** C5 fails on the code: without frames for the walk-away animation,
    the natural end of anger (entered by the sixth tick: one preloaded
    frame, 3 loops) leaves anger as the active animation, with the
    animation timer stopped. *)
Lemma anger_end_without_walk_away_frames :
  let self := pet_playing fs_no_walk_away ANGER in
  (end_count <$> ticks fs_no_walk_away ANIMATIONS 5 self)
  = Some (end_count self)
  /\ (end_count <$> ticks fs_no_walk_away ANIMATIONS 6 self)
     = Some (S (end_count self))
  /\ ((λ s, active s) <$> ticks fs_no_walk_away ANIMATIONS 6 self)
     = Some (Some ANGER)
  /\ (animation_timer <$> ticks fs_no_walk_away ANIMATIONS 6 self)
     = Some None.
Proof. vm_compute. repeat split. Qed.

Lemma anger_end_with_walk_away_frames :
  active (_end_current_animation fs_full ANIMATIONS
            (pet_playing fs_full ANGER)) = Some WALK_AWAY
  /\ playing (_end_current_animation fs_full ANIMATIONS
                (pet_playing fs_full ANGER)) = true.
Proof.
  destruct (anger_end_starts_walk_away fs_full ANIMATIONS
              (pet_playing fs_full ANGER)) as (_ & _ & H).
  - vm_compute. reflexivity.
  - destruct (H WALK_AWAY_config) as (H1 & H2 & _).
    + reflexivity.
    + vm_compute. intros Hn. discriminate Hn.
    + split; [exact H1 | exact H2].
Defined.

(** C6, on fifteen clicks half a second apart right after start-up. *)
Lemma fifteen_clicks_trigger_anger :
  click_timestamps (clicks fs_full ANIMATIONS fifteen_clicks
                      (started_pet fs_full)) = [].
Proof.
  destruct (click_burst_detector fs_full ANIMATIONS (started_pet fs_full))
    as (_ & H & _).
  destruct (H fifteen_clicks 0%Q) as (early & final & _ & _ & _ & Hc & _).
  - vm_compute. reflexivity.
  - reflexivity.
  - unfold fifteen_clicks. simpl.
    repeat (constructor; [split; unfold Qle; simpl; lia|]). constructor.
  - exact Hc.
Defined.

(** C7, on the anxiety animation. *)
Lemma anxiety_never_ends :
  exists s,
    ticks fs_full ANIMATIONS 1000 (pet_playing fs_full ANXIETY) = Some s
    /\ end_count s = end_count (pet_playing fs_full ANXIETY)
    /\ playing s = playing (pet_playing fs_full ANXIETY).
Proof.
  destruct (forever_animation_never_ends fs_full ANIMATIONS
              (pet_playing fs_full ANXIETY) ANXIETY ANXIETY_config) as [H _].
  - vm_compute. reflexivity.
  - reflexivity.
  - reflexivity.
  - vm_compute. intros Hn. discriminate Hn.
  - destruct (H 1000%nat) as (s & H1 & H2 & _ & _ & H5 & _).
    exists s. split; [exact H1|]. split; [exact H2 | exact H5].
Defined.

(** C8 fails on the code: a file that exists but cannot be decoded is
    never entered in the base-pixmap cache, so two requests at different
    sizes decode it twice. *)
Lemma unreadable_file_decoded_twice :
  os_path_exists fs_unreadable "/opt/pet/yao/1.png" = true
  /\ QImage fs_unreadable "/opt/pet/yao/1.png" = None
  /\ ResourceManager.decode_count "/opt/pet/yao/1.png"
       (ResourceManager.run_calls fs_unreadable
          [ResourceManager.call_load_frames "yao" 28 (mkQSize 200 200);
           ResourceManager.call_load_frames "yao" 28 (mkQSize 100 100)]
          ResourceManager.init) = 2%nat.
Proof. vm_compute. repeat split. Qed.

Lemma readable_file_decoded_once :
  (ResourceManager.decode_count "/opt/pet/yao/1.png"
     (ResourceManager.run_calls fs_full
        [ResourceManager.call_load_frames "yao" 28 (mkQSize 200 200);
         ResourceManager.call_load_frames "yao" 28 (mkQSize 100 100)]
        ResourceManager.init) <= 1)%nat.
Proof.
  apply (proj1 (proj2 (cache_idempotence fs_full))).
  exists (mkQSize 200 200). vm_compute. reflexivity.
Defined.

(** C9, on the preload of the main animation at start-up. *)
Lemma main_animation_preloaded :
  exists fr,
    ResourceManager.frame_cache
      (ResourceManager.preload_resources fs_full ResourceManager.init
         ANIMATIONS (mkQSize 200 200))
    !! ResourceManager._get_cache_key (folder MAIN_config) None
         (Some (mkQSize (int (inject_Z 200 * size_scale MAIN_config))
                        (int (inject_Z 200 * size_scale MAIN_config))))
    = Some fr
    /\ (length fr <= 1)%nat.
Proof.
  apply (proj2 (proj2 (frame_cache_key_ignores_frame_count fs_full))
           ResourceManager.init ANIMATIONS (mkQSize 200 200) MAIN
           MAIN_config).
  - intros k fr H. simpl in H. now rewrite lookup_empty in H.
  - apply list_elem_of_here.
  - reflexivity.
  - vm_compute. reflexivity.
Defined.

(** C10 fails on the code: when the pet falls asleep while the anxiety
    animation is playing, [is_playing] stays [true], and the SYSTEM
    priority recorded for sleep blocks a request of priority
    INTERACTION. *)
Lemma sleep_entered_while_playing_blocks :
  let self := pet_playing fs_full ANXIETY in
  _is_sleeping self = false
  /\ is_force_sleeping self = false
  /\ active (_enter_sleep self) = Some SLEEP
  /\ playing (_enter_sleep self) = true
  /\ AnimationState.can_interrupt (animation_state (_enter_sleep self))
       INTERACTION = false
  /\ fst (start fs_full (_enter_sleep self) DRINK_MILK false) = false.
Proof. vm_compute. repeat split. Qed.

Lemma sleep_entered_while_idle :
  let self := started_pet fs_full in
  active (_enter_sleep self) = Some SLEEP
  /\ AnimationState.current_priority (animation_state (_enter_sleep self))
     = SYSTEM
  /\ playing (_enter_sleep self) = playing self
  /\ (playing self = false ->
      forall p,
        AnimationState.can_interrupt (animation_state (_enter_sleep self)) p
        = true).
Proof.
  apply (enter_sleep_keeps_is_playing (started_pet fs_full)).
  - vm_compute. reflexivity.
  - vm_compute. reflexivity.
Defined.

End examples.

(** * Further properties of the scheduler *)

Section scheduler_more.

Import DesktopPet.

Variable fs : FileSystem.
Variable ANIMATIONS : AnimationType -> option AnimationConfig.

Implicit Types (self : DesktopPet.t) (a : AnimationType)
  (config : AnimationConfig).

Local Abbreviation start := (_start_animation fs ANIMATIONS).
Local Abbreviation playing self := (AnimationState.is_playing (animation_state self)).
Local Abbreviation active self := (AnimationState.current_animation (animation_state self)).

Lemma start_true_iff self a force :
  fst (start self a force) = true
  <-> exists config,
        ANIMATIONS a = Some config
        /\ (force = true
            \/ AnimationState.can_interrupt (animation_state self)
                 (priority config) = true)
        /\ frames_after_stop fs ANIMATIONS self a <> [].
Proof.
  unfold _start_animation, frames_after_stop. split.
  - destruct (ANIMATIONS a) as [config|]; [|discriminate].
    destruct (negb force
              && negb (AnimationState.can_interrupt (animation_state self)
                         (priority config))) eqn:Echeck; [discriminate|].
    destruct (_get_animation_frames fs ANIMATIONS _ a) as [[|f0 fr] s1];
      [discriminate|].
    intros _. exists config. split; [reflexivity|]. split.
    + destruct force; [now left|]. right.
      now destruct (AnimationState.can_interrupt _ _).
    + discriminate.
  - intros (config & -> & Hf & Hne).
    assert (negb force
            && negb (AnimationState.can_interrupt (animation_state self)
                       (priority config)) = false) as ->.
    { destruct Hf as [-> | ->]; [reflexivity | now rewrite andb_false_r]. }
    destruct (_get_animation_frames fs ANIMATIONS _ a) as [[|f0 fr] s1];
      [now contradict Hne | reflexivity].
Qed.

(** X1. [_start_animation] returns [true] exactly when the animation
    is in the catalogue, the request is forced or allowed by
    [can_interrupt], and the frames loaded after the current animation has
    been stopped are not empty. *)
Theorem start_animation_true_iff self a force :
  fst (start self a force) = true
  <-> exists config,
        ANIMATIONS a = Some config
        /\ (force = true
            \/ AnimationState.can_interrupt (animation_state self)
                 (priority config) = true)
        /\ frames_after_stop fs ANIMATIONS self a <> [].
Proof. apply start_true_iff. Qed.

Lemma stop_saved_size self sz :
  AnimationState.original_size (animation_state (_stop_current_animation self))
  = Some sz ->
  QSize_bool sz = false.
Proof.
  unfold _stop_current_animation.
  destruct self as [rm st os fsl cl mf si ws at_ ft mp0 ck rg rp lg]; simpl.
  destruct st as [ca cp ip ci lc stt dr cf osz]; simpl.
  destruct mp0 as [[ps md]|]; simpl; try destruct ps; simpl;
    destruct osz as [sz0|]; simpl; try destruct (QSize_bool sz0) eqn:E; simpl;
    intros [= <-]; exact E.
Qed.

Lemma stop_of_stopped self :
  animation_timer self = None ->
  free_active_timer self = None ->
  (forall mp, media_player self = Some mp -> PlayingState mp = false) ->
  (forall sz, AnimationState.original_size (animation_state self) = Some sz ->
              QSize_bool sz = false) ->
  _stop_current_animation self
  = emit free_active_timer_stop (emit animation_timer_stop self).
Proof.
  unfold _stop_current_animation.
  destruct self as [rm st os fsl cl mf si ws at_ ft mp0 ck rg rp lg]; simpl.
  destruct st as [ca cp ip ci lc stt dr cf osz]; simpl.
  intros -> -> Hm Ho.
  destruct mp0 as [[ps md]|]; simpl.
  - specialize (Hm _ eq_refl). simpl in Hm. subst ps.
    destruct osz as [sz|]; simpl; [rewrite (Ho _ eq_refl)|]; reflexivity.
  - destruct osz as [sz|]; simpl; [rewrite (Ho _ eq_refl)|]; reflexivity.
Qed.

(** X3. Stopping is idempotent: a second [_stop_current_animation]
    right after the first only repeats the two timer stops; the media
    player, the window size and the run state are not touched again. *)
Theorem stop_current_animation_twice self :
  _stop_current_animation (_stop_current_animation self)
  = emit free_active_timer_stop
      (emit animation_timer_stop (_stop_current_animation self)).
Proof.
  apply stop_of_stopped.
  - apply stop_timers.
  - apply stop_timers.
  - apply stop_media_player.
  - apply stop_saved_size.
Qed.

Lemma stop_window_size_eq self :
  window_size (_stop_current_animation self)
  = match AnimationState.original_size (animation_state self) with
    | Some sz => if QSize_bool sz then sz else window_size self
    | None => window_size self
    end.
Proof.
  unfold _stop_current_animation.
  destruct self as [rm st os fsl cl mf si ws at_ ft mp0 ck rg rp lg]; simpl.
  destruct st as [ca cp ip ci lc stt dr cf osz]; simpl.
  destruct mp0 as [[ps md]|]; simpl; try destruct ps; simpl;
    destruct osz as [sz|]; simpl; try destruct (QSize_bool sz); reflexivity.
Qed.

Lemma play_sound_window config self :
  window_size (play_sound fs config self) = window_size self.
Proof.
  unfold play_sound.
  destruct (has_sound config), (sound_file config) as [f|],
    (media_player self) as [mp|]; try reflexivity.
  destruct (bool_decide (f = "")); [reflexivity|].
  destruct (ResourceManager.load_sound _ _ _ _) as [[sn|] rm]; reflexivity.
Qed.

(** X2. Whatever a request does (rejected, aborted for want of
    frames, or accepted, with or without a scaled window), stopping
    afterwards leaves the window at the size that stopping right away
    would have left: the resize of a scaled animation is undone by the
    next stop. *)
Theorem start_then_stop_restores_window self a force :
  QSize_bool (window_size (_stop_current_animation self)) = true ->
  window_size (_stop_current_animation (snd (start self a force)))
  = window_size (_stop_current_animation self).
Proof.
  intros Hvalid. unfold _start_animation.
  destruct (ANIMATIONS a) as [config|]; [|reflexivity].
  destruct (negb force && _); [reflexivity|].
  pose proof (stop_saved_size self) as Hsaved.
  destruct (get_animation_frames_state fs ANIMATIONS
              (_stop_current_animation self) a) as [rm Hrm].
  destruct (_get_animation_frames fs ANIMATIONS _ a) as [[|f0 fr] s1];
    cbn [snd] in Hrm |- *; subst s1.
  - rewrite stop_window_size_eq. cbn [animation_state set_resource_manager].
    destruct (AnimationState.original_size _) as [sz|] eqn:E; [|reflexivity].
    now rewrite (Hsaved sz eq_refl).
  - rewrite stop_window_size_eq.
    cbn [animation_state set_animation_timer emit].
    match goal with
    | |- context [play_sound fs config ?s] =>
        destruct (play_sound_preserves fs config s) as (Hps & _);
        cbn [window_size set_animation_timer emit];
        rewrite Hps, play_sound_window
    end.
    destruct (negb (Qeq_bool (size_scale config) 1)).
    + cbn. now rewrite Hvalid.
    + cbn.
      destruct (AnimationState.original_size
                  (animation_state (_stop_current_animation self)))
        as [sz|] eqn:E; [|reflexivity].
      now rewrite (Hsaved sz eq_refl).
Qed.

(** The state in which a natural end leaves the pet when no follow-up
    animation is started. *)
Lemma fallback_idle self :
  let s := show_last_main_frame
             (set_animation_state
                (AnimationState.reset
                   (animation_state (_stop_current_animation self)))
                (_stop_current_animation self)) in
  active s = None
  /\ AnimationState.current_priority (animation_state s) = IDLE
  /\ playing s = false
  /\ AnimationState.current_index (animation_state s) = 0
  /\ AnimationState.loop_count (animation_state s) = 0
  /\ AnimationState.cached_frames (animation_state s) = None
  /\ animation_timer s = None
  /\ free_active_timer s = None
  /\ rng_pos s = rng_pos self.
Proof.
  intros s. subst s. unfold show_last_main_frame.
  destruct (stop_timers self) as [Ht1 Ht2].
  destruct (stop_preserves self) as (_ & _ & Hrp & _).
  match goal with
  | |- context [match ?x with Some _ => _ | None => _ end] => destruct x
  end; cbn; repeat split; assumption.
Qed.

(** X4. When the animation that ends is neither anger nor one of the
    three eating and drinking animations, [_end_current_animation] brings
    the pet back to idle: no active animation, priority IDLE, nothing
    playing, cursor and loop counter at 0, no cached frames, both timers
    stopped, no random draw consumed; any later request passes the
    priority check. *)
Theorem end_without_chain_is_idle self :
  active self <> Some ANGER ->
  active self ∉ [Some DRINK_MILK; Some EAT_BURGER; Some EAT_CHICKEN] ->
  let s := _end_current_animation fs ANIMATIONS self in
  active s = None
  /\ AnimationState.current_priority (animation_state s) = IDLE
  /\ playing s = false
  /\ AnimationState.current_index (animation_state s) = 0
  /\ AnimationState.loop_count (animation_state s) = 0
  /\ AnimationState.cached_frames (animation_state s) = None
  /\ animation_timer s = None
  /\ free_active_timer s = None
  /\ rng_pos s = rng_pos self
  /\ (forall p, AnimationState.can_interrupt (animation_state s) p = true).
Proof.
  intros Hanger Heat s. subst s. unfold _end_current_animation.
  rewrite bool_decide_eq_false_2 by assumption.
  rewrite bool_decide_eq_false_2 by assumption.
  match goal with
  | |- context [_stop_current_animation ?x] =>
      pose proof (fallback_idle x) as H; cbv zeta in H
  end.
  destruct H as (H1 & H2 & H3 & H4 & H5 & H6 & H7 & H8 & H9).
  repeat (split; [assumption|]). split.
  - rewrite H9. unfold call_completion_callback.
    destruct (active self) as [c|]; [|reflexivity].
    destruct (ANIMATIONS c) as [config|]; [|reflexivity].
    destruct (on_complete config); reflexivity.
  - intros p. now apply can_interrupt_not_playing.
Qed.

(** X5. The end of an eating or drinking animation consumes exactly
    one random draw [r] in 1..100: for [r <= 30] it is a forced start of
    the burp animation, otherwise the pet goes back to idle. *)
Theorem eating_end_draws_once self :
  active self ∈ [Some DRINK_MILK; Some EAT_BURGER; Some EAT_CHICKEN] ->
  let r := 1 + rng self (rng_pos self) mod 100 in
  let s1 := set_rng_pos (S (rng_pos self))
              (call_completion_callback ANIMATIONS (active self)
                 (emit enter_end_current_animation self)) in
  1 <= r <= 100
  /\ rng_pos (_end_current_animation fs ANIMATIONS self) = S (rng_pos self)
  /\ (r <= 30 ->
      _end_current_animation fs ANIMATIONS self = snd (start s1 BURP true))
  /\ (30 < r ->
      active (_end_current_animation fs ANIMATIONS self) = None
      /\ playing (_end_current_animation fs ANIMATIONS self) = false).
Proof.
  intros Heat r s1.
  assert (active self <> Some ANGER) as Hanger.
  { intros E. rewrite E in Heat.
    repeat (apply elem_of_cons in Heat as [Heat | Heat]; [discriminate|]).
    now apply elem_of_nil in Heat. }
  assert (rng_pos s1 = S (rng_pos self)) as Hs1 by reflexivity.
  assert (_end_current_animation fs ANIMATIONS self
          = if r <=? 30 then snd (start s1 BURP true)
            else show_last_main_frame
                   (set_animation_state
                      (AnimationState.reset
                         (animation_state (_stop_current_animation s1)))
                      (_stop_current_animation s1))) as Heq.
  { assert (rng (call_completion_callback ANIMATIONS (active self)
                   (emit enter_end_current_animation self)) = rng self
            /\ rng_pos (call_completion_callback ANIMATIONS (active self)
                          (emit enter_end_current_animation self))
               = rng_pos self) as [Hrng Hpos].
    { unfold call_completion_callback.
      destruct (active self) as [c|]; [|split; reflexivity].
      destruct (ANIMATIONS c) as [config|]; [|split; reflexivity].
      destruct (on_complete config); split; reflexivity. }
    unfold _end_current_animation.
    rewrite bool_decide_eq_false_2 by assumption.
    rewrite bool_decide_eq_true_2 by assumption.
    unfold randint. rewrite Hrng, Hpos.
    change (100 - 1 + 1) with 100. reflexivity. }
  split; [subst r; pose proof (Z.mod_pos_bound (rng self (rng_pos self)) 100);
          lia|].
  pose proof (fallback_idle s1) as Hfb. cbv zeta in Hfb.
  destruct Hfb as (H1 & _ & H3 & _ & _ & _ & _ & _ & H9).
  split; [|split].
  - rewrite Heq. destruct (r <=? 30).
    + now destruct (start_animation_preserves fs ANIMATIONS s1 BURP true)
        as [_ ->].
    + now rewrite H9.
  - intros Hr. rewrite Heq.
    now replace (r <=? 30) with true by (symmetry; apply Z.leb_le; lia).
  - intros Hr. rewrite Heq.
    replace (r <=? 30) with false by (symmetry; apply Z.leb_gt; lia).
    split; assumption.
Qed.

(** X7. After every counted click the buffer holds at most 14 time
    stamps, none of them older than 10 seconds at the time of the
    click. *)
Theorem click_buffer_bounded self now :
  (length (click_timestamps (click fs ANIMATIONS self now)) <= 14)%nat
  /\ (forall t, t ∈ click_timestamps (click fs ANIMATIONS self now) ->
                (now - t <= 10)%Q).
Proof.
  set (kept := filter (λ t : Q, Qle_bool (now - t) 10) (click_timestamps self)).
  destruct (le_lt_dec 14 (length kept)) as [Hge | Hlt].
  - rewrite (click_trigger fs ANIMATIONS self now Hge).
    destruct (start_animation_preserves fs ANIMATIONS
                (set_click_timestamps [] (set_clock now self)) ANGER true)
      as [-> _].
    simpl. split; [lia|]. intros t Ht. now apply elem_of_nil in Ht.
  - rewrite (click_below fs ANIMATIONS self now Hlt). simpl.
    fold kept. split.
    + rewrite length_app. simpl. lia.
    + intros t Ht. apply elem_of_app in Ht as [Ht | Ht].
      * apply list_elem_of_filter in Ht as [Ht _].
        now apply Is_true_true, Qle_bool_iff in Ht.
      * apply list_elem_of_singleton in Ht as ->. lra.
Qed.

Lemma cursor_in_range_saved_size st st' :
  AnimationState.set_original_size None st'
  = AnimationState.set_original_size None st ->
  cursor_in_range ANIMATIONS st -> cursor_in_range ANIMATIONS st'.
Proof.
  destruct st, st'. unfold AnimationState.set_original_size. simpl.
  intros [= -> -> -> -> -> -> -> ->]. exact (fun H => H).
Qed.

Lemma cursor_in_range_start self a force :
  cursor_in_range ANIMATIONS (animation_state self) ->
  cursor_in_range ANIMATIONS (animation_state (snd (start self a force))).
Proof.
  intros Hwf.
  destruct (fst (start self a force)) eqn:Hok.
  - apply start_true_iff in Hok as Hex.
    destruct Hex as (config & Hc & _ & Hne).
    destruct (start_animation_plays fs ANIMATIONS self a config force Hc Hok)
      as (Ha & Hp & _ & Hi & _ & Hcf & _).
    intros _ frs Hfrs _. split; [now exists a, config|].
    rewrite Hi. lia.
  - unfold _start_animation in *.
    destruct (ANIMATIONS a) as [config|]; [|exact Hwf].
    destruct (negb force && _); [exact Hwf|].
    destruct (get_animation_frames_state fs ANIMATIONS
                (_stop_current_animation self) a) as [rm Hrm].
    destruct (_get_animation_frames fs ANIMATIONS _ a) as [[|f0 fr] s1];
      [|discriminate].
    cbn [snd] in Hrm |- *. subst s1.
    apply (cursor_in_range_saved_size (animation_state self)); [|exact Hwf].
    apply stop_animation_state.
Qed.

Lemma cursor_in_range_end self :
  cursor_in_range ANIMATIONS (animation_state self) ->
  cursor_in_range ANIMATIONS
    (animation_state (_end_current_animation fs ANIMATIONS self)).
Proof.
  intros Hwf.
  assert (forall s, animation_state s = animation_state self ->
                    cursor_in_range ANIMATIONS
                      (animation_state
                         (show_last_main_frame
                            (set_animation_state
                               (AnimationState.reset
                                  (animation_state (_stop_current_animation s)))
                               (_stop_current_animation s))))) as Hfb.
  { intros s _. pose proof (fallback_idle s) as H. cbv zeta in H.
    destruct H as (_ & _ & H3 & _). intros Hp. congruence. }
  assert (animation_state
            (call_completion_callback ANIMATIONS (active self)
               (emit enter_end_current_animation self))
          = animation_state self) as Hcb.
  { unfold call_completion_callback.
    destruct (active self) as [c|]; [|reflexivity].
    destruct (ANIMATIONS c) as [config|]; [|reflexivity].
    destruct (on_complete config); reflexivity. }
  unfold _end_current_animation.
  destruct (bool_decide (active self = Some ANGER)).
  - apply cursor_in_range_start. now rewrite Hcb.
  - destruct (bool_decide (_ ∈ _)); [|now apply Hfb].
    unfold randint. cbn [fst snd].
    destruct (_ <=? 30).
    + apply cursor_in_range_start. cbn [animation_state set_rng_pos].
      now rewrite Hcb.
    + apply Hfb. cbn [animation_state set_rng_pos]. exact Hcb.
Qed.

Lemma cursor_in_range_tick self :
  cursor_in_range ANIMATIONS (animation_state self) ->
  exists s,
    _update_current_animation fs ANIMATIONS self = Some s
    /\ cursor_in_range ANIMATIONS (animation_state s).
Proof.
  intros Hwf.
  destruct (playing self) eqn:Hp;
    [|exists self; split; [apply tick_idle; now left | exact Hwf]].
  destruct (AnimationState.cached_frames (animation_state self))
    as [[|f0 fr]|] eqn:Hcf;
    [exists self; split; [apply tick_idle; now right; right | exact Hwf]
    | |exists self; split; [apply tick_idle; now right; left | exact Hwf]].
  destruct (Hwf Hp (f0 :: fr) Hcf ltac:(discriminate))
    as ((a & config & Ha & Hc) & Hi).
  assert (running a (f0 :: fr)
            (AnimationState.current_index (animation_state self))
            (AnimationState.loop_count (animation_state self)) self) as Hr
    by (repeat split; assumption).
  destruct (Z_lt_le_dec (AnimationState.current_index (animation_state self))
              (Z.of_nat (length (f0 :: fr)))) as [Hlt | Hge].
  - destruct (tick_show fs ANIMATIONS a config (f0 :: fr) _ _ self Hc
                ltac:(discriminate) Hr ltac:(lia))
      as (s & Hu & (Hp' & Hcf' & Ha' & Hi' & _) & _).
    exists s. split; [exact Hu|].
    intros _ frs Hfrs _. split; [now exists a, config|].
    assert (frs = f0 :: fr) as -> by congruence. lia.
  - destruct (Z.eq_dec (loops config) (-1)) as [Hinf | Hfin].
    + destruct (tick_wrap_forever fs ANIMATIONS a config (f0 :: fr) _ _ self
                  Hc ltac:(discriminate) Hr Hge Hinf)
        as (s & Hu & (Hp' & Hcf' & Ha' & Hi' & _) & _).
      exists s. split; [exact Hu|].
      intros _ frs Hfrs _. split; [now exists a, config|].
      rewrite Hi'. lia.
    + unfold _update_current_animation. rewrite Hp, Hcf, Ha, Hc.
      replace (_ <? _) with false by (symmetry; apply Z.ltb_ge; exact Hge).
      replace (loops config =? -1) with false
        by (symmetry; now apply Z.eqb_neq).
      match goal with
      | |- context [if ?b then Some (_end_current_animation _ _ ?s1)
                    else Some ?s2] =>
          assert (cursor_in_range ANIMATIONS (animation_state s2)) as Hwf2;
          [|destruct b; eexists; split; try reflexivity;
            [apply cursor_in_range_end|]; exact Hwf2]
      end.
      intros _ frs Hfrs _. cbn in Hfrs |- *.
      split; [exists a, config; split; [exact Ha | exact Hc]|].
      lia.
Qed.

(** X6. On a run state where a playing animation belongs to the
    catalogue and has its cursor between 0 and the number of frames (the
    state after start-up and after every request), no number of timer
    ticks raises [KeyError] or [IndexError], and the cursor stays in this
    range. *)
Theorem ticks_never_raise self (k : nat) :
  cursor_in_range ANIMATIONS (animation_state self) ->
  exists s,
    ticks fs ANIMATIONS k self = Some s
    /\ cursor_in_range ANIMATIONS (animation_state s).
Proof.
  intros Hwf. induction k as [|k (s & Hs & Hwfs)].
  - now exists self.
  - destruct (cursor_in_range_tick s Hwfs) as (s' & Hu & Hwf').
    exists s'. simpl. rewrite Hs. split; assumption.
Qed.

(** X8. After [__init__] the pet holds at most one frame of the main
    animation in [main_frames], whatever the files on disk: the preload
    has cached the first frame under the key that the full load then
    hits. *)
Theorem init_main_frames_at_most_one (rng : nat -> Z) (now : Q) :
  (length (main_frames (init fs ANIMATIONS rng now)) <= 1)%nat.
Proof.
  unfold init.
  set (s0 := set_resource_manager _ _).
  assert (length (fst (_get_animation_frames fs ANIMATIONS s0 MAIN)) <= 1)%nat
    as Hlen.
  { unfold _get_animation_frames.
    destruct (ANIMATIONS MAIN) as [config|] eqn:Hc; [|simpl; lia].
    subst s0. cbn [window_size resource_manager set_resource_manager emit
                   do_resize set_window_size width height].
    set (rm' := ResourceManager.preload_resources fs ResourceManager.init
                  ANIMATIONS (mkQSize 200 200)).
    set (size := mkQSize _ _).
    assert (short_entries rm') as Hshort.
    { subst rm'. unfold ResourceManager.preload_resources.
      generalize ResourceManager.priority_animations. intros l.
      assert (short_entries ResourceManager.init) as Hi.
      { intros k fr H. simpl in H. now rewrite lookup_empty in H. }
      revert Hi. generalize ResourceManager.init.
      induction l as [|b l IH]; intros rm Hs; [exact Hs|].
      simpl. apply IH. now apply preload_step_short. }
    destruct (ResourceManager.load_frames fs rm' (folder config) (frames config)
                size) as [fr rm1] eqn:Eload.
    cbn [fst]. unfold ResourceManager.load_frames in Eload.
    destruct (ResourceManager.frame_cache rm' !! _) as [cached|] eqn:Ekey.
    - injection Eload as <- <-. exact (Hshort _ _ Ekey).
    - destruct (os_path_exists fs
                  (ResourceManager.get_resource_path fs (folder config)))
        eqn:Edir.
      + exfalso.
        destruct (preload_loop fs ANIMATIONS (mkQSize 200 200) MAIN config
                    ResourceManager.priority_animations ResourceManager.init)
          as (fr' & Hfr' & _).
        * apply list_elem_of_here.
        * exact Hc.
        * exact Edir.
        * intros k fr0 H. simpl in H. now rewrite lookup_empty in H.
        * cbn [width height] in Hfr'. fold size in Hfr'.
          change (ResourceManager.frame_cache rm'
                  !! ResourceManager._get_cache_key (folder config) None
                       (Some size) = Some fr') in Hfr'.
          congruence.
      + cbn [negb] in Eload. injection Eload as <- <-. simpl. lia. }
  destruct (_get_animation_frames fs ANIMATIONS s0 MAIN) as [frs s1].
  cbn [fst] in Hlen.
  destruct (ResourceManager.load_single_image fs (resource_manager s1) _ _ _)
    as [sleep rm2].
  destruct (ResourceManager.load_single_image fs rm2 _ _ _) as [hs rm3].
  destruct frs as [|f0 frs']; cbn; [lia | exact Hlen].
Qed.

End scheduler_more.

(** * Further properties of the resource cache *)

Section resource_more.

Import ResourceManager.

Variable fs : FileSystem.

Implicit Types (rm : ResourceManager.t) (size : QSize).

Lemma load_and_scale_readable rm path sz size :
  decodes_consistent fs rm ->
  QImage fs path = Some sz ->
  fst (_load_and_scale_pixmap fs rm path size)
  = Some (scaled_to size (fromImage path sz)).
Proof.
  intros H Hq. destruct (H path) as [Hb _].
  unfold _load_and_scale_pixmap, fill_base_pixmap_cache, scaled_to.
  destruct (base_pixmap_cache rm !! path) as [b|] eqn:Eb.
  - destruct (Hb b eq_refl) as (sz' & Hq' & ->).
    assert (sz' = sz) as -> by congruence.
    simpl. rewrite Eb. simpl. now destruct (QSize_eqb sz size).
  - rewrite Hq. simpl. rewrite lookup_insert_eq. simpl.
    now destruct (QSize_eqb sz size).
Qed.

Lemma scaled_to_not_null size path sz :
  0 < width size -> 0 < height size ->
  QPixmap_isNull (scaled_to size (fromImage path sz)) = false.
Proof.
  intros Hw Hh. unfold scaled_to. simpl.
  destruct (QSize_eqb sz size); simpl; [reflexivity|].
  apply orb_false_iff. split; apply Z.leb_gt; lia.
Qed.

(** The loop of [load_frames] over a run of frames that all exist and
    can be decoded appends one frame per file, in order. *)
Lemma load_frames_loop_complete folder_name size (img_size : Z -> QSize)
    (l : list Z) : forall (frs : list QPixmap) rm,
  decodes_consistent fs rm ->
  0 < width size -> 0 < height size ->
  (forall i, i ∈ l ->
     os_path_exists fs (frame_path fs folder_name i) = true
     /\ QImage fs (frame_path fs folder_name i) = Some (img_size i)) ->
  fst (fold_left
         (load_frames_step fs (get_resource_path fs folder_name) size)
         l (frs, rm))
  = frs ++ map (λ i, scaled_to size
                       (fromImage (frame_path fs folder_name i) (img_size i)))
             l.
Proof.
  induction l as [|i l IH]; intros frs rm Hc Hw Hh Hall.
  - simpl. now rewrite app_nil_r.
  - destruct (Hall i ltac:(left)) as [Hex Hq].
    cbn [fold_left map]. unfold load_frames_step at 2.
    fold (frame_path fs folder_name i). rewrite Hex.
    pose proof (load_and_scale_readable rm _ _ size Hc Hq) as Hres.
    pose proof (load_and_scale_consistent fs rm
                  (frame_path fs folder_name i) size Hc) as Hc'.
    destruct (_load_and_scale_pixmap fs rm (frame_path fs folder_name i) size)
      as [px rm1]. simpl in Hres, Hc'. subst px.
    rewrite scaled_to_not_null by assumption. cbn [negb].
    rewrite IH; [|assumption..|].
    + now rewrite <- app_assoc.
    + intros j Hj. apply Hall. now right.
Qed.

(** X9. On a cache miss, when the directory and the files
    [1.png] .. [n.png] exist and can be decoded and the requested size is
    positive, [load_frames] returns exactly [n] frames, the frame [i]
    being the image of [i.png] (as it is when its size is the requested
    one, scaled otherwise). *)
Theorem load_frames_complete rm folder_name n size (img_size : Z -> QSize) :
  decodes_consistent fs rm ->
  frame_cache rm !! _get_cache_key folder_name None (Some size) = None ->
  os_path_exists fs (get_resource_path fs folder_name) = true ->
  0 < width size -> 0 < height size ->
  (forall i, 1 <= i <= n ->
     os_path_exists fs (frame_path fs folder_name i) = true
     /\ QImage fs (frame_path fs folder_name i) = Some (img_size i)) ->
  fst (load_frames fs rm folder_name n size)
  = map (λ i, scaled_to size
                (fromImage (frame_path fs folder_name i) (img_size i)))
        (seqZ 1 n).
Proof.
  intros Hc Hmiss Hdir Hw Hh Hall. unfold load_frames.
  rewrite Hmiss, Hdir. simpl.
  pose proof (load_frames_loop_complete folder_name size img_size
                (range 1 (n + 1)) [] rm Hc Hw Hh) as Hloop.
  destruct (fold_left _ _ _) as [frs rm1]. simpl in Hloop |- *.
  unfold range in Hloop. replace (n + 1 - 1) with n in Hloop by lia.
  apply Hloop. intros i Hi. apply Hall.
  apply elem_of_seqZ in Hi. lia.
Qed.

(** X10. On a cache miss [load_frames] returns at most [total_frames]
    frames; when the resource directory is missing it returns the empty
    list and changes nothing (nothing is cached), and when the directory
    exists it caches exactly what it returns, the empty list included. *)
Theorem load_frames_miss rm folder_name n size :
  frame_cache rm !! _get_cache_key folder_name None (Some size) = None ->
  (length (fst (load_frames fs rm folder_name n size)) <= Z.to_nat n)%nat
  /\ (os_path_exists fs (get_resource_path fs folder_name) = false ->
      load_frames fs rm folder_name n size = ([], rm))
  /\ (os_path_exists fs (get_resource_path fs folder_name) = true ->
      frame_cache (snd (load_frames fs rm folder_name n size))
      !! _get_cache_key folder_name None (Some size)
      = Some (fst (load_frames fs rm folder_name n size))).
Proof.
  intros Hmiss. unfold load_frames. rewrite Hmiss.
  destruct (os_path_exists fs (get_resource_path fs folder_name)); simpl.
  - pose proof (load_frames_loop_length fs (get_resource_path fs folder_name)
                  size (range 1 (n + 1)) ([], rm)) as Hlen.
    destruct (fold_left _ _ _) as [frs rm1]. simpl in Hlen |- *.
    unfold range in Hlen. rewrite length_seqZ in Hlen.
    split; [lia|]. split; [discriminate|]. intros _.
    apply lookup_insert_eq.
  - split; [lia|]. split; [reflexivity | discriminate].
Qed.

(** *** Null pixmaps are never returned *)

Lemma load_frames_loop_not_null dir size l : forall acc,
  Forall (λ p, QPixmap_isNull p = false) (fst acc) ->
  Forall (λ p, QPixmap_isNull p = false)
    (fst (fold_left (load_frames_step fs dir size) l acc)).
Proof.
  induction l as [|i l IH]; intros acc H; [exact H|].
  simpl. apply IH. unfold load_frames_step. destruct acc as [fr rm].
  simpl in H. destruct (os_path_exists fs _); [|exact H].
  destruct (_load_and_scale_pixmap fs rm _ size) as [[px|] rm1]; [|exact H].
  destruct (QPixmap_isNull px) eqn:E; simpl; [exact H|].
  apply Forall_app. split; [exact H|]. now repeat constructor.
Qed.

Lemma load_frames_not_null rm folder_name n size :
  no_null_frames rm ->
  Forall (λ p, QPixmap_isNull p = false)
    (fst (load_frames fs rm folder_name n size))
  /\ no_null_frames (snd (load_frames fs rm folder_name n size)).
Proof.
  intros H. unfold load_frames.
  generalize (_get_cache_key folder_name None (Some size)). intros key.
  destruct (frame_cache rm !! key) as [fr|] eqn:Ekey;
    [split; [exact (H _ _ Ekey) | exact H]|].
  destruct (negb (os_path_exists fs _)); [split; [constructor | exact H]|].
  pose proof (load_frames_loop_frames fs (get_resource_path fs folder_name)
                size (range 1 (n + 1)) ([], rm)) as Hfc.
  pose proof (load_frames_loop_not_null (get_resource_path fs folder_name)
                size (range 1 (n + 1)) ([], rm) ltac:(constructor)) as Hnn.
  destruct (fold_left _ _ _) as [frs rm1]. simpl in Hfc, Hnn |- *.
  split; [exact Hnn|].
  intros k fr. simpl. destruct (decide (key = k)) as [<- | Hne].
  - rewrite lookup_insert_eq. now intros [= <-].
  - rewrite lookup_insert_ne by assumption. rewrite Hfc. apply H.
Qed.

Lemma no_null_frames_same rm rm' :
  frame_cache rm' = frame_cache rm -> no_null_frames rm -> no_null_frames rm'.
Proof. unfold no_null_frames. now intros ->. Qed.

Lemma load_single_image_frames rm folder_name filename size :
  frame_cache (snd (load_single_image fs rm folder_name filename size))
  = frame_cache rm.
Proof.
  unfold load_single_image.
  destruct (image_cache rm !! _); [reflexivity|].
  destruct (os_path_exists fs _); [|reflexivity].
  match goal with
  | |- context [_load_and_scale_pixmap fs rm ?path size] =>
      pose proof (load_and_scale_frames fs rm path size) as H1;
      destruct (_load_and_scale_pixmap fs rm path size) as [[px|] rm1]
  end; simpl in H1; [|exact H1].
  destruct (negb (QPixmap_isNull px)); exact H1.
Qed.

Lemma load_sound_frames rm folder_name filename :
  frame_cache (snd (load_sound fs rm folder_name filename)) = frame_cache rm.
Proof.
  unfold load_sound.
  destruct (sound_cache rm !! _); [reflexivity|].
  destruct (os_path_exists fs _); reflexivity.
Qed.

Lemma run_calls_not_null cs : forall rm,
  no_null_frames rm -> no_null_frames (run_calls fs cs rm).
Proof.
  induction cs as [|c cs IH]; intros rm H; [exact H|].
  unfold run_calls. simpl. apply IH. destruct c; simpl.
  - now apply load_frames_not_null.
  - eapply no_null_frames_same; [apply load_single_image_frames | exact H].
  - eapply no_null_frames_same; [apply load_sound_frames | exact H].
  - unfold preload_resources. generalize priority_animations.
    intros l. revert rm H. clear IH.
    induction l as [|a l IHl]; intros rm H; [exact H|].
    simpl. apply IHl. unfold preload_step.
    destruct (animations a); [|exact H]. now apply load_frames_not_null.
Qed.

(** X11. After any history of loading calls on a fresh manager, the
    frames returned by [load_frames] never contain a null pixmap. *)
Theorem frames_are_never_null cs folder_name n size :
  Forall (λ p, QPixmap_isNull p = false)
    (fst (load_frames fs (run_calls fs cs init) folder_name n size)).
Proof.
  apply load_frames_not_null, run_calls_not_null.
  intros k fr H. simpl in H. now rewrite lookup_empty in H.
Qed.

Lemma load_and_scale_image_cache rm path size :
  image_cache (snd (_load_and_scale_pixmap fs rm path size)) = image_cache rm.
Proof.
  rewrite load_and_scale_state. unfold fill_base_pixmap_cache.
  destruct (base_pixmap_cache rm !! path); [reflexivity|].
  destruct (QImage fs path); reflexivity.
Qed.

Lemma load_and_scale_again rm path size :
  fst (_load_and_scale_pixmap fs
         (snd (_load_and_scale_pixmap fs rm path size)) path size)
  = fst (_load_and_scale_pixmap fs rm path size).
Proof.
  rewrite load_and_scale_state.
  unfold _load_and_scale_pixmap, fill_base_pixmap_cache.
  destruct (base_pixmap_cache rm !! path) as [b|] eqn:Eb.
  - simpl. rewrite Eb. simpl. rewrite Eb. reflexivity.
  - destruct (QImage fs path) as [sz|] eqn:Eq; simpl.
    + rewrite lookup_insert_eq. simpl. rewrite lookup_insert_eq. reflexivity.
    + rewrite Eb. reflexivity.
Qed.

(** X12. Loading a single image twice gives the same result as
    loading it once; after a success the second call changes nothing, and
    a failure (missing file, unreadable image, null pixmap) leaves the
    image cache as it was. *)
Theorem load_single_image_again rm folder_name filename size :
  fst (load_single_image fs
         (snd (load_single_image fs rm folder_name filename size))
         folder_name filename size)
  = fst (load_single_image fs rm folder_name filename size)
  /\ (forall p,
        fst (load_single_image fs rm folder_name filename size) = Some p ->
        load_single_image fs
          (snd (load_single_image fs rm folder_name filename size))
          folder_name filename size
        = load_single_image fs rm folder_name filename size)
  /\ (fst (load_single_image fs rm folder_name filename size) = None ->
      image_cache (snd (load_single_image fs rm folder_name filename size))
      = image_cache rm).
Proof.
  unfold load_single_image.
  generalize (_get_cache_key folder_name (Some filename) (Some size)).
  intros key.
  set (path := os_path_join (get_resource_path fs folder_name) filename).
  destruct (image_cache rm !! key) as [c|] eqn:Ekey.
  - cbn [fst snd]. rewrite Ekey.
    split; [reflexivity|]. split; [reflexivity | discriminate].
  - destruct (os_path_exists fs path) eqn:Eex.
    + pose proof (load_and_scale_again rm path size) as Hagain.
      pose proof (load_and_scale_image_cache rm path size) as Hic.
      destruct (_load_and_scale_pixmap fs rm path size) as [[px|] rm1] eqn:E1;
        cbn [fst snd] in Hagain, Hic.
      * destruct (QPixmap_isNull px) eqn:Enull; cbn [negb fst snd].
        -- rewrite Hic, Ekey, ?Eex.
           destruct (_load_and_scale_pixmap fs rm1 path size) as [res rm2].
           cbn [fst] in Hagain. subst res. rewrite Enull. cbn.
           split; [reflexivity|]. split; [discriminate|]. intros _. first [exact Hic | reflexivity].
        -- cbn [image_cache]. rewrite lookup_insert_eq. cbn.
           split; [reflexivity|]. split; [reflexivity | discriminate].
      * cbn [fst snd]. rewrite Hic, Ekey, ?Eex.
        destruct (_load_and_scale_pixmap fs rm1 path size) as [res rm2].
        cbn [fst] in Hagain. subst res. cbn.
        split; [reflexivity|]. split; [discriminate|]. intros _. first [exact Hic | reflexivity].
    + cbn [fst snd]. rewrite Ekey, ?Eex.
      split; [reflexivity|]. split; [discriminate | reflexivity].
Qed.

(** X13. Loading a sound twice is the same as loading it once, result
    and manager; a missing sound file gives [None] and changes
    nothing. *)
Theorem load_sound_again rm folder_name filename :
  load_sound fs (snd (load_sound fs rm folder_name filename))
    folder_name filename
  = load_sound fs rm folder_name filename
  /\ (os_path_exists fs
        (os_path_join (get_resource_path fs folder_name) filename) = false ->
      sound_cache rm !! _get_cache_key folder_name (Some filename) None = None ->
      load_sound fs rm folder_name filename = (None, rm)).
Proof.
  unfold load_sound.
  generalize (_get_cache_key folder_name (Some filename) None). intros key.
  destruct (sound_cache rm !! key) as [c|] eqn:Ekey.
  - cbn [snd]. rewrite Ekey. split; [reflexivity | discriminate].
  - destruct (os_path_exists fs _) eqn:Eex; cbn [snd sound_cache].
    + rewrite lookup_insert_eq. split; [reflexivity | discriminate].
    + rewrite Ekey, ?Eex. split; reflexivity.
Qed.

(** *** The decode log is not read *)

Lemma same_caches_refl rm : same_caches rm rm.
Proof. repeat split. Qed.

Lemma same_caches_fill rm rm' path :
  same_caches rm rm' ->
  fst (fill_base_pixmap_cache fs rm path)
  = fst (fill_base_pixmap_cache fs rm' path)
  /\ same_caches (snd (fill_base_pixmap_cache fs rm path))
       (snd (fill_base_pixmap_cache fs rm' path)).
Proof.
  intros (Hf & Hi & Hs & Hb). unfold fill_base_pixmap_cache. rewrite Hb.
  destruct (base_pixmap_cache rm' !! path);
    [split; [reflexivity | repeat split; assumption]|].
  destruct (QImage fs path); (split; [reflexivity|]);
    repeat split; simpl; congruence.
Qed.

Lemma same_caches_load_and_scale rm rm' path size :
  same_caches rm rm' ->
  fst (_load_and_scale_pixmap fs rm path size)
  = fst (_load_and_scale_pixmap fs rm' path size)
  /\ same_caches (snd (_load_and_scale_pixmap fs rm path size))
       (snd (_load_and_scale_pixmap fs rm' path size)).
Proof.
  intros H. destruct (same_caches_fill rm rm' path H) as [Hr Hs].
  unfold _load_and_scale_pixmap.
  destruct (fill_base_pixmap_cache fs rm path) as [ok rm1],
    (fill_base_pixmap_cache fs rm' path) as [ok' rm1'].
  simpl in Hr, Hs. subst ok'.
  destruct ok; simpl; [|split; [reflexivity | exact Hs]].
  destruct Hs as (Hf & Hi & Hso & Hb). rewrite Hb.
  destruct (base_pixmap_cache rm1' !! path) as [b|];
    [|split; [reflexivity | repeat split; assumption]].
  destruct (QSize_eqb _ _); (split; [reflexivity | repeat split; assumption]).
Qed.

Lemma same_caches_loop dir size l : forall acc acc',
  fst acc = fst acc' -> same_caches (snd acc) (snd acc') ->
  fst (fold_left (load_frames_step fs dir size) l acc)
  = fst (fold_left (load_frames_step fs dir size) l acc')
  /\ same_caches (snd (fold_left (load_frames_step fs dir size) l acc))
       (snd (fold_left (load_frames_step fs dir size) l acc')).
Proof.
  induction l as [|i l IH]; intros acc acc' Hr Hs; [now split|].
  simpl. apply IH.
  - unfold load_frames_step. destruct acc as [fr rm], acc' as [fr' rm'].
    simpl in Hr, Hs. subst fr'.
    destruct (os_path_exists fs _); [|reflexivity].
    match goal with
    | |- context [_load_and_scale_pixmap fs rm ?path size] =>
        destruct (same_caches_load_and_scale rm rm' path size Hs) as [H1 H2];
        destruct (_load_and_scale_pixmap fs rm path size) as [res rm1],
          (_load_and_scale_pixmap fs rm' path size) as [res' rm1']
    end.
    simpl in H1. subst res'. destruct res as [px|]; [|reflexivity].
    now destruct (negb (QPixmap_isNull px)).
  - unfold load_frames_step. destruct acc as [fr rm], acc' as [fr' rm'].
    simpl in Hr, Hs. subst fr'.
    destruct (os_path_exists fs _); [|exact Hs].
    match goal with
    | |- context [_load_and_scale_pixmap fs rm ?path size] =>
        destruct (same_caches_load_and_scale rm rm' path size Hs) as [H1 H2];
        destruct (_load_and_scale_pixmap fs rm path size) as [res rm1],
          (_load_and_scale_pixmap fs rm' path size) as [res' rm1']
    end.
    simpl in H1, H2. subst res'. destruct res as [px|]; [|exact H2].
    now destruct (negb (QPixmap_isNull px)).
Qed.

Lemma same_caches_load_frames rm rm' folder_name n size :
  same_caches rm rm' ->
  fst (load_frames fs rm folder_name n size)
  = fst (load_frames fs rm' folder_name n size)
  /\ same_caches (snd (load_frames fs rm folder_name n size))
       (snd (load_frames fs rm' folder_name n size)).
Proof.
  intros H. pose proof H as (Hf & Hi & Hs & Hb). unfold load_frames.
  rewrite Hf.
  destruct (frame_cache rm' !! _); [now split|].
  destruct (negb (os_path_exists fs _)); [now split|].
  destruct (same_caches_loop (get_resource_path fs folder_name) size
              (range 1 (n + 1)) ([], rm) ([], rm') eq_refl H) as [H1 H2].
  destruct (fold_left _ _ ([], rm)) as [frs rm1],
    (fold_left _ _ ([], rm')) as [frs' rm1'].
  simpl in H1, H2 |- *. subst frs'. split; [reflexivity|].
  destruct H2 as (Hf2 & Hi2 & Hs2 & Hb2).
  repeat split; simpl; congruence.
Qed.

Lemma same_caches_load_single_image rm rm' folder_name filename size :
  same_caches rm rm' ->
  fst (load_single_image fs rm folder_name filename size)
  = fst (load_single_image fs rm' folder_name filename size)
  /\ same_caches (snd (load_single_image fs rm folder_name filename size))
       (snd (load_single_image fs rm' folder_name filename size)).
Proof.
  intros H. pose proof H as (Hf & Hi & Hs & Hb). unfold load_single_image.
  rewrite Hi.
  destruct (image_cache rm' !! _); [now split|].
  destruct (os_path_exists fs _); [|now split].
  match goal with
  | |- context [_load_and_scale_pixmap fs rm ?path size] =>
      destruct (same_caches_load_and_scale rm rm' path size H) as [H1 H2];
      destruct (_load_and_scale_pixmap fs rm path size) as [res rm1],
        (_load_and_scale_pixmap fs rm' path size) as [res' rm1']
  end.
  simpl in H1, H2. subst res'. destruct res as [px|]; [|now split].
  destruct (negb (QPixmap_isNull px)); [|now split].
  split; [reflexivity|]. destruct H2 as (Hf2 & Hi2 & Hs2 & Hb2).
  repeat split; simpl; congruence.
Qed.

Lemma same_caches_load_sound rm rm' folder_name filename :
  same_caches rm rm' ->
  fst (load_sound fs rm folder_name filename)
  = fst (load_sound fs rm' folder_name filename)
  /\ same_caches (snd (load_sound fs rm folder_name filename))
       (snd (load_sound fs rm' folder_name filename)).
Proof.
  intros H. pose proof H as (Hf & Hi & Hs & Hb). unfold load_sound.
  rewrite Hs.
  destruct (sound_cache rm' !! _); [now split|].
  destruct (os_path_exists fs _); [|now split].
  split; [reflexivity|]. repeat split; simpl; congruence.
Qed.

Lemma same_caches_run_calls cs : forall rm rm',
  same_caches rm rm' ->
  same_caches (run_calls fs cs rm) (run_calls fs cs rm').
Proof.
  induction cs as [|c cs IH]; intros rm rm' H; [exact H|].
  unfold run_calls. simpl. apply IH. destruct c; simpl.
  - now apply same_caches_load_frames.
  - now apply same_caches_load_single_image.
  - now apply same_caches_load_sound.
  - unfold preload_resources. generalize priority_animations.
    intros l. revert rm rm' H. clear IH.
    induction l as [|a l IHl]; intros rm rm' H; [exact H|].
    simpl. apply IHl. unfold preload_step.
    destruct (animations a); [|exact H]. now apply same_caches_load_frames.
Qed.

(** X14. After [clear_cache] the manager answers every later sequence
    of loading calls as a fresh manager does: same frames, same images,
    same sounds. *)
Theorem clear_cache_is_fresh rm cs :
  (forall folder_name n size,
     fst (load_frames fs (run_calls fs cs (clear_cache rm)) folder_name n size)
     = fst (load_frames fs (run_calls fs cs init) folder_name n size))
  /\ (forall folder_name filename size,
        fst (load_single_image fs (run_calls fs cs (clear_cache rm))
               folder_name filename size)
        = fst (load_single_image fs (run_calls fs cs init)
                 folder_name filename size))
  /\ (forall folder_name filename,
        fst (load_sound fs (run_calls fs cs (clear_cache rm))
               folder_name filename)
        = fst (load_sound fs (run_calls fs cs init) folder_name filename)).
Proof.
  assert (same_caches (run_calls fs cs (clear_cache rm))
            (run_calls fs cs init)) as H
    by (apply same_caches_run_calls; repeat split).
  split; [|split]; intros.
  - now apply same_caches_load_frames.
  - now apply same_caches_load_single_image.
  - now apply same_caches_load_sound.
Qed.

End resource_more.

(** * Further examples *)

Section more_examples.

Import DesktopPet.

Local Abbreviation start fs := (_start_animation fs ANIMATIONS).
Local Abbreviation playing self :=
  (AnimationState.is_playing (animation_state self)).
Local Abbreviation active self :=
  (AnimationState.current_animation (animation_state self)).

(** X2, on the pet right after start-up: a forced request for the
    heixiu animation, then a stop, leaves the window as a stop alone
    does. *)
Lemma heixiu_then_stop_restores_window :
  window_size (_stop_current_animation
                 (snd (start fs_full (started_pet fs_full) HEIXIU true)))
  = window_size (_stop_current_animation (started_pet fs_full)).
Proof.
  apply (start_then_stop_restores_window fs_full ANIMATIONS
           (started_pet fs_full) HEIXIU true).
  vm_compute. reflexivity.
Defined.

(** X4, on the pet playing the walk-away animation: its end leaves the
    pet idle and consumes no random draw. *)
Lemma walk_away_end_is_idle :
  active (_end_current_animation fs_full ANIMATIONS
            (pet_playing fs_full WALK_AWAY)) = None
  /\ playing (_end_current_animation fs_full ANIMATIONS
                (pet_playing fs_full WALK_AWAY)) = false
  /\ rng_pos (_end_current_animation fs_full ANIMATIONS
                (pet_playing fs_full WALK_AWAY))
     = rng_pos (pet_playing fs_full WALK_AWAY).
Proof.
  destruct (end_without_chain_is_idle fs_full ANIMATIONS
              (pet_playing fs_full WALK_AWAY))
    as (H1 & _ & H3 & _ & _ & _ & _ & _ & H9 & _).
  - vm_compute. intros Hn. discriminate Hn.
  - vm_compute. intros Hn.
    apply elem_of_cons in Hn as [Hn | Hn]; [discriminate Hn |].
    apply elem_of_cons in Hn as [Hn | Hn]; [discriminate Hn |].
    apply elem_of_cons in Hn as [Hn | Hn]; [discriminate Hn |].
    apply elem_of_nil in Hn. exact Hn.
  - split; [exact H1 | split; [exact H3 | exact H9]].
Defined.

(** X5, on the pet playing the milk animation, with draws that all
    give 1: the end of the animation consumes one draw and is a forced
    start of the burp animation. *)
Lemma drink_milk_end_draws_once :
  let self := pet_playing fs_full DRINK_MILK in
  rng_pos (_end_current_animation fs_full ANIMATIONS self)
  = S (rng_pos self)
  /\ _end_current_animation fs_full ANIMATIONS self
     = snd (start fs_full
              (set_rng_pos (S (rng_pos self))
                 (call_completion_callback ANIMATIONS (active self)
                    (emit enter_end_current_animation self)))
              BURP true).
Proof.
  intros self.
  destruct (eating_end_draws_once fs_full ANIMATIONS self)
    as (_ & H2 & H3 & _).
  - vm_compute. apply list_elem_of_here.
  - split; [exact H2 | apply H3].
    vm_compute. intros Hn. discriminate Hn.
Defined.

(** X6, on the pet playing the walk-away animation: a hundred ticks
    raise nothing. *)
Lemma walk_away_hundred_ticks :
  exists s,
    ticks fs_full ANIMATIONS 100 (pet_playing fs_full WALK_AWAY) = Some s
    /\ cursor_in_range ANIMATIONS (animation_state s).
Proof.
  apply (ticks_never_raise fs_full ANIMATIONS
           (pet_playing fs_full WALK_AWAY) 100).
  apply cursor_in_range_start.
  vm_compute. intros Hn. discriminate Hn.
Defined.

(** X9, on a fresh manager and the complete installation: the first
    three frames of the walk-away folder, at the size of the files. *)
Lemma walk_away_three_frames :
  fst (ResourceManager.load_frames fs_full ResourceManager.init "zoukai" 3
         (mkQSize 200 200))
  = map (λ i, scaled_to (mkQSize 200 200)
                (fromImage (frame_path fs_full "zoukai" i)
                   (mkQSize 200 200)))
        (seqZ 1 3).
Proof.
  apply (load_frames_complete fs_full ResourceManager.init "zoukai" 3
           (mkQSize 200 200) (λ _, mkQSize 200 200)).
  - apply init_consistent.
  - vm_compute. reflexivity.
  - vm_compute. reflexivity.
  - reflexivity.
  - reflexivity.
  - intros i Hi.
    assert (i = 1 \/ i = 2 \/ i = 3) as [-> | [-> | ->]] by lia;
      (split; vm_compute; reflexivity).
Defined.

(** X10, on a fresh manager and the installation without the walk-away
    folder: the request returns no frame and caches nothing. *)
Lemma walk_away_folder_missing :
  ResourceManager.load_frames fs_no_walk_away ResourceManager.init
    "zoukai" 20 (mkQSize 200 200)
  = ([], ResourceManager.init).
Proof.
  destruct (load_frames_miss fs_no_walk_away ResourceManager.init
              "zoukai" 20 (mkQSize 200 200)) as (_ & H & _).
  - vm_compute. reflexivity.
  - apply H. vm_compute. reflexivity.
Defined.

End more_examples.

(** * Properties of the whole widget *)

Section widget.

Variable fs : FileSystem.
Variable ANIMATIONS : AnimationType -> option AnimationConfig.
Variable GPUtil : bool.
Variable availableGeometry : option QRect.

Import DesktopPet.

Local Abbreviation start := (_start_animation fs ANIMATIONS).
Local Abbreviation playing self :=
  (AnimationState.is_playing (animation_state self)).
Local Abbreviation active self :=
  (AnimationState.current_animation (animation_state self)).

(** *** What the scheduler leaves alone *)

Lemma stop_flags self :
  is_force_sleeping (_stop_current_animation self) = is_force_sleeping self
  /\ sleep_image (_stop_current_animation self) = sleep_image self.
Proof.
  unfold _stop_current_animation.
  destruct self as [rm st os fsl cl mf si ws at_ ft mp0 ck rg rp lg]; simpl.
  destruct st as [ca cp ip ci lc stt dr cf osz]; simpl.
  destruct mp0 as [[ps md]|]; simpl; try destruct ps; simpl;
    destruct osz as [sz|]; simpl; try destruct (QSize_bool sz); simpl;
    repeat split.
Qed.

Lemma play_sound_flags config self :
  free_active_timer (play_sound fs config self) = free_active_timer self
  /\ is_force_sleeping (play_sound fs config self) = is_force_sleeping self
  /\ main_frames (play_sound fs config self) = main_frames self.
Proof.
  unfold play_sound.
  destruct (has_sound config), (sound_file config) as [f|],
    (media_player self) as [mp|]; try (repeat split; reflexivity).
  destruct (bool_decide (f = "")); [repeat split; reflexivity|].
  destruct (ResourceManager.load_sound _ _ _ _) as [[sn|] rm];
    repeat split; reflexivity.
Qed.

(** A request leaves the pet as it is, or it has gone through
    [_stop_current_animation]: the free-roaming timer is stopped, and so is
    the animation timer unless the request succeeds. *)
Lemma start_shape self a force :
  snd (start self a force) = self
  \/ (free_active_timer (snd (start self a force)) = None
      /\ (fst (start self a force) = false ->
          animation_timer (snd (start self a force)) = None
          /\ AnimationState.set_original_size None
               (animation_state (snd (start self a force)))
             = AnimationState.set_original_size None (animation_state self))).
Proof.
  unfold _start_animation.
  destruct (ANIMATIONS a) as [config|]; [|now left].
  destruct (negb force && _); [now left|]. right.
  destruct (stop_timers self) as [Ht1 Ht2].
  destruct (get_animation_frames_state fs ANIMATIONS
              (_stop_current_animation self) a) as [rm Hrm].
  destruct (_get_animation_frames fs ANIMATIONS _ a) as [[|f0 fr] s1];
    cbn [snd fst] in Hrm |- *; subst s1.
  - cbn [free_active_timer animation_timer animation_state
           set_resource_manager].
    split; [exact Ht2|]. intros _. split; [exact Ht1|].
    apply stop_animation_state.
  - split; [|discriminate].
    cbn [free_active_timer emit set_animation_timer].
    match goal with
    | |- context [play_sound fs config ?s] =>
        destruct (play_sound_flags config s) as (-> & _)
    end.
    destruct (negb (Qeq_bool (size_scale config) 1));
      cbn [free_active_timer emit set_animation_state do_resize
             set_window_size set_resource_manager]; exact Ht2.
Qed.

Lemma start_flags self a force :
  is_force_sleeping (snd (start self a force)) = is_force_sleeping self
  /\ main_frames (snd (start self a force)) = main_frames self.
Proof.
  unfold _start_animation.
  destruct (ANIMATIONS a) as [config|]; [|now split].
  destruct (negb force && _); [now split|].
  destruct (stop_flags self) as [Hf _].
  destruct (stop_preserves self) as (_ & _ & _ & Hm & _).
  destruct (get_animation_frames_state fs ANIMATIONS
              (_stop_current_animation self) a) as [rm Hrm].
  destruct (_get_animation_frames fs ANIMATIONS _ a) as [[|f0 fr] s1];
    cbn [snd fst] in Hrm |- *; subst s1.
  - cbn [is_force_sleeping main_frames set_resource_manager]. now split.
  - cbn [is_force_sleeping main_frames emit set_animation_timer].
    match goal with
    | |- context [play_sound fs config ?s] =>
        destruct (play_sound_flags config s) as (_ & -> & ->)
    end.
    destruct (negb (Qeq_bool (size_scale config) 1));
      cbn [is_force_sleeping main_frames emit set_animation_state do_resize
             set_window_size set_resource_manager]; now split.
Qed.

(** *** The timers stay sound *)

Lemma timers_sound_stopped p :
  animation_timer p = None -> free_active_timer p = None ->
  timers_sound ANIMATIONS p.
Proof. intros H1 H2. split; intros Hn; congruence. Qed.

Lemma timers_sound_not_playing p :
  playing p = false -> timers_sound ANIMATIONS p.
Proof.
  intros Hp. split; [|intros _; exact Hp].
  intros _ Hp'. congruence.
Qed.

Lemma timers_sound_eq p q :
  animation_state q = animation_state p ->
  animation_timer q = animation_timer p ->
  free_active_timer q = free_active_timer p ->
  timers_sound ANIMATIONS p -> timers_sound ANIMATIONS q.
Proof. unfold timers_sound. intros -> -> ->. exact (fun H => H). Qed.

Lemma timers_sound_start p a force :
  timers_sound ANIMATIONS p ->
  timers_sound ANIMATIONS (snd (start p a force)).
Proof.
  intros Hts.
  destruct (start_shape p a force) as [-> | [Hft Hfalse]]; [exact Hts|].
  destruct (fst (start p a force)) eqn:Hok.
  - apply start_true_iff in Hok as Hex.
    destruct Hex as (config & Hc & _ & Hne).
    destruct (start_animation_plays fs ANIMATIONS p a config force Hc Hok)
      as (Ha & Hp & _ & Hi & _ & Hcf & _).
    split; [|intros Hn; congruence].
    intros _ _ frs Hfrs _. split; [now exists a, config|].
    rewrite Hi. lia.
  - destruct (Hfalse eq_refl) as [Hat _].
    now apply timers_sound_stopped.
Qed.

Lemma callback_fields cur self :
  animation_state (call_completion_callback ANIMATIONS cur self)
  = animation_state self
  /\ animation_timer (call_completion_callback ANIMATIONS cur self)
     = animation_timer self
  /\ free_active_timer (call_completion_callback ANIMATIONS cur self)
     = free_active_timer self
  /\ is_force_sleeping (call_completion_callback ANIMATIONS cur self)
     = is_force_sleeping self
  /\ main_frames (call_completion_callback ANIMATIONS cur self)
     = main_frames self.
Proof.
  unfold call_completion_callback.
  destruct cur as [c|]; [|repeat split].
  destruct (ANIMATIONS c) as [config|]; [|repeat split].
  destruct (on_complete config); repeat split.
Qed.

Lemma timers_sound_end p :
  timers_sound ANIMATIONS p ->
  timers_sound ANIMATIONS (_end_current_animation fs ANIMATIONS p).
Proof.
  intros Hts. unfold _end_current_animation.
  destruct (callback_fields (active p) (emit enter_end_current_animation p))
    as (Hst & Hat & Hft & _).
  assert (timers_sound ANIMATIONS
            (call_completion_callback ANIMATIONS (active p)
               (emit enter_end_current_animation p))) as Hts0
    by (revert Hts; now apply timers_sound_eq).
  assert (forall s, timers_sound ANIMATIONS
                      (show_last_main_frame
                         (set_animation_state
                            (AnimationState.reset
                               (animation_state (_stop_current_animation s)))
                            (_stop_current_animation s)))) as Hfb.
  { intros s. pose proof (fallback_idle s) as H. cbv zeta in H.
    destruct H as (_ & _ & _ & _ & _ & _ & H7 & H8 & _).
    now apply timers_sound_stopped. }
  destruct (bool_decide (active p = Some ANGER)).
  - now apply timers_sound_start.
  - destruct (bool_decide (_ ∈ _)); [|apply Hfb].
    unfold randint. cbn [fst snd].
    destruct (_ <=? 30); [|apply Hfb].
    apply timers_sound_start. revert Hts0. now apply timers_sound_eq.
Qed.

Lemma timers_sound_end_free p :
  free_active_timer p = None ->
  free_active_timer (_end_current_animation fs ANIMATIONS p) = None.
Proof.
  intros Hft. unfold _end_current_animation.
  destruct (callback_fields (active p) (emit enter_end_current_animation p))
    as (_ & _ & Hft0 & _).
  cbn [free_active_timer emit] in Hft0. rewrite Hft in Hft0.
  assert (forall s, free_active_timer
                      (show_last_main_frame
                         (set_animation_state
                            (AnimationState.reset
                               (animation_state (_stop_current_animation s)))
                            (_stop_current_animation s))) = None) as Hfb.
  { intros s. pose proof (fallback_idle s) as H. cbv zeta in H.
    now destruct H as (_ & _ & _ & _ & _ & _ & _ & H8 & _). }
  assert (forall s a, free_active_timer s = None ->
                      free_active_timer (snd (start s a true)) = None) as Hst.
  { intros s a Hs. destruct (start_shape s a true) as [-> | [H _]];
      assumption. }
  destruct (bool_decide (active p = Some ANGER)); [now apply Hst|].
  destruct (bool_decide (_ ∈ _)); [|apply Hfb].
  unfold randint. cbn [fst snd].
  destruct (_ <=? 30); [|apply Hfb].
  apply Hst. exact Hft0.
Qed.

(** A tick of an active animation timer on sound timers does not raise,
    and leaves the timers sound. *)
Lemma timers_sound_tick p :
  timers_sound ANIMATIONS p ->
  animation_timer p <> None ->
  exists s,
    _update_current_animation fs ANIMATIONS p = Some s
    /\ timers_sound ANIMATIONS s.
Proof.
  intros Hts Hat. pose proof Hts as [HJ HK]. specialize (HJ Hat).
  destruct (playing p) eqn:Hp.
  2:{ exists p. split; [apply tick_idle; now left | exact Hts]. }
  assert (free_active_timer p = None) as Hft.
  { destruct (free_active_timer p); [|reflexivity].
    specialize (HK ltac:(discriminate)). congruence. }
  destruct (cursor_in_range_tick fs ANIMATIONS p HJ) as (s & Hs & Hcir).
  exists s. split; [exact Hs|].
  revert Hs. unfold _update_current_animation. rewrite Hp.
  destruct (AnimationState.cached_frames (animation_state p))
    as [[|f0 fr]|]; try (intros [= <-]; exact Hts).
  destruct (active p) as [a|]; [|discriminate].
  destruct (ANIMATIONS a) as [config|]; [|discriminate].
  destruct (_ <? _).
  - destruct (py_index _ _); [|discriminate]. intros [= <-].
    split; [intros _; exact Hcir|]. cbn. intros Hn. congruence.
  - destruct (loops config =? -1).
    + intros [= <-]. split; [intros _; exact Hcir|].
      cbn. intros Hn. congruence.
    + destruct (_ <=? _); intros [= Hs].
      * split; [intros _; exact Hcir|].
        rewrite <- Hs. intros Hn. exfalso. apply Hn.
        apply timers_sound_end_free. exact Hft.
      * split; [intros _; exact Hcir|].
        rewrite <- Hs. cbn. intros Hn. congruence.
Qed.


Lemma timers_sound_index0 p :
  timers_sound ANIMATIONS p ->
  timers_sound ANIMATIONS
    (set_animation_state
       (AnimationState.set_current_index 0 (animation_state p)) p).
Proof.
  intros [HJ HK]. split.
  - intros Hat Hp frs Hf Hne. cbn in Hat, Hp, Hf.
    destruct (HJ Hat Hp frs Hf Hne) as [Hex _].
    split; [exact Hex|]. cbn. lia.
  - exact HK.
Qed.

Lemma timers_sound_enter_sleep p :
  timers_sound ANIMATIONS p -> timers_sound ANIMATIONS (_enter_sleep p).
Proof.
  intros Hts. unfold _enter_sleep.
  destruct (_is_sleeping p || is_force_sleeping p); [exact Hts|].
  destruct (stop_timers p) as [Ht1 Ht2].
  destruct (sleep_image _); now apply timers_sound_stopped.
Qed.

Lemma timers_sound_check_anger p :
  timers_sound ANIMATIONS p ->
  timers_sound ANIMATIONS (_check_anger_condition fs ANIMATIONS p).
Proof.
  intros Hts. unfold _check_anger_condition.
  destruct (15 <=? _); [apply timers_sound_start|];
    revert Hts; now apply timers_sound_eq.
Qed.

Lemma py_index_mod {A : Type} (l : list A) (i : Z) :
  l <> [] -> exists x, py_index l (i mod Z.of_nat (length l)) = Some x.
Proof.
  intros Hne. assert (0 < Z.of_nat (length l)) as Hlen
    by (destruct l; [congruence | simpl; lia]).
  pose proof (Z.mod_pos_bound i _ Hlen) as [H0 H1].
  unfold py_index. replace (0 <=? _) with true by (symmetry; lia).
  apply lookup_lt_is_Some_2. lia.
Qed.

(** *** The handlers of the widget *)

Local Abbreviation ts w := (timers_sound ANIMATIONS (PetWidget.pet w)).

Lemma widget_start_sound a force w :
  ts w -> ts (PetWidget._start_animation fs ANIMATIONS a force w).
Proof. apply timers_sound_start. Qed.

Lemma on_main_timer_sound w :
  ts w -> ts (PetWidget._on_main_timer fs ANIMATIONS w).
Proof.
  intros Hts. unfold PetWidget._on_main_timer.
  destruct (_ || _); [exact Hts|].
  unfold PetWidget.randint, randint.
  destruct (_ <=? 5); [apply timers_sound_start|];
    revert Hts; now apply timers_sound_eq.
Qed.

Lemma end_free_active_sound w :
  ts w -> ts (PetWidget._end_free_active w).
Proof.
  intros [HJ HK]. unfold PetWidget._end_free_active,
    PetWidget.show_last_main_frame, PetWidget.with_state, PetWidget.lift.
  cbn [PetWidget.pet PetWidget.set_pet PetWidget.set_free_active_type].
  unfold show_last_main_frame.
  match goal with
  | |- context [match ?x with Some _ => _ | None => _ end] => destruct x
  end.
  all: split; [|intros Hn; now cbn in Hn].
  all: intros Hat Hp frs Hf Hne; cbn in Hat, Hp, Hf;
    destruct (HJ Hat Hp frs Hf Hne) as [Hex _];
    (split; [exact Hex | cbn; lia]).
Qed.

Lemma get_frames_fields w a :
  exists rm,
    snd (PetWidget._get_animation_frames fs ANIMATIONS w a)
    = PetWidget.set_pet (set_resource_manager rm (PetWidget.pet w)) w.
Proof.
  unfold PetWidget._get_animation_frames.
  destruct (get_animation_frames_state fs ANIMATIONS (PetWidget.pet w) a)
    as [rm Hrm].
  destruct (_get_animation_frames fs ANIMATIONS _ a) as [fr p].
  cbn [snd] in Hrm |- *. subst p. now exists rm.
Qed.

Lemma reverse_fields w :
  PetWidget.pet (PetWidget._reverse_walk_direction w)
  = set_animation_state
      (AnimationState.set_current_index 0 (animation_state (PetWidget.pet w)))
      (PetWidget.pet w)
  /\ PetWidget.pos (PetWidget._reverse_walk_direction w) = PetWidget.pos w.
Proof.
  unfold PetWidget._reverse_walk_direction.
  cbn [PetWidget.free_active_type PetWidget.set_free_active_direction].
  destruct (bool_decide _); [now split|].
  destruct (bool_decide _); now split.
Qed.

Lemma move_window_pet step w :
  PetWidget.pet (PetWidget._move_window_horizontally availableGeometry step w)
  = PetWidget.pet w
  \/ PetWidget.pet
       (PetWidget._move_window_horizontally availableGeometry step w)
     = set_animation_state
         (AnimationState.set_current_index 0
            (animation_state (PetWidget.pet w))) (PetWidget.pet w).
Proof.
  unfold PetWidget._move_window_horizontally.
  destruct (_ <? QRect_left _);
    [right; cbn [PetWidget.pet PetWidget.move]; apply reverse_fields|].
  destruct (_ <? _);
    [right; cbn [PetWidget.pet PetWidget.move]; apply reverse_fields|].
  now left.
Qed.

(** The slot of the free-roaming timer does not raise; it starts and
    stops no animation and leaves the force-sleep flag and the size of the
    window alone. *)
Lemma update_free_active_pet w :
  exists w',
    PetWidget._update_free_active fs ANIMATIONS availableGeometry w = Some w'
    /\ playing (PetWidget.pet w') = playing (PetWidget.pet w)
    /\ is_force_sleeping (PetWidget.pet w')
       = is_force_sleeping (PetWidget.pet w)
    /\ window_size (PetWidget.pet w') = window_size (PetWidget.pet w).
Proof.
  unfold PetWidget._update_free_active.
  destruct (negb _); [now exists w|].
  destruct (_ && _).
  { eexists. split; [reflexivity|].
    unfold PetWidget._end_free_active, PetWidget.show_last_main_frame,
      PetWidget.with_state, PetWidget.lift.
    cbn [PetWidget.pet PetWidget.set_pet PetWidget.set_free_active_type].
    unfold show_last_main_frame.
    match goal with
    | |- context [match ?x with Some _ => _ | None => _ end] => destruct x
    end; repeat split. }
  destruct (bool_decide (_ ∈ _)).
  - unfold PetWidget._update_walk_animation.
    match goal with
    | |- context [PetWidget._get_animation_frames fs ANIMATIONS w ?a] =>
        destruct (get_frames_fields w a) as [rm Hrm];
        destruct (PetWidget._get_animation_frames fs ANIMATIONS w a)
          as [[|f0 fr] w1]
    end; cbn [snd] in Hrm; subst w1.
    + eexists. split; [reflexivity|].
      match goal with
      | |- context [PetWidget._move_window_horizontally _ ?st ?x] =>
          destruct (move_window_pet st x) as [-> | ->]
      end; repeat split.
    + destruct (py_index_mod (f0 :: fr)
                  (AnimationState.current_index
                     (animation_state
                        (PetWidget.pet
                           (PetWidget.set_pet
                              (set_resource_manager rm (PetWidget.pet w)) w))))
                  ltac:(discriminate)) as [frame ->].
      eexists. split; [reflexivity|].
      match goal with
      | |- context [PetWidget._move_window_horizontally _ ?st ?x] =>
          destruct (move_window_pet st x) as [-> | ->]
      end; repeat split.
  - destruct (bool_decide _); [|now exists w].
    destruct (get_frames_fields w SIT) as [rm Hrm].
    destruct (PetWidget._get_animation_frames fs ANIMATIONS w SIT)
      as [[|f0 fr] w1]; cbn [snd] in Hrm; subst w1;
      eexists; (split; [reflexivity | repeat split]).
Qed.


Lemma enter_sleep_sound w : ts w -> ts (PetWidget._enter_sleep w).
Proof. apply timers_sound_enter_sleep. Qed.

Lemma enter_force_sleep_sound w :
  ts w -> ts (PetWidget._enter_force_sleep w).
Proof.
  intros Hts. unfold PetWidget._enter_force_sleep.
  cbn [PetWidget.pet PetWidget.set_sleep_hint_label_visible].
  apply timers_sound_enter_sleep.
  revert Hts. now apply timers_sound_eq.
Qed.

Lemma exit_force_sleep_sound w : ts (PetWidget._exit_force_sleep w).
Proof.
  unfold PetWidget._exit_force_sleep, PetWidget.show_last_main_frame,
    PetWidget.reset, PetWidget.with_state, PetWidget.lift.
  cbn [PetWidget.pet PetWidget.set_pet PetWidget.set_sleep_hint_label_visible].
  unfold show_last_main_frame.
  match goal with
  | |- context [match ?x with Some _ => _ | None => _ end] => destruct x
  end; now apply timers_sound_not_playing.
Qed.

Lemma reset_sound w :
  ts (PetWidget.show_last_main_frame (PetWidget.reset w)).
Proof.
  unfold PetWidget.show_last_main_frame,
    PetWidget.reset, PetWidget.with_state, PetWidget.lift.
  cbn [PetWidget.pet PetWidget.set_pet].
  unfold show_last_main_frame.
  match goal with
  | |- context [match ?x with Some _ => _ | None => _ end] => destruct x
  end; now apply timers_sound_not_playing.
Qed.

Lemma wake_up_sound w : ts w -> ts (PetWidget._wake_up w).
Proof.
  intros Hts. unfold PetWidget._wake_up.
  destruct (_ || _); [exact Hts | apply reset_sound].
Qed.

Lemma update_status_sound hour cpu_percent getGPUs w :
  ts w ->
  ts (PetWidget._update_status fs ANIMATIONS GPUtil hour cpu_percent getGPUs w).
Proof.
  intros Hts. unfold PetWidget._update_status.
  destruct (SystemMonitor.get_cpu_usage _ _ _) as [cpu sm].
  destruct (SystemMonitor.get_gpu_usage _ _ _ _) as [gpu sm'].
  match goal with
  | |- context [PetWidget._start_animation _ _ ANXIETY true ?x] =>
      set (w1 := x)
  end.
  assert (ts w1) as H1.
  { subst w1. destruct (_ && _); [now apply enter_force_sleep_sound|].
    destruct (_ && _); [apply exit_force_sleep_sound | exact Hts]. }
  clearbody w1.
  destruct (_ && _ && _); [now apply widget_start_sound|].
  destruct (_ && _); [now apply timers_sound_end | exact H1].
Qed.

Lemma enter_heixiu_sleep_sound w :
  ts w -> ts (PetWidget._enter_heixiu_sleep w).
Proof.
  intros Hts. unfold PetWidget._enter_heixiu_sleep.
  destruct (negb _); [exact Hts|].
  destruct (stop_timers (PetWidget.pet w)) as [Ht1 Ht2].
  cbn [PetWidget.heixiu_sleep_image PetWidget.with_state PetWidget.lift
         PetWidget.set_pet PetWidget._stop_current_animation].
  destruct (PetWidget.heixiu_sleep_image w).
  - now apply timers_sound_stopped.
  - apply timers_sound_enter_sleep. now apply timers_sound_stopped.
Qed.

Lemma check_idle_time_sound w :
  ts w -> ts (PetWidget._check_idle_time w).
Proof.
  intros Hts. unfold PetWidget._check_idle_time.
  destruct (Qgt_bool _ _); [|exact Hts].
  destruct (_ && _); [now apply enter_heixiu_sleep_sound|].
  destruct (_ && _); [now apply enter_sleep_sound | exact Hts].
Qed.

Lemma mouse_release_sound button event_pos w :
  ts w -> ts (PetWidget.mouseReleaseEvent fs ANIMATIONS button event_pos w).
Proof.
  intros Hts. unfold PetWidget.mouseReleaseEvent.
  destruct (PetWidget.is_force_sleeping w); [exact Hts|].
  destruct (button =? LeftButton); [|exact Hts].
  destruct (PetWidget._is_sleeping _); [now apply wake_up_sound|].
  cbn [PetWidget.pet PetWidget.set_drag_position
         PetWidget.set_mouse_press_pos].
  destruct (PetWidget.mouse_press_pos _) as [press|]; [|exact Hts].
  destruct (_ && _); [|exact Hts].
  destruct (PetWidget.is_heixiu_mode _);
    [apply timers_sound_start; exact Hts|].
  unfold PetWidget.randint, randint.
  apply timers_sound_check_anger.
  destruct (_ <? 10); [|destruct (_ <? 20)];
    apply timers_sound_start; revert Hts; now apply timers_sound_eq.
Qed.

Lemma stop_reset_sound w :
  ts (PetWidget.reset (PetWidget._stop_current_animation w)).
Proof. now apply timers_sound_not_playing. Qed.

Lemma start_free_active_sound w :
  ts w -> ts (PetWidget.start_free_active w).
Proof.
  intros Hts. unfold PetWidget.start_free_active.
  destruct (PetWidget.is_force_sleeping w); [exact Hts|].
  unfold PetWidget.randint, randint.
  destruct (_ <=? 48); [|destruct (_ <=? 96)];
    now apply timers_sound_not_playing.
Qed.

Lemma toggle_heixiu_mode_sound w :
  ts w -> ts (PetWidget.toggle_heixiu_mode fs ANIMATIONS w).
Proof.
  intros Hts. unfold PetWidget.toggle_heixiu_mode.
  cbn [PetWidget.is_heixiu_mode PetWidget.set_is_heixiu_mode].
  destruct (negb _); [apply timers_sound_start; exact Hts|].
  unfold PetWidget.show_last_main_frame, PetWidget.restore_original_size,
    PetWidget.reset, PetWidget.with_state, PetWidget.lift.
  cbn [PetWidget.pet PetWidget.set_pet].
  unfold show_last_main_frame.
  match goal with
  | |- context [match ?x with Some _ => _ | None => _ end] => destruct x
  end; now apply timers_sound_not_playing.
Qed.

Lemma restart_animation_sound w : ts (PetWidget._restart_animation w).
Proof.
  unfold PetWidget._restart_animation.
  cbn [PetWidget.pet PetWidget.set_main_timer].
  match goal with
  | |- context [match ?x with [] => _ | _ :: _ => _ end] => destruct x
  end; now apply timers_sound_not_playing.
Qed.

Lemma trigger_sound a w :
  ts w -> ts (PetWidget.trigger fs ANIMATIONS a w).
Proof.
  intros Hts. destruct a as [| speed | | | | a]; cbn [PetWidget.trigger].
  - now apply end_free_active_sound.
  - exact Hts.
  - apply restart_animation_sound.
  - now apply start_free_active_sound.
  - now apply toggle_heixiu_mode_sound.
  - destruct (bool_decide _); [now apply widget_start_sound | exact Hts].
Qed.

(** Every event is handled without an exception, and leaves the timers
    sound. *)
Lemma handle_sound now i w :
  ts w ->
  exists w',
    PetWidget.handle fs ANIMATIONS GPUtil availableGeometry now i w = Some w'
    /\ ts w'.
Proof.
  intros Hts0. unfold PetWidget.handle.
  set (w0 := PetWidget.lift (set_clock now) w).
  assert (ts w0) as Hts by (revert Hts0; now apply timers_sound_eq).
  clearbody w0. clear Hts0.
  destruct i as [| | | hour cpu_percent getGPUs | | button globalPos event_pos
                 | buttons globalPos | button event_pos | a].
  - destruct (PetWidget.main_timer w0); eexists; (split; [reflexivity|]);
      [now apply on_main_timer_sound | exact Hts].
  - destruct (animation_timer (PetWidget.pet w0)) as [ms|] eqn:Hat;
      [|now exists w0].
    destruct (timers_sound_tick (PetWidget.pet w0) Hts
                ltac:(rewrite Hat; discriminate)) as (s & -> & Hs).
    eexists. split; [reflexivity | exact Hs].
  - destruct (free_active_timer (PetWidget.pet w0)) as [ms|] eqn:Hft;
      [|now exists w0].
    destruct Hts as [_ HK].
    destruct (update_free_active_pet w0) as (w' & -> & Hp & _).
    exists w'. split; [reflexivity|]. apply timers_sound_not_playing.
    rewrite Hp. apply HK. rewrite Hft. discriminate.
  - eexists. split; [reflexivity | now apply update_status_sound].
  - eexists. split; [reflexivity | now apply check_idle_time_sound].
  - eexists. split; [reflexivity|]. unfold PetWidget.mousePressEvent.
    destruct (PetWidget.is_force_sleeping w0); [exact Hts|].
    destruct (button =? LeftButton); exact Hts.
  - eexists. split; [reflexivity|]. unfold PetWidget.mouseMoveEvent.
    destruct (PetWidget.is_force_sleeping w0); [exact Hts|].
    cbn [PetWidget.drag_position PetWidget.set_last_interaction_time].
    destruct (PetWidget.drag_position w0); [|exact Hts].
    destruct (_ && _); exact Hts.
  - eexists. split; [reflexivity | now apply mouse_release_sound].
  - eexists. split; [reflexivity | now apply trigger_sound].
Qed.


(** *** The walk and its direction *)

Lemma walk_consistent_same w w' :
  same_walk w w' -> walk_consistent w -> walk_consistent w'.
Proof. unfold walk_consistent. intros [-> ->]. exact (fun H => H). Qed.

Ltac break_match :=
  match goal with
  | |- context [match ?x with _ => _ end] => destruct x
  end.

Ltac same_walk_frame := repeat break_match; split; reflexivity.

Lemma on_main_timer_walk w :
  same_walk w (PetWidget._on_main_timer fs ANIMATIONS w).
Proof.
  unfold PetWidget._on_main_timer, PetWidget.randint, randint.
  same_walk_frame.
Qed.

Lemma enter_heixiu_sleep_walk w :
  same_walk w (PetWidget._enter_heixiu_sleep w).
Proof. unfold PetWidget._enter_heixiu_sleep. same_walk_frame. Qed.

Lemma update_status_walk hour cpu_percent getGPUs w :
  same_walk w
    (PetWidget._update_status fs ANIMATIONS GPUtil hour cpu_percent getGPUs w).
Proof.
  unfold PetWidget._update_status.
  destruct (SystemMonitor.get_cpu_usage _ _ _) as [cpu sm].
  destruct (SystemMonitor.get_gpu_usage _ _ _ _) as [gpu sm'].
  same_walk_frame.
Qed.

Lemma check_idle_time_walk w : same_walk w (PetWidget._check_idle_time w).
Proof.
  unfold PetWidget._check_idle_time.
  destruct (Qgt_bool _ _); [|now split].
  destruct (_ && _); [apply enter_heixiu_sleep_walk|].
  destruct (_ && _); now split.
Qed.

Lemma mouse_press_walk button globalPos event_pos w :
  same_walk w (PetWidget.mousePressEvent button globalPos event_pos w).
Proof. unfold PetWidget.mousePressEvent. same_walk_frame. Qed.

Lemma mouse_move_walk buttons globalPos w :
  same_walk w (PetWidget.mouseMoveEvent buttons globalPos w).
Proof.
  unfold PetWidget.mouseMoveEvent.
  destruct (PetWidget.is_force_sleeping w); [now split|].
  cbn [PetWidget.drag_position PetWidget.set_last_interaction_time].
  same_walk_frame.
Qed.

Lemma mouse_release_walk button event_pos w :
  same_walk w (PetWidget.mouseReleaseEvent fs ANIMATIONS button event_pos w).
Proof.
  unfold PetWidget.mouseReleaseEvent, PetWidget._wake_up,
    PetWidget.randint, randint.
  destruct (PetWidget.is_force_sleeping w); [now split|].
  destruct (button =? LeftButton); [|now split].
  destruct (PetWidget._is_sleeping _).
  - destruct (_ || _); now split.
  - cbn [PetWidget.mouse_press_pos PetWidget.set_last_interaction_time].
    destruct (PetWidget.mouse_press_pos w) as [press|]; [|now split].
    destruct (_ && _); [|now split].
    same_walk_frame.
Qed.

Lemma reverse_walk_consistent w :
  walk_consistent w -> walk_consistent (PetWidget._reverse_walk_direction w).
Proof.
  intros [Hl Hr]. unfold PetWidget._reverse_walk_direction.
  cbn [PetWidget.free_active_type PetWidget.set_free_active_direction].
  destruct (bool_decide (_ = Some "left_walk")) eqn:El.
  - apply bool_decide_eq_true in El. split; [discriminate|].
    intros _. cbn. rewrite (Hl El). reflexivity.
  - destruct (bool_decide (_ = Some "right_walk")) eqn:Er.
    + apply bool_decide_eq_true in Er. split; [|discriminate].
      intros _. cbn. rewrite (Hr Er). reflexivity.
    + apply bool_decide_eq_false in El, Er.
      split; intros H; cbn in H; contradiction.
Qed.

Lemma move_window_walk_consistent step w :
  walk_consistent w ->
  walk_consistent
    (PetWidget._move_window_horizontally availableGeometry step w).
Proof.
  intros Hw. unfold PetWidget._move_window_horizontally.
  destruct (_ <? QRect_left _);
    [exact (reverse_walk_consistent w Hw)|].
  destruct (_ <? _); [exact (reverse_walk_consistent w Hw) | exact Hw].
Qed.

Lemma update_walk_animation_walk w w' :
  PetWidget._update_walk_animation fs ANIMATIONS w = Some w' ->
  same_walk w w'.
Proof.
  unfold PetWidget._update_walk_animation.
  match goal with
  | |- context [PetWidget._get_animation_frames fs ANIMATIONS w ?a] =>
      destruct (get_frames_fields w a) as [rm Hrm];
      destruct (PetWidget._get_animation_frames fs ANIMATIONS w a)
        as [[|f0 fr] w1]
  end; cbn [snd] in Hrm; subst w1.
  - intros [= <-]. now split.
  - destruct (py_index _ _); [|discriminate]. intros [= <-]. now split.
Qed.

Lemma update_free_active_walk_consistent w w' :
  PetWidget._update_free_active fs ANIMATIONS availableGeometry w = Some w' ->
  walk_consistent w -> walk_consistent w'.
Proof.
  unfold PetWidget._update_free_active. intros H Hw.
  destruct (negb _); [injection H as <-; exact Hw|].
  destruct (_ && _).
  { injection H as <-. split; discriminate. }
  destruct (bool_decide (_ ∈ _)).
  - destruct (PetWidget._update_walk_animation fs ANIMATIONS w) as [w1|] eqn:E;
      [|discriminate].
    injection H as <-. apply move_window_walk_consistent.
    revert Hw. apply walk_consistent_same.
    now apply update_walk_animation_walk.
  - destruct (bool_decide _); [|injection H as <-; exact Hw].
    destruct (get_frames_fields w SIT) as [rm Hrm].
    destruct (PetWidget._get_animation_frames fs ANIMATIONS w SIT)
      as [[|f0 fr] w1]; cbn [snd] in Hrm; subst w1;
      injection H as <-; exact Hw.
Qed.

Lemma start_free_active_walk_consistent w :
  walk_consistent w -> walk_consistent (PetWidget.start_free_active w).
Proof.
  intros Hw. unfold PetWidget.start_free_active.
  destruct (PetWidget.is_force_sleeping w); [exact Hw|].
  unfold PetWidget.randint, randint.
  destruct (_ <=? 48); [|destruct (_ <=? 96)];
    split; intros H; cbn in H |- *; congruence.
Qed.

Lemma trigger_walk_consistent a w :
  walk_consistent w -> walk_consistent (PetWidget.trigger fs ANIMATIONS a w).
Proof.
  intros Hw. destruct a as [| speed | | | | a]; cbn [PetWidget.trigger].
  - split; discriminate.
  - exact Hw.
  - unfold PetWidget._restart_animation.
    match goal with
    | |- context [match ?x with [] => _ | _ :: _ => _ end] => destruct x
    end; split; discriminate.
  - now apply start_free_active_walk_consistent.
  - revert Hw. apply walk_consistent_same.
    unfold PetWidget.toggle_heixiu_mode.
    cbn [PetWidget.is_heixiu_mode PetWidget.set_is_heixiu_mode].
    destruct (negb _); now split.
  - destruct (bool_decide _); exact Hw.
Qed.

Lemma handle_walk_consistent now i w w' :
  PetWidget.handle fs ANIMATIONS GPUtil availableGeometry now i w = Some w' ->
  walk_consistent w -> walk_consistent w'.
Proof.
  unfold PetWidget.handle. intros H Hw0.
  set (w0 := PetWidget.lift (set_clock now) w) in H.
  assert (walk_consistent w0) as Hw by exact Hw0.
  clearbody w0. clear Hw0.
  destruct i as [| | | hour cpu_percent getGPUs | | button globalPos event_pos
                 | buttons globalPos | button event_pos | a].
  - destruct (PetWidget.main_timer w0); injection H as <-; [|exact Hw].
    revert Hw. apply walk_consistent_same, on_main_timer_walk.
  - destruct (animation_timer _); [|injection H as <-; exact Hw].
    destruct (_update_current_animation _ _ _); [|discriminate].
    injection H as <-. exact Hw.
  - destruct (free_active_timer _); [|injection H as <-; exact Hw].
    revert H Hw. apply update_free_active_walk_consistent.
  - injection H as <-. revert Hw.
    apply walk_consistent_same, update_status_walk.
  - injection H as <-. revert Hw.
    apply walk_consistent_same, check_idle_time_walk.
  - injection H as <-. revert Hw.
    apply walk_consistent_same, mouse_press_walk.
  - injection H as <-. revert Hw.
    apply walk_consistent_same, mouse_move_walk.
  - injection H as <-. revert Hw.
    apply walk_consistent_same, mouse_release_walk.
  - injection H as <-. now apply trigger_walk_consistent.
Qed.

(** *** Runs of the event loop *)

Lemma init_animation_state rng now :
  animation_state (init fs ANIMATIONS rng now) = AnimationState.init.
Proof.
  unfold init.
  match goal with
  | |- context [_get_animation_frames fs ANIMATIONS ?s MAIN] =>
      destruct (get_animation_frames_state fs ANIMATIONS s MAIN) as [rm Hrm];
      destruct (_get_animation_frames fs ANIMATIONS s MAIN) as [fr s1]
  end.
  cbn [snd] in Hrm. subst s1.
  destruct (ResourceManager.load_single_image _ _ _ _ _) as [sl rm1].
  destruct (ResourceManager.load_single_image _ _ _ _ _) as [hx rm2].
  destruct fr; reflexivity.
Qed.

Lemma run_invariant events w :
  ts w -> walk_consistent w ->
  exists w',
    PetWidget.run fs ANIMATIONS GPUtil availableGeometry events w = Some w'
    /\ ts w' /\ walk_consistent w'.
Proof.
  revert w. induction events as [|[now i] events IH]; intros w Hts Hw.
  - now exists w.
  - destruct (handle_sound now i w Hts) as (w1 & H1 & Hts1).
    cbn [PetWidget.run]. rewrite H1. apply IH; [exact Hts1|].
    revert H1 Hw. apply handle_walk_consistent.
Qed.

Lemma init_invariant rng now pos0 :
  ts (PetWidget.init fs ANIMATIONS rng now pos0)
  /\ walk_consistent (PetWidget.init fs ANIMATIONS rng now pos0).
Proof.
  split; [|split; discriminate].
  apply timers_sound_not_playing. cbn [PetWidget.pet PetWidget.init].
  now rewrite init_animation_state.
Qed.

(** X15. From start-up on, no sequence of events (time-outs of the
    five timers, mouse events, entries of the context menu), at any
    times and with any outcome of the random draws and of the probes of the
    system, makes a handler raise: the slot of the animation timer never
    meets an animation missing from the catalogue or a cursor beyond the
    frames, and the timers are left sound. *)
Theorem event_loop_never_raises rng now pos0 events :
  exists w,
    PetWidget.run fs ANIMATIONS GPUtil availableGeometry events
      (PetWidget.init fs ANIMATIONS rng now pos0) = Some w
    /\ timers_sound ANIMATIONS (PetWidget.pet w).
Proof.
  destruct (init_invariant rng now pos0) as [Hts Hw].
  destruct (run_invariant events _ Hts Hw) as (w & H & Hts' & _).
  now exists w.
Qed.

(** X16. In every state reached from start-up the direction of a walk
    is the one of its name: [free_active_direction] is -1 while
    [free_active_type] is ['left_walk'] and 1 while it is
    ['right_walk']. *)
Theorem walk_direction_matches_type rng now pos0 events :
  exists w,
    PetWidget.run fs ANIMATIONS GPUtil availableGeometry events
      (PetWidget.init fs ANIMATIONS rng now pos0) = Some w
    /\ (PetWidget.free_active_type w = Some "left_walk" ->
        PetWidget.free_active_direction w = -1)
    /\ (PetWidget.free_active_type w = Some "right_walk" ->
        PetWidget.free_active_direction w = 1).
Proof.
  destruct (init_invariant rng now pos0) as [Hts Hw].
  destruct (run_invariant events _ Hts Hw) as (w & H & _ & Hw').
  now exists w.
Qed.


(** *** What only the status update and the menu change *)

Lemma kept_refl p : kept p p.
Proof. now split. Qed.

Lemma kept_trans p q r : kept p q -> kept q r -> kept p r.
Proof. intros [H1 H2] [H3 H4]. split; [congruence | auto]. Qed.

Lemma kept_eq p q :
  is_force_sleeping q = is_force_sleeping p ->
  free_active_timer q = free_active_timer p -> kept p q.
Proof. intros H1 H2. split; [exact H1 | congruence]. Qed.

Lemma kept_stop p : kept p (_stop_current_animation p).
Proof.
  split; [apply stop_flags | intros _; apply stop_timers].
Qed.

Lemma kept_start p a force : kept p (snd (start p a force)).
Proof.
  split; [apply start_flags|].
  destruct (start_shape p a force) as [-> | [H _]]; [auto | now intros _].
Qed.

Lemma kept_fallback p :
  kept p (show_last_main_frame
            (set_animation_state
               (AnimationState.reset
                  (animation_state (_stop_current_animation p)))
               (_stop_current_animation p))).
Proof.
  apply kept_trans with (_stop_current_animation p); [apply kept_stop|].
  unfold show_last_main_frame.
  match goal with
  | |- context [match ?x with Some _ => _ | None => _ end] => destruct x
  end; now apply kept_eq.
Qed.

Lemma kept_end p : kept p (_end_current_animation fs ANIMATIONS p).
Proof.
  unfold _end_current_animation.
  destruct (callback_fields (active p) (emit enter_end_current_animation p))
    as (_ & _ & Hft & Hfs & _).
  assert (kept p (call_completion_callback ANIMATIONS (active p)
                    (emit enter_end_current_animation p))) as H0
    by (now apply kept_eq).
  destruct (bool_decide (active p = Some ANGER)).
  - eapply kept_trans; [exact H0 | apply kept_start].
  - destruct (bool_decide (_ ∈ _)).
    + unfold randint. cbn [fst snd].
      match goal with
      | |- context [set_rng_pos ?n ?s] =>
          assert (kept p (set_rng_pos n s)) as H1
            by (eapply kept_trans; [exact H0 | now apply kept_eq])
      end.
      destruct (_ <=? 30);
        (eapply kept_trans; [exact H1|]);
        [apply kept_start | apply kept_fallback].
    + eapply kept_trans; [exact H0 | apply kept_fallback].
Qed.

Lemma kept_tick p s :
  _update_current_animation fs ANIMATIONS p = Some s -> kept p s.
Proof.
  unfold _update_current_animation.
  destruct (playing p); [|intros [= <-]; apply kept_refl].
  destruct (AnimationState.cached_frames (animation_state p))
    as [[|f0 fr]|]; try (intros [= <-]; apply kept_refl).
  destruct (active p) as [a|]; [|discriminate].
  destruct (ANIMATIONS a) as [config|]; [|discriminate].
  destruct (_ <? _).
  - destruct (py_index _ _); [|discriminate]. intros [= <-].
    now apply kept_eq.
  - destruct (loops config =? -1); [intros [= <-]; now apply kept_eq|].
    destruct (_ <=? _); intros [= <-]; [|now apply kept_eq].
    eapply kept_trans; [|apply kept_end]. now apply kept_eq.
Qed.

Lemma kept_enter_sleep p : kept p (_enter_sleep p).
Proof.
  unfold _enter_sleep.
  destruct (_is_sleeping p || is_force_sleeping p); [apply kept_refl|].
  apply kept_trans with (_stop_current_animation p); [apply kept_stop|].
  destruct (sleep_image _); now apply kept_eq.
Qed.

Lemma kept_check_anger p : kept p (_check_anger_condition fs ANIMATIONS p).
Proof.
  unfold _check_anger_condition.
  destruct (15 <=? _); [|now apply kept_eq].
  eapply kept_trans; [|apply kept_start]. now apply kept_eq.
Qed.

Local Abbreviation keptw w w' := (kept (PetWidget.pet w) (PetWidget.pet w')).

Lemma kept_on_main_timer w :
  keptw w (PetWidget._on_main_timer fs ANIMATIONS w).
Proof.
  unfold PetWidget._on_main_timer.
  destruct (_ || _); [apply kept_refl|].
  unfold PetWidget.randint, randint.
  destruct (_ <=? 5); [|now apply kept_eq].
  eapply kept_trans; [|apply kept_start]. now apply kept_eq.
Qed.

Lemma kept_enter_heixiu_sleep w :
  keptw w (PetWidget._enter_heixiu_sleep w).
Proof.
  unfold PetWidget._enter_heixiu_sleep.
  destruct (negb _); [apply kept_refl|].
  cbn [PetWidget.heixiu_sleep_image PetWidget.with_state PetWidget.lift
         PetWidget.set_pet PetWidget._stop_current_animation].
  apply kept_trans with (_stop_current_animation (PetWidget.pet w));
    [apply kept_stop|].
  destruct (PetWidget.heixiu_sleep_image w); [now apply kept_eq|].
  eapply kept_trans; [|apply kept_enter_sleep]. now apply kept_eq.
Qed.

Lemma kept_check_idle_time w : keptw w (PetWidget._check_idle_time w).
Proof.
  unfold PetWidget._check_idle_time.
  destruct (Qgt_bool _ _); [|apply kept_refl].
  destruct (_ && _); [apply kept_enter_heixiu_sleep|].
  destruct (_ && _); [apply kept_enter_sleep | apply kept_refl].
Qed.

Lemma kept_reset w :
  keptw w (PetWidget.show_last_main_frame (PetWidget.reset w)).
Proof.
  unfold PetWidget.show_last_main_frame,
    PetWidget.reset, PetWidget.with_state, PetWidget.lift.
  cbn [PetWidget.pet PetWidget.set_pet].
  unfold show_last_main_frame.
  match goal with
  | |- context [match ?x with Some _ => _ | None => _ end] => destruct x
  end; now apply kept_eq.
Qed.

Lemma kept_mouse_release button event_pos w :
  keptw w (PetWidget.mouseReleaseEvent fs ANIMATIONS button event_pos w).
Proof.
  unfold PetWidget.mouseReleaseEvent.
  destruct (PetWidget.is_force_sleeping w); [apply kept_refl|].
  set (w0 := PetWidget.set_last_interaction_time (PetWidget.time w) w).
  change (PetWidget.pet w) with (PetWidget.pet w0). clearbody w0.
  destruct (button =? LeftButton); [|apply kept_refl].
  destruct (PetWidget._is_sleeping _).
  { unfold PetWidget._wake_up.
    destruct (_ || _); [apply kept_refl | apply kept_reset]. }
  cbn [PetWidget.pet PetWidget.set_drag_position
         PetWidget.set_mouse_press_pos].
  destruct (PetWidget.mouse_press_pos _) as [press|]; [|apply kept_refl].
  destruct (_ && _); [|apply kept_refl].
  destruct (PetWidget.is_heixiu_mode _); [apply kept_start|].
  unfold PetWidget.randint, randint.
  eapply kept_trans; [|apply kept_check_anger].
  destruct (_ <? 10); [|destruct (_ <? 20)];
    (eapply kept_trans; [|apply kept_start]); now apply kept_eq.
Qed.

(** The status update sets the force-sleep flag to [hour == 1]. *)
Lemma update_status_flag hour cpu_percent getGPUs w :
  PetWidget.is_force_sleeping
    (PetWidget._update_status fs ANIMATIONS GPUtil hour cpu_percent getGPUs w)
  = (hour =? 1)
  /\ (free_active_timer (PetWidget.pet w) = None ->
      free_active_timer
        (PetWidget.pet
           (PetWidget._update_status fs ANIMATIONS GPUtil hour cpu_percent
              getGPUs w)) = None).
Proof.
  unfold PetWidget._update_status.
  destruct (SystemMonitor.get_cpu_usage _ _ _) as [cpu sm].
  destruct (SystemMonitor.get_gpu_usage _ _ _ _) as [gpu sm'].
  match goal with
  | |- context [PetWidget._start_animation _ _ ANXIETY true ?x] =>
      set (w1 := x)
  end.
  assert (PetWidget.is_force_sleeping w1 = (hour =? 1)
          /\ (free_active_timer (PetWidget.pet w) = None ->
              free_active_timer (PetWidget.pet w1) = None)) as [H1 H2].
  { subst w1. unfold PetWidget.is_force_sleeping.
    cbn [PetWidget.pet PetWidget.set_system_monitor].
    destruct (hour =? 1);
      destruct (is_force_sleeping (PetWidget.pet w)) eqn:Hf;
      cbn [andb negb].
    - now split.
    - unfold PetWidget._enter_force_sleep.
      cbn [PetWidget.pet PetWidget.set_sleep_hint_label_visible].
      destruct (kept_enter_sleep
                  (PetWidget.set_is_force_sleeping true (PetWidget.pet w)))
        as [Ha Hb].
      split; [exact Ha | exact Hb].
    - unfold PetWidget._exit_force_sleep, PetWidget.show_last_main_frame,
        PetWidget.reset, PetWidget.with_state, PetWidget.lift.
      cbn [PetWidget.pet PetWidget.set_pet
             PetWidget.set_sleep_hint_label_visible].
      unfold show_last_main_frame.
      match goal with
      | |- context [match ?x with Some _ => _ | None => _ end] => destruct x
      end; now split.
    - now split. }
  clearbody w1. unfold PetWidget.is_force_sleeping in *.
  destruct (_ && _ && _).
  - destruct (kept_start (PetWidget.pet w1) ANXIETY true) as [Ha Hb].
    split; [exact (eq_trans Ha H1) | auto].
  - destruct (_ && _); [|now split].
    destruct (kept_end (PetWidget.pet w1)) as [Ha Hb].
    split; [exact (eq_trans Ha H1) | auto].
Qed.


Lemma trigger_flag a w :
  PetWidget.is_force_sleeping (PetWidget.trigger fs ANIMATIONS a w)
  = PetWidget.is_force_sleeping w.
Proof.
  unfold PetWidget.is_force_sleeping.
  destruct a as [| speed | | | | a]; cbn [PetWidget.trigger].
  - unfold PetWidget._end_free_active, PetWidget.show_last_main_frame,
      PetWidget.with_state, PetWidget.lift.
    cbn [PetWidget.pet PetWidget.set_pet PetWidget.set_free_active_type].
    unfold show_last_main_frame.
    match goal with
    | |- context [match ?x with Some _ => _ | None => _ end] => destruct x
    end; reflexivity.
  - reflexivity.
  - unfold PetWidget._restart_animation.
    cbn [PetWidget.pet PetWidget.set_main_timer].
    match goal with
    | |- context [match ?x with [] => _ | _ :: _ => _ end] => destruct x
    end; cbn; apply stop_flags.
  - unfold PetWidget.start_free_active, PetWidget.is_force_sleeping.
    destruct (is_force_sleeping (PetWidget.pet w)) eqn:Hf; [exact Hf|].
    unfold PetWidget.randint, randint.
    destruct (_ <=? 48); [|destruct (_ <=? 96)]; cbn;
      rewrite <- Hf; apply stop_flags.
  - unfold PetWidget.toggle_heixiu_mode.
    cbn [PetWidget.is_heixiu_mode PetWidget.set_is_heixiu_mode].
    destruct (negb _); [apply start_flags|].
    unfold PetWidget.show_last_main_frame, PetWidget.restore_original_size,
      PetWidget.reset, PetWidget.with_state, PetWidget.lift.
    cbn [PetWidget.pet PetWidget.set_pet].
    unfold show_last_main_frame.
    match goal with
    | |- context [match ?x with Some _ => _ | None => _ end] => destruct x
    end; cbn; apply stop_flags.
  - destruct (bool_decide _); [apply start_flags | reflexivity].
Qed.

(** X17. The force-sleep flag follows the clock: a status update sets
    it to [hour == 1], and no other event changes it; no click wakes the
    pet from a forced sleep. *)
Theorem force_sleep_follows_the_clock now i w :
  timers_sound ANIMATIONS (PetWidget.pet w) ->
  exists w',
    PetWidget.handle fs ANIMATIONS GPUtil availableGeometry now i w = Some w'
    /\ PetWidget.is_force_sleeping w'
       = match i with
         | PetWidget.status_timer_timeout hour _ _ => hour =? 1
         | _ => PetWidget.is_force_sleeping w
         end.
Proof.
  intros Hts0. unfold PetWidget.handle.
  set (w0 := PetWidget.lift (set_clock now) w).
  change (PetWidget.is_force_sleeping w)
    with (PetWidget.is_force_sleeping w0).
  assert (ts w0) as Hts by (revert Hts0; now apply timers_sound_eq).
  clearbody w0. clear Hts0.
  destruct i as [| | | hour cpu_percent getGPUs | | button globalPos event_pos
                 | buttons globalPos | button event_pos | a].
  - destruct (PetWidget.main_timer w0); eexists; (split; [reflexivity|]);
      [apply kept_on_main_timer | reflexivity].
  - destruct (animation_timer (PetWidget.pet w0)) as [ms|] eqn:Hat;
      [|now exists w0].
    destruct (timers_sound_tick (PetWidget.pet w0) Hts
                ltac:(rewrite Hat; discriminate)) as (s & Hs & _).
    rewrite Hs. eexists. split; [reflexivity|].
    now apply kept_tick in Hs as [Hs _].
  - destruct (free_active_timer (PetWidget.pet w0)); [|now exists w0].
    destruct (update_free_active_pet w0) as (w' & -> & _ & Hf & _).
    now exists w'.
  - eexists. split; [reflexivity | apply update_status_flag].
  - eexists. split; [reflexivity | apply kept_check_idle_time].
  - eexists. split; [reflexivity|]. unfold PetWidget.mousePressEvent.
    destruct (PetWidget.is_force_sleeping w0) eqn:Hf; [exact Hf|].
    destruct (button =? LeftButton); exact Hf.
  - eexists. split; [reflexivity|]. unfold PetWidget.mouseMoveEvent.
    destruct (PetWidget.is_force_sleeping w0) eqn:Hf; [exact Hf|].
    cbn [PetWidget.drag_position PetWidget.set_last_interaction_time].
    destruct (PetWidget.drag_position w0); [|exact Hf].
    destruct (_ && _); exact Hf.
  - eexists. split; [reflexivity | apply kept_mouse_release].
  - eexists. split; [reflexivity | apply trigger_flag].
Qed.

(** X18. [_enter_force_sleep] only sets the flag and shows the hint:
    as [_enter_sleep] returns at once when the flag is set, the pet is not
    put to sleep, no sleep image is shown, and the animation that plays
    and its timer go on. *)
Theorem enter_force_sleep_only_sets_the_flag w :
  PetWidget.pet (PetWidget._enter_force_sleep w)
  = PetWidget.set_is_force_sleeping true (PetWidget.pet w)
  /\ log (PetWidget.pet (PetWidget._enter_force_sleep w))
     = log (PetWidget.pet w)
  /\ animation_state (PetWidget.pet (PetWidget._enter_force_sleep w))
     = animation_state (PetWidget.pet w)
  /\ animation_timer (PetWidget.pet (PetWidget._enter_force_sleep w))
     = animation_timer (PetWidget.pet w)
  /\ PetWidget.sleep_hint_label_visible (PetWidget._enter_force_sleep w)
     = true.
Proof.
  assert (PetWidget.pet (PetWidget._enter_force_sleep w)
          = PetWidget.set_is_force_sleeping true (PetWidget.pet w)) as H.
  { unfold PetWidget._enter_force_sleep, PetWidget._enter_sleep,
      PetWidget.lift.
    cbn [PetWidget.pet PetWidget.set_pet
           PetWidget.set_sleep_hint_label_visible].
    unfold _enter_sleep.
    cbn [is_force_sleeping PetWidget.set_is_force_sleeping].
    now rewrite orb_true_r. }
  rewrite H. repeat split.
Qed.

Lemma stop_shown p :
  shown_count (_stop_current_animation p) = shown_count p.
Proof.
  unfold shown_count, _stop_current_animation.
  destruct p as [rm st os fsl cl mf si ws at_ ft mp0 ck rg rp lg]; simpl.
  destruct st as [ca cp ip ci lc stt dr cf osz]; simpl.
  destruct mp0 as [[ps md]|]; simpl; try destruct ps; simpl;
    destruct osz as [sz|]; simpl; try destruct (QSize_bool sz); simpl;
    reflexivity.
Qed.

(** X19. In heixiu mode without a heixiu sleep image,
    [_enter_heixiu_sleep] shows nothing: the fall-back call of
    [_enter_sleep] returns at once, since the pet already counts as
    sleeping.  The state is [HEIXIU_SLEEP] at priority [SYSTEM], with both
    timers stopped. *)
Theorem heixiu_sleep_without_image_shows_nothing w :
  PetWidget.is_heixiu_mode w = true ->
  PetWidget.heixiu_sleep_image w = None ->
  let w' := PetWidget._enter_heixiu_sleep w in
  PetWidget.current_animation w' = Some HEIXIU_SLEEP
  /\ AnimationState.current_priority (animation_state (PetWidget.pet w'))
     = SYSTEM
  /\ shown_count (PetWidget.pet w') = shown_count (PetWidget.pet w)
  /\ animation_timer (PetWidget.pet w') = None
  /\ free_active_timer (PetWidget.pet w') = None.
Proof.
  intros Hm Hi w'. subst w'. unfold PetWidget._enter_heixiu_sleep.
  rewrite Hm. cbn [negb].
  cbn [PetWidget.heixiu_sleep_image PetWidget.with_state PetWidget.lift
         PetWidget.set_pet PetWidget._stop_current_animation].
  rewrite Hi.
  unfold PetWidget._enter_sleep, PetWidget.lift, _enter_sleep.
  cbn [PetWidget.pet PetWidget.set_pet].
  replace (_is_sleeping _) with true by reflexivity.
  cbn [orb]. unfold PetWidget.current_animation.
  cbn [PetWidget.pet PetWidget.set_pet].
  destruct (stop_timers (PetWidget.pet w)) as [Ht1 Ht2].
  repeat split; [apply stop_shown | exact Ht1 | exact Ht2].
Qed.

(** X20. Sleep and wake-up: for a pet that neither sleeps nor is
    forced to, [_enter_sleep] followed by [_wake_up] gives an idle pet: no
    current animation, nothing playing (whatever played before the sleep
    is not resumed), both timers stopped. *)
Theorem wake_up_after_sleep w :
  PetWidget.is_force_sleeping w = false ->
  PetWidget._is_sleeping w = false ->
  let w' := PetWidget._wake_up (PetWidget._enter_sleep w) in
  PetWidget._is_sleeping (PetWidget._enter_sleep w) = true
  /\ PetWidget.current_animation w' = None
  /\ PetWidget.is_playing w' = false
  /\ PetWidget._is_sleeping w' = false
  /\ animation_timer (PetWidget.pet w') = None
  /\ free_active_timer (PetWidget.pet w') = None.
Proof.
  intros Hf Hs w'. subst w'.
  unfold PetWidget.is_force_sleeping, PetWidget._is_sleeping in Hf, Hs |- *.
  assert (exists img,
            PetWidget.pet (PetWidget._enter_sleep w)
            = emit (setPixmap img)
                (set_animation_state
                   (PetWidget.set_current SLEEP SYSTEM
                      (animation_state
                         (_stop_current_animation (PetWidget.pet w))))
                   (_stop_current_animation (PetWidget.pet w)))) as [img He].
  { unfold PetWidget._enter_sleep, PetWidget.lift.
    cbn [PetWidget.pet PetWidget.set_pet]. unfold _enter_sleep.
    rewrite Hs, Hf. cbn [orb].
    destruct (sleep_image _); eexists; reflexivity. }
  destruct (stop_timers (PetWidget.pet w)) as [Ht1 Ht2].
  destruct (stop_flags (PetWidget.pet w)) as [Hfs _].
  assert (_is_sleeping (PetWidget.pet (PetWidget._enter_sleep w)) = true)
    as Hs1 by (now rewrite He).
  split; [exact Hs1|].
  unfold PetWidget._wake_up, PetWidget._is_sleeping,
    PetWidget.is_force_sleeping.
  rewrite Hs1.
  replace (is_force_sleeping (PetWidget.pet (PetWidget._enter_sleep w)))
    with false
    by (rewrite He; cbn [is_force_sleeping emit set_animation_state];
        congruence).
  cbn [negb orb].
  unfold PetWidget.show_last_main_frame, PetWidget.reset,
    PetWidget.with_state, PetWidget.lift, PetWidget.current_animation,
    PetWidget.is_playing.
  cbn [PetWidget.pet PetWidget.set_pet]. rewrite He.
  unfold show_last_main_frame.
  match goal with
  | |- context [match ?x with Some _ => _ | None => _ end] => destruct x
  end; repeat split; assumption.
Qed.



Lemma Qgt_bool_false a b : (a <= b)%Q -> Qgt_bool a b = false.
Proof.
  intros H. unfold Qgt_bool. apply Qle_bool_iff in H. now rewrite H.
Qed.

Lemma Qgt_bool_true a b : (b < a)%Q -> Qgt_bool a b = true.
Proof.
  intros H. unfold Qgt_bool. destruct (Qle_bool a b) eqn:E; [|reflexivity].
  apply Qle_bool_iff in E. lra.
Qed.



(** X23. The monitor samples at most once per [update_interval]: after
    a call that has sampled, a call made no more than [update_interval]
    later returns the same value, whatever the probe would give, and leaves
    the monitor as it is.  This holds for the CPU, and for the GPU when
    [GPUtil] is there. *)
Theorem monitor_throttle sm t1 t2 v1 v2 g1 g2 :
  (SystemMonitor.update_interval sm < t1 - SystemMonitor.last_cpu_update sm)%Q ->
  (SystemMonitor.update_interval sm < t1 - SystemMonitor.last_gpu_update sm)%Q ->
  (t2 - t1 <= SystemMonitor.update_interval sm)%Q ->
  let c1 := SystemMonitor.get_cpu_usage sm t1 v1 in
  let d1 := SystemMonitor.get_gpu_usage true sm t1 g1 in
  fst c1 = match v1 with Some v => v | None => 0%Q end
  /\ SystemMonitor.get_cpu_usage (snd c1) t2 v2 = c1
  /\ SystemMonitor.get_gpu_usage true (snd d1) t2 g2 = d1.
Proof.
  intros Hc Hg H2 c1 d1. subst c1 d1.
  unfold SystemMonitor.get_cpu_usage, SystemMonitor.get_gpu_usage.
  cbn [negb].
  rewrite (Qgt_bool_true _ _ Hc), (Qgt_bool_true _ _ Hg).
  cbn [fst snd SystemMonitor.last_cpu_update SystemMonitor.last_gpu_update
         SystemMonitor.update_interval SystemMonitor.cpu_usage_cache
         SystemMonitor.gpu_usage_cache].
  rewrite (Qgt_bool_false _ _ H2). repeat split.
Qed.


(** *** Walking *)

Lemma update_walk_animation_fields w :
  exists w1,
    PetWidget._update_walk_animation fs ANIMATIONS w = Some w1
    /\ same_walk w w1
    /\ PetWidget.free_active_duration w1 = PetWidget.free_active_duration w
    /\ PetWidget.pos w1 = PetWidget.pos w
    /\ window_size (PetWidget.pet w1) = window_size (PetWidget.pet w)
    /\ free_active_timer (PetWidget.pet w1)
       = free_active_timer (PetWidget.pet w).
Proof.
  unfold PetWidget._update_walk_animation.
  match goal with
  | |- context [PetWidget._get_animation_frames fs ANIMATIONS w ?a] =>
      destruct (get_frames_fields w a) as [rm Hrm];
      destruct (PetWidget._get_animation_frames fs ANIMATIONS w a)
        as [[|f0 fr] w1]
  end; cbn [snd] in Hrm; subst w1.
  - eexists. split; [reflexivity|]. repeat split.
  - destruct (py_index_mod (f0 :: fr)
                (AnimationState.current_index
                   (animation_state
                      (PetWidget.pet
                         (PetWidget.set_pet
                            (set_resource_manager rm (PetWidget.pet w)) w))))
                ltac:(discriminate)) as [frame ->].
    eexists. split; [reflexivity|]. repeat split.
Qed.

Lemma reverse_walk_fields w :
  PetWidget.free_active_duration (PetWidget._reverse_walk_direction w)
  = PetWidget.free_active_duration w
  /\ window_size (PetWidget.pet (PetWidget._reverse_walk_direction w))
     = window_size (PetWidget.pet w)
  /\ free_active_timer (PetWidget.pet (PetWidget._reverse_walk_direction w))
     = free_active_timer (PetWidget.pet w)
  /\ (PetWidget.free_active_type w ∈ [Some "left_walk"; Some "right_walk"] ->
      PetWidget.free_active_type (PetWidget._reverse_walk_direction w)
      ∈ [Some "left_walk"; Some "right_walk"]).
Proof.
  unfold PetWidget._reverse_walk_direction.
  cbn [PetWidget.free_active_type PetWidget.set_free_active_direction].
  destruct (bool_decide (_ = Some "left_walk")).
  - repeat split. intros _. apply list_elem_of_further, list_elem_of_here.
  - destruct (bool_decide (_ = Some "right_walk")).
    + repeat split. intros _. apply list_elem_of_here.
    + repeat split. exact (fun H => H).
Qed.

Lemma move_window_fields step w :
  let g := screen_geometry availableGeometry in
  let w' := PetWidget._move_window_horizontally availableGeometry step w in
  QRect_left g <= QRect_right g - width (window_size (PetWidget.pet w)) ->
  on_screen g w'
  /\ QPoint_y (PetWidget.pos w') = QPoint_y (PetWidget.pos w)
  /\ PetWidget.free_active_duration w' = PetWidget.free_active_duration w
  /\ window_size (PetWidget.pet w') = window_size (PetWidget.pet w)
  /\ free_active_timer (PetWidget.pet w')
     = free_active_timer (PetWidget.pet w)
  /\ (PetWidget.free_active_type w ∈ [Some "left_walk"; Some "right_walk"] ->
      PetWidget.free_active_type w' ∈ [Some "left_walk"; Some "right_walk"]).
Proof.
  intros g w' Hg. subst w'. unfold on_screen.
  unfold PetWidget._move_window_horizontally.
  fold (screen_geometry availableGeometry). fold g.
  destruct (reverse_walk_fields w) as (Hd & Hw & Ht & Hty).
  set (wr := PetWidget._reverse_walk_direction w) in *. clearbody wr.
  destruct (_ <? QRect_left g) eqn:E1;
    [|destruct (QRect_right g - _ <? _) eqn:E2];
    simpl; rewrite ?Hw.
  - repeat split; try assumption; lia.
  - repeat split; try assumption; lia.
  - apply Z.ltb_ge in E1, E2. repeat split; try lia. exact (fun H => H).
Qed.

(** One time-out of the free-roaming timer on a pet that walks. *)
Lemma walk_step now w :
  let g := screen_geometry availableGeometry in
  walking w ->
  QRect_left g <= QRect_right g - width (window_size (PetWidget.pet w)) ->
  exists w',
    PetWidget.handle fs ANIMATIONS GPUtil availableGeometry now
      PetWidget.free_active_timer_timeout w = Some w'
    /\ walking w'
    /\ window_size (PetWidget.pet w') = window_size (PetWidget.pet w)
    /\ on_screen g w'
    /\ QPoint_y (PetWidget.pos w') = QPoint_y (PetWidget.pos w).
Proof.
  intros g (Hty & Hd & Hft) Hg. unfold PetWidget.handle.
  set (w0 := PetWidget.lift (set_clock now) w).
  change (PetWidget.free_active_type w)
    with (PetWidget.free_active_type w0) in Hty.
  change (PetWidget.free_active_duration w)
    with (PetWidget.free_active_duration w0) in Hd.
  change (free_active_timer (PetWidget.pet w))
    with (free_active_timer (PetWidget.pet w0)) in Hft.
  change (window_size (PetWidget.pet w))
    with (window_size (PetWidget.pet w0)) in Hg |- *.
  change (PetWidget.pos w) with (PetWidget.pos w0).
  clearbody w0.
  destruct (free_active_timer (PetWidget.pet w0)) as [ms|] eqn:Eft;
    [|congruence].
  unfold PetWidget._update_free_active.
  assert (PetWidget.free_active_type_bool w0 = true) as ->.
  { unfold PetWidget.free_active_type_bool.
    apply elem_of_cons in Hty as [-> | Hty]; [reflexivity|].
    apply elem_of_cons in Hty as [-> | Hty]; [reflexivity|].
    now apply elem_of_nil in Hty. }
  rewrite Hd. cbn [negb andb Z.ltb Z.compare].
  rewrite bool_decide_eq_true_2 by exact Hty.
  destruct (update_walk_animation_fields w0)
    as (w1 & -> & [Hty1 _] & Hd1 & Hp1 & Hw1 & Hft1).
  match goal with
  | |- context [PetWidget._move_window_horizontally _ ?st w1] =>
      pose proof (move_window_fields st w1) as Hm
  end.
  cbv zeta in Hm. fold g in Hm. rewrite Hw1 in Hm.
  destruct (Hm Hg) as (Hon & Hy & Hd2 & Hw2 & Hft2 & Hty2).
  eexists. split; [reflexivity|].
  split; [|split; [congruence | split; [exact Hon | congruence]]].
  split; [apply Hty2; rewrite Hty1; exact Hty|].
  split; [congruence|]. rewrite Hft2, Hft1, Eft. discriminate.
Qed.

(** X24. A walk goes on and stays on the screen: on a pet that walks,
    with a screen at least as wide as the window, any number of time-outs
    of the free-roaming timer, at any times, raise nothing and leave a pet
    that still walks, at the same height, with a window of the same size;
    after the first of them the window lies between the left and the right
    edge of the screen. *)
Theorem walk_goes_on times w :
  let g := screen_geometry availableGeometry in
  walking w ->
  QRect_left g <= QRect_right g - width (window_size (PetWidget.pet w)) ->
  exists w',
    PetWidget.run fs ANIMATIONS GPUtil availableGeometry
      (map (fun t => (t, PetWidget.free_active_timer_timeout)) times) w
    = Some w'
    /\ walking w'
    /\ window_size (PetWidget.pet w') = window_size (PetWidget.pet w)
    /\ QPoint_y (PetWidget.pos w') = QPoint_y (PetWidget.pos w)
    /\ (times <> [] -> on_screen g w').
Proof.
  intros g. revert w.
  induction times as [|now times IH]; intros w Hwalk Hg.
  - exists w. split; [reflexivity|]. split; [exact Hwalk|].
    split; [reflexivity|]. split; [reflexivity|].
    intros Hn. now contradiction Hn.
  - destruct (walk_step now w Hwalk Hg) as (w1 & H1 & Hwalk1 & Hw1 & Hon1 & Hy1).
    fold g in Hon1.
    destruct (IH w1 Hwalk1 ltac:(rewrite Hw1; exact Hg))
      as (w' & H' & Hwalk' & Hw' & Hy' & Hon').
    exists w'. cbn [map PetWidget.run]. rewrite H1.
    split; [exact H'|]. split; [exact Hwalk'|].
    split; [congruence|]. split; [congruence|]. intros _.
    destruct times as [|t2 times]; [|apply Hon'; discriminate].
    cbn [map PetWidget.run] in H'. injection H' as <-. exact Hon1.
Qed.

(** *** Free roaming that has lost its timer *)

Lemma handle_without_timer now i w w' :
  PetWidget.handle fs ANIMATIONS GPUtil availableGeometry now i w = Some w' ->
  (forall a, i <> PetWidget.triggered a) ->
  free_active_timer (PetWidget.pet w) = None ->
  PetWidget.free_active_type w' = PetWidget.free_active_type w
  /\ free_active_timer (PetWidget.pet w') = None.
Proof.
  unfold PetWidget.handle. intros H Hi Hft0.
  set (w0 := PetWidget.lift (set_clock now) w) in H.
  change (PetWidget.free_active_type w)
    with (PetWidget.free_active_type w0).
  assert (free_active_timer (PetWidget.pet w0) = None) as Hft by exact Hft0.
  clearbody w0. clear Hft0.
  destruct i as [| | | hour cpu_percent getGPUs | | button globalPos event_pos
                 | buttons globalPos | button event_pos | a].
  - destruct (PetWidget.main_timer w0); injection H as <-; [|now split].
    split; [apply on_main_timer_walk | now apply kept_on_main_timer].
  - destruct (animation_timer _); [|injection H as <-; now split].
    destruct (_update_current_animation _ _ _) as [p|] eqn:E; [|discriminate].
    injection H as <-. split; [reflexivity|].
    now apply (kept_tick _ _ E).
  - rewrite Hft in H. injection H as <-. now split.
  - injection H as <-.
    split; [apply update_status_walk | now apply update_status_flag].
  - injection H as <-.
    split; [apply check_idle_time_walk | now apply kept_check_idle_time].
  - injection H as <-. split; [apply mouse_press_walk|].
    unfold PetWidget.mousePressEvent.
    destruct (PetWidget.is_force_sleeping w0); [exact Hft|].
    destruct (button =? LeftButton); exact Hft.
  - injection H as <-. split; [apply mouse_move_walk|].
    unfold PetWidget.mouseMoveEvent.
    destruct (PetWidget.is_force_sleeping w0); [exact Hft|].
    cbn [PetWidget.drag_position PetWidget.set_last_interaction_time].
    destruct (PetWidget.drag_position w0); [|exact Hft].
    destruct (_ && _); exact Hft.
  - injection H as <-.
    split; [apply mouse_release_walk | now apply kept_mouse_release].
  - now specialize (Hi a).
Qed.

(** X25. The free-roaming mode outlives its timer: once the
    free-roaming timer is stopped while [free_active_type] is set (which
    any accepted request does), no time-out and no mouse event starts the
    timer again or clears [free_active_type]; only entries of the context
    menu do.  In the meantime the pet counts as being in a special state,
    and the main timer never makes it blink. *)
Theorem free_roam_mode_outlives_its_timer events w :
  timers_sound ANIMATIONS (PetWidget.pet w) ->
  free_active_timer (PetWidget.pet w) = None ->
  Forall (fun e => forall a, snd e <> PetWidget.triggered a) events ->
  exists w',
    PetWidget.run fs ANIMATIONS GPUtil availableGeometry events w = Some w'
    /\ PetWidget.free_active_type w' = PetWidget.free_active_type w
    /\ free_active_timer (PetWidget.pet w') = None
    /\ (PetWidget.free_active_type w <> None ->
        PetWidget._is_in_special_state w' = true
        /\ PetWidget._on_main_timer fs ANIMATIONS w' = w').
Proof.
  revert w. induction events as [|[now i] events IH]; intros w Hts Hft Hev.
  - exists w. split; [reflexivity|]. split; [reflexivity|].
    split; [exact Hft|]. intros Hty.
    assert (PetWidget._is_in_special_state w = true) as Hsp.
    { unfold PetWidget._is_in_special_state.
      destruct (PetWidget.free_active_type w); [|congruence].
      now rewrite orb_true_r. }
    split; [exact Hsp|].
    unfold PetWidget._on_main_timer. rewrite Hsp.
    now rewrite orb_true_r.
  - apply Forall_cons in Hev as [Hi Hev]. cbn [snd] in Hi.
    destruct (handle_sound now i w Hts) as (w1 & H1 & Hts1).
    destruct (handle_without_timer now i w w1 H1 Hi Hft) as [Hty1 Hft1].
    destruct (IH w1 Hts1 Hft1 Hev) as (w' & H' & Hty' & Hft' & Hsp').
    exists w'. cbn [PetWidget.run]. rewrite H1.
    split; [exact H'|]. split; [congruence|]. split; [exact Hft'|].
    intros Hty. apply Hsp'. congruence.
Qed.

End widget.

(** * Examples on the whole widget *)

Section widget_examples.

Import DesktopPet.

Local Abbreviation ANXIETY_config :=
  (mkAnimationConfig "jiaolv" 2 100 (-1) false None SYSTEM false 1%Q None).

(** X17, at start-up: a status update at one o'clock forces the pet to
    sleep. *)
Lemma status_update_at_one_forces_sleep :
  exists w',
    PetWidget.handle fs_full ANIMATIONS true None 5%Q
      (PetWidget.status_timer_timeout 1 None None) (started_widget fs_full 0)
    = Some w'
    /\ PetWidget.is_force_sleeping w' = true.
Proof.
  apply (force_sleep_follows_the_clock fs_full ANIMATIONS true None 5%Q
           (PetWidget.status_timer_timeout 1 None None)
           (started_widget fs_full 0)).
  split; vm_compute; intros Hn; [exfalso; apply Hn|]; reflexivity.
Defined.

(** X19, on the complete installation, which has no heixiu sleep image:
    in heixiu mode the heixiu sleep shows nothing. *)
Lemma heixiu_sleep_on_full_installation :
  let w := PetWidget.toggle_heixiu_mode fs_full ANIMATIONS
             (started_widget fs_full 0) in
  let w' := PetWidget._enter_heixiu_sleep w in
  PetWidget.current_animation w' = Some HEIXIU_SLEEP
  /\ AnimationState.current_priority (animation_state (PetWidget.pet w'))
     = SYSTEM
  /\ shown_count (PetWidget.pet w') = shown_count (PetWidget.pet w)
  /\ animation_timer (PetWidget.pet w') = None
  /\ free_active_timer (PetWidget.pet w') = None.
Proof.
  intros w.
  apply (heixiu_sleep_without_image_shows_nothing w);
    vm_compute; reflexivity.
Defined.

(** X20, at start-up. *)
Lemma sleep_and_wake_up_at_start :
  let w' := PetWidget._wake_up
              (PetWidget._enter_sleep (started_widget fs_full 0)) in
  PetWidget._is_sleeping (PetWidget._enter_sleep (started_widget fs_full 0))
  = true
  /\ PetWidget.current_animation w' = None
  /\ PetWidget.is_playing w' = false
  /\ PetWidget._is_sleeping w' = false
  /\ animation_timer (PetWidget.pet w') = None
  /\ free_active_timer (PetWidget.pet w') = None.
Proof.
  apply (wake_up_after_sleep (started_widget fs_full 0));
    vm_compute; reflexivity.
Defined.



(** X23, on a fresh monitor: a second reading one second after the
    first, which was taken at time 10. *)
Lemma monitor_second_reading :
  let c1 := SystemMonitor.get_cpu_usage SystemMonitor.init 10%Q (Some 50%Q) in
  let d1 := SystemMonitor.get_gpu_usage true SystemMonitor.init 10%Q
              (Some [(1 # 2)%Q]) in
  fst c1 = 50%Q
  /\ SystemMonitor.get_cpu_usage (snd c1) 11%Q (Some 99%Q) = c1
  /\ SystemMonitor.get_gpu_usage true (snd d1) 11%Q None = d1.
Proof.
  apply (monitor_throttle SystemMonitor.init 10%Q 11%Q (Some 50%Q)
           (Some 99%Q) (Some [(1 # 2)%Q]) None).
  - vm_compute. reflexivity.
  - vm_compute. reflexivity.
  - vm_compute. intros Hn. discriminate Hn.
Defined.

(** X24, on a pet sent roaming at start-up (the draw makes it walk
    to the left), on the default screen: three time-outs of the
    free-roaming timer. *)
Lemma three_steps_to_the_left :
  let w := PetWidget.start_free_active (started_widget fs_full 0) in
  exists w',
    PetWidget.run fs_full ANIMATIONS true None
      [(1%Q, PetWidget.free_active_timer_timeout);
       (2%Q, PetWidget.free_active_timer_timeout);
       (3%Q, PetWidget.free_active_timer_timeout)] w = Some w'
    /\ walking w'
    /\ on_screen (screen_geometry None) w'.
Proof.
  intros w.
  destruct (walk_goes_on fs_full ANIMATIONS true None [1%Q; 2%Q; 3%Q] w)
    as (w' & H & Hw & _ & _ & Hon).
  - split; [vm_compute; apply list_elem_of_here|].
    split; [reflexivity|]. vm_compute. intros Hn. discriminate Hn.
  - vm_compute. intros Hn. discriminate Hn.
  - exists w'. split; [exact H|]. split; [exact Hw|].
    apply Hon. intros Hn. discriminate Hn.
Defined.

(** X25, on a pet sent roaming at start-up and then asked to shake
    from the menu: the request stops the free-roaming timer, and the mode
    stays through the time-outs and the clicks that follow. *)
Lemma roaming_mode_after_a_shake :
  let w := PetWidget.trigger fs_full ANIMATIONS
             (PetWidget.action_start_animation SHAKE)
             (PetWidget.start_free_active (started_widget fs_full 0)) in
  exists w',
    PetWidget.run fs_full ANIMATIONS true None
      [(1%Q, PetWidget.main_timer_timeout);
       (2%Q, PetWidget.animation_timer_timeout);
       (3%Q, PetWidget.mouseRelease 1 (mkQPoint 0 0));
       (4%Q, PetWidget.status_timer_timeout 12 None None)] w = Some w'
    /\ PetWidget.free_active_type w' = Some "left_walk"
    /\ free_active_timer (PetWidget.pet w') = None.
Proof.
  intros w.
  destruct (free_roam_mode_outlives_its_timer fs_full ANIMATIONS true None
              [(1%Q, PetWidget.main_timer_timeout);
               (2%Q, PetWidget.animation_timer_timeout);
               (3%Q, PetWidget.mouseRelease 1 (mkQPoint 0 0));
               (4%Q, PetWidget.status_timer_timeout 12 None None)] w)
    as (w' & H & Hty & Hft & _).
  - apply trigger_sound, start_free_active_sound.
    exact (proj1 (init_invariant fs_full ANIMATIONS (fun _ => 0) 0%Q
                    (mkQPoint 100 100))).
  - vm_compute. reflexivity.
  - repeat constructor; intros a Hn; discriminate Hn.
  - exists w'. split; [exact H|]. split; [|exact Hft].
    rewrite Hty. vm_compute. reflexivity.
Defined.

End widget_examples.
